(** * ifstat: sampling a network interface's byte counters

    A shallow embedding of [ifstat.c] (one C file, FreeBSD specific) and
    the properties of its rate computation, command line handling,
    interface lookup, CSV output and signal driven shutdown.

    Conventions of the embedding:
    - a C integer is a [Z]; conversions to a fixed width type are written
      out ([uint32], [uint64], [int32]);
    - a C [double] is a [spec_float] of the standard library at precision
      53 and maximal exponent 1024 (IEEE 754 binary64, round to nearest
      even, expressions evaluated in their own type), so the arithmetic of
      lines 206-207 is the one the machine performs, not an idealisation
      over the rationals;
    - an operation whose behaviour the C standard leaves undefined (signed
      overflow, conversion of an out of range [double] to an integer)
      yields [None], the outcome [Undef] or the point [Undefined];
    - what the operating system and the C library answer is an explicit
      input: the interface table, the counters and the clock at each pass,
      whether the file can be opened, the time zone rules;
    - the start-up of [main] is a computation in a small state and exit
      monad that records the calls made; the loop is a machine driven by
      events, an event being either the program running to its next point
      or the delivery of a signal.

    The stream [csv] and the file behind it are kept apart: the process
    records what has been written to the stream, and the content of the
    file is derived from it, the C library deciding how much of the text
    it has handed on while the stream is open.  In the same way the
    program's question to the interface table at each pass is kept apart
    from what it does with the answer.

    Left out: a failing [malloc], a failing [fwrite] (the program does not
    look at its result), a [localtime] that returns no result, and
    signals that arrive before the handlers are installed. *)

From Stdlib Require Import ZArith Lia List Bool String Ascii Reals Lra.
From Stdlib Require Import DecimalString DecimalZ DecimalPos DecimalFacts.
From Stdlib Require Import Floats.SpecFloat.
Import ListNotations.
Local Open Scope Z_scope.

(** ** Fixed width integers *)

(** Conversion to [uint32_t]: reduction modulo 2^32. *)
Definition uint32 (z : Z) : Z := z mod 2 ^ 32.

(** Conversion to [uint64_t]: reduction modulo 2^64. *)
Definition uint64 (z : Z) : Z := z mod 2 ^ 64.

Definition INT_MAX : Z := 2147483647.
Definition INT_MIN : Z := -2147483648.
Definition LONG_MAX : Z := 9223372036854775807.

(** The bits of a 32-bit value read as an [int] (two's complement). *)
Definition int32 (z : Z) : Z :=
  if uint32 z <? 2 ^ 31 then uint32 z else uint32 z - 2 ^ 32.

(** ** Time values *)

Record timeval : Type := { tv_sec : Z; tv_usec : Z }.

(** [timersub(tvp, uvp, vvp)] of <sys/time.h>: field wise difference with
    a borrow from the seconds when the microseconds go negative. *)
Definition timersub (tvp uvp : timeval) : timeval :=
  let s := tv_sec tvp - tv_sec uvp in
  let u := tv_usec tvp - tv_usec uvp in
  if u <? 0 then {| tv_sec := s - 1; tv_usec := u + 1000000 |}
  else {| tv_sec := s; tv_usec := u |}.

(** Elapsed time in microseconds, as an exact integer (specification
    side only: the program never computes this). *)
Definition micros (tv : timeval) : Z := tv_sec tv * 1000000 + tv_usec tv.

(** ** IEEE 754 binary64 *)

Module Double.

Definition prec : Z := 53.
Definition emax : Z := 1024.

Definition add : spec_float -> spec_float -> spec_float := SFadd prec emax.
Definition mul : spec_float -> spec_float -> spec_float := SFmul prec emax.
Definition div : spec_float -> spec_float -> spec_float := SFdiv prec emax.

(** Conversion of an integer to [double] (round to nearest even;
    exact below 2^53). *)
Definition of_Z (z : Z) : spec_float := binary_normalize prec emax z 0 false.

(** The literal [1e-6]: the double nearest to one millionth. *)
Definition lit_1e_6 : spec_float := S754_finite false 4722366482869645 (-72).

(** The integral part of a double (truncation toward zero); infinities
    and NaN have none. *)
Definition integral_part (f : spec_float) : option Z :=
  match f with
  | S754_zero _ => Some 0
  | S754_finite s m e =>
      Some (cond_Zopp s (if 0 <=? e then Z.pos m * 2 ^ e
                         else Z.pos m / 2 ^ (- e)))
  | S754_infinity _ | S754_nan => None
  end.

(** Conversion of a [double] to [uint32_t] (C11 6.3.1.4): the
    fractional part is discarded; when the integral part is not a value
    of the type the behaviour is undefined. *)
Definition to_uint32 (f : spec_float) : option Z :=
  match integral_part f with
  | Some z => if (0 <=? z) && (z <? 2 ^ 32) then Some z else None
  | None => None
  end.

End Double.

(** ** The body of the sampling loop (lines 196-212) *)

(** The two fields of [struct ifmibdata]'s [ifmd_data] the program reads:
    cumulative byte counters, 64 bits wide. *)
Record ifmibdata : Type := { ifi_ibytes : Z; ifi_obytes : Z }.

(** The variables of [main] that live across iterations. *)
Record loopvars : Type :=
  { old_inb : Z; old_outb : Z; old_tv : timeval }.

(** Lines 190-192: the counters of the previous round start at 0; [old_tv]
    has no initialiser, so its first value is whatever the stack holds. *)
Definition initial_vars (stack : timeval) : loopvars :=
  {| old_inb := 0; old_outb := 0; old_tv := stack |}.

(** Lines 202-203, [cur_inb = data->ifmd_data.ifi_ibytes - old_inb]: the
    subtraction is done at 64 bits and the result stored in 32. *)
Definition throughput (counter old : Z) : Z := uint32 (uint64 (counter - old)).

(** [tv.tv_sec + (tv.tv_usec * 1e-6)] in double arithmetic. *)
Definition seconds (tv : timeval) : spec_float :=
  Double.add (Double.of_Z (tv_sec tv))
             (Double.mul (Double.of_Z (tv_usec tv)) Double.lit_1e_6).

(** Lines 206-207, [cur_inb /= tv.tv_sec + (tv.tv_usec * 1e-6)]: the left
    operand is converted to double, divided, and converted back. *)
Definition normalize (cur : Z) (tv : timeval) : option Z :=
  Double.to_uint32 (Double.div (Double.of_Z cur) (seconds tv)).

(** Lines 210-212: what is kept for the next round. *)
Definition backup (data : ifmibdata) (new_tv : timeval) : loopvars :=
  {| old_inb := uint32 (ifi_ibytes data);
     old_outb := uint32 (ifi_obytes data);
     old_tv := new_tv |}.

(** One round of computation: the two rates (when defined) and the
    variables for the next round. *)
Definition iteration (v : loopvars) (data : ifmibdata) (new_tv : timeval)
  : option (Z * Z * loopvars) :=
  let tv := timersub new_tv (old_tv v) in
  let cur_inb := throughput (ifi_ibytes data) (old_inb v) in
  let cur_outb := throughput (ifi_obytes data) (old_outb v) in
  match normalize cur_inb tv, normalize cur_outb tv with
  | Some i, Some o => Some (i, o, backup data new_tv)
  | _, _ => None
  end.

(** ** Text *)

Local Open Scope string_scope.
Local Open Scope Z_scope.

(** [%i] of printf: the decimal digits of an [int], with a leading minus
    sign for a negative one. *)
Definition show_int (z : Z) : string :=
  DecimalString.NilZero.string_of_int (Z.to_int z).

(** Specification side: reading a decimal integer back (the inverse
    direction, used to state the round trip of a CSV line). *)
Definition read_int (s : string) : option Z :=
  option_map Z.of_int (DecimalString.NilZero.int_of_string s).

(** What fits a buffer of [size] bytes: at most [size - 1] characters
    ([snprintf] cuts the rest off). *)
Definition truncate (size : nat) (s : string) : string :=
  substring 0 (size - 1) s.

Definition code (c : ascii) : Z := Z.of_N (N_of_ascii c).

(** [isdigit] and [isspace] of <ctype.h> in the C locale. *)
Definition isdigit (c : ascii) : bool := (48 <=? code c) && (code c <=? 57).

Definition isspace (c : ascii) : bool :=
  (code c =? 32) || ((9 <=? code c) && (code c <=? 13)).

(** ** The command line (lines 148-166) *)

(** The loop of lines 157-161 calls [usage] at the first character that
    is not a digit; it falls through exactly when there is none. *)
Fixpoint digits_only (s : string) : bool :=
  match s with
  | EmptyString => true
  | String c r => if isdigit c then digits_only r else false
  end.

Fixpoint strtol_digits (acc : Z) (s : string) : Z :=
  match s with
  | String c r =>
      if isdigit c then strtol_digits (acc * 10 + (code c - 48)) r else acc
  | EmptyString => acc
  end.

Fixpoint skip_space (s : string) : string :=
  match s with
  | String c r => if isspace c then skip_space r else s
  | EmptyString => s
  end.

(** [strtol(s, NULL, 10)] with a 64-bit [long]: white space, an optional
    sign, the longest run of digits (0 when there is none), saturating at
    the ends of the type. *)
Definition strtol (s : string) : Z :=
  match skip_space s with
  | String "-" r => Z.max (- LONG_MAX - 1) (- strtol_digits 0 r)
  | String "+" r => Z.min LONG_MAX (strtol_digits 0 r)
  | t => Z.min LONG_MAX (strtol_digits 0 t)
  end.

(** ** Outcomes and the world outside *)

(** A computation returns, ends the process through [exit], or runs into
    behaviour the C standard does not define. *)
Inductive outcome (A : Type) : Type :=
  | Ret (a : A)
  | Exit (status : Z)
  | Undef.
Arguments Ret {A} a.
Arguments Exit {A} status.
Arguments Undef {A}.

(** Calls to the operating system and to stdio that the start-up makes,
    in the order they are made. *)
Inductive call : Type :=
  | Sysctl_ifcount
  | Sysctl_ifdata (row : Z)
  | Install_handler (signo : Z)
  | Fopen_w (path : string)
  | Fwrite (data : string).

Record world : Type := { stderr : list string; calls : list call }.

Definition nothing_yet : world := {| stderr := []; calls := [] |}.

(** Broken-down local time, the fields of [struct tm] that the format
    reads. *)
Record tm : Type :=
  { tm_sec : Z; tm_min : Z; tm_hour : Z; tm_mday : Z; tm_mon : Z; tm_year : Z }.

(** What the operating system and the C library answer. *)
Record os : Type :=
  { ifcount : option Z;              (* IFMIB_IFCOUNT; [None]: sysctl fails *)
    ifmd_name : Z -> option string;  (* name of a row; [None]: sysctl fails *)
    fopen_ok : string -> bool;       (* can the path be opened for writing *)
    strerror : string;               (* the text [perror] appends *)
    localtime : Z -> tm }.           (* the time zone rules *)

(** A small state and exit monad for the start-up code. *)
Definition M (A : Type) : Type := world -> world * outcome A.

Definition ret {A} (a : A) : M A := fun w => (w, Ret a).

Definition bind {A B} (m : M A) (k : A -> M B) : M B :=
  fun w =>
    match m w with
    | (w', Ret a) => k a w'
    | (w', Exit s) => (w', Exit s)
    | (w', Undef) => (w', Undef)
    end.

Notation "x <- m ;; k" := (bind m (fun x => k))
  (at level 61, m at next level, right associativity).
Notation "m ;;; k" := (bind m (fun _ => k))
  (at level 61, right associativity).

Definition eprint (line : string) : M unit :=
  fun w => ({| stderr := (stderr w ++ [line])%list; calls := calls w |}, Ret tt).

Definition log (c : call) : M unit :=
  fun w => ({| stderr := stderr w; calls := (calls w ++ [c])%list |}, Ret tt).

Definition exit {A} (status : Z) : M A := fun w => (w, Exit status).

Definition undefined {A} : M A := fun w => (w, Undef).

(** Lines 49-62: [msg] is [Some] text when [hasmsg] is set, otherwise the
    text of [errno] is printed. *)
Definition error_line (sys : os) (func : string) (line : Z)
    (msg : option string) : string :=
  let errormsg := truncate 64 (func ++ ", line " ++ show_int line) in
  match msg with
  | Some m => errormsg ++ ": " ++ m ++ "
"
  | None => errormsg ++ ": " ++ strerror sys ++ "
"
  end.

Definition error {A} (sys : os) (func : string) (line : Z)
    (msg : option string) : M A :=
  eprint (error_line sys func line msg) ;;; exit 1.

(** Lines 64-72. *)
Definition usage_text (binname : string) : list string :=
  [ "Usage: " ++ binname ++ " outfile interval interface
";
    "  - outfile: File to write data to.
";
    "  - intervall: Intervall of data retrival in seconds.
";
    "  - interface: Network interface to retrive data from.
" ].

(** [usage]: the four lines, then [exit(1)]. *)
Definition usage {A} (binname : string) : M A :=
  (fun w => ({| stderr := (stderr w ++ usage_text binname)%list;
                calls := calls w |}, Ret tt)) ;;; exit 1.

(** ** Interface lookup (lines 82-129) *)

(** [getifdata], as far as the lookup uses it: the name of the row. *)
Definition getifdata_name (sys : os) (row : Z) : M string :=
  log (Sysctl_ifdata row) ;;;
  match ifmd_name sys row with
  | Some name => ret name
  | None => error sys "getifdata" 91 None
  end.

(** Lines 94-105: the number of interfaces, stored in a [uint32_t]. *)
Definition getifnumber (sys : os) : M Z :=
  log Sysctl_ifcount ;;;
  match ifcount sys with
  | Some n => ret (uint32 n)
  | None => error sys "getifnumber" 102 None
  end.

(** The loop of lines 116-125, [fuel] bounding the rows still to visit.
    [i] is an [int]: stepping it past [INT_MAX] is not defined. *)
Fixpoint getifrow_from (sys : os) (ifname : string) (fuel : nat) (i num : Z)
  : M Z :=
  match fuel with
  | O => ret (-1)
  | S fuel' =>
      if i <=? num then
        name <- getifdata_name sys i ;;
        if String.eqb name ifname then ret i
        else if i =? INT_MAX then undefined
        else getifrow_from sys ifname fuel' (i + 1) num
      else ret (-1)
  end.

(** Lines 107-129: the first row whose name is [ifname], or -1. *)
Definition getifrow (sys : os) (ifname : string) : M Z :=
  num <- getifnumber sys ;;
  getifrow_from sys ifname (Z.to_nat num) 1 num.

(** Lines 148-166: the three arguments, or the usage message. *)
Definition arguments (argv : list string) : M (string * Z * string) :=
  let binname := nth 0 argv "(null)" in
  if negb (Nat.eqb (List.length argv) 4) then usage binname
  else
    let a2 := nth 2 argv "" in
    if digits_only a2
    then ret (nth 1 argv "", int32 (strtol a2), nth 3 argv "")
    else usage binname.

(** ** One CSV record (lines 214-221) *)

Definition header : string :=
  "date,input in bytes per second,output in bytes per second
".

(** A number of the calendar on two digits ([%02d]). *)
Definition pad2 (n : Z) : string :=
  if (0 <=? n) && (n <? 10) then "0" ++ show_int n else show_int n.

(** The text of ["%Y.%m.%d %H:%M:%S"]; the year is printed as century and
    year of the century, as the FreeBSD library does. *)
Definition strftime_text (t : tm) : string :=
  let y := tm_year t + 1900 in
  pad2 (y / 100) ++ pad2 (y mod 100) ++ "." ++ pad2 (tm_mon t + 1) ++ "."
    ++ pad2 (tm_mday t) ++ " " ++ pad2 (tm_hour t) ++ ":"
    ++ pad2 (tm_min t) ++ ":" ++ pad2 (tm_sec t).

(** [strftime(t, sizeof(t), ...)] with [char t[64]]: when the text and
    its terminator do not fit, the content of the array is not defined. *)
Definition strftime (t : tm) : option string :=
  let s := strftime_text t in
  if (String.length s <? 64)%nat then Some s else None.

(** [snprintf(s, sizeof(s), "%s,%i,%i\n", t, cur_inb, cur_outb)] with
    [char s[128]]: the two [uint32_t] are printed through [%i], that is,
    as [int]. *)
Definition data_line (t : string) (cur_inb cur_outb : Z) : string :=
  truncate 128
    (t ++ "," ++ show_int (int32 cur_inb) ++ "," ++ show_int (int32 cur_outb)
       ++ "
").

(** ** The sampling loop as a machine (lines 194-234) *)

(** Where the program stands. [AtSleep] is the point between the test of
    [quit] and the call of [usleep]; [Sleeping] is inside [usleep]. *)
Inductive point : Type :=
  | AtSample
  | AtCheck
  | AtSleep
  | Sleeping
  | AtDrain
  | Stopped (status : Z)
  | Undefined.

Record process : Type :=
  { pc : point;
    quit : bool;               (* the global [quit] *)
    interval : Z;              (* [int32_t interval] *)
    row : Z;                   (* [int32_t row] *)
    vars : loopvars;
    csv : list string;         (* what each [fwrite] on [csv] has written *)
    csv_open : bool;           (* [csv] not yet closed *)
    naps : list Z;             (* arguments of the [usleep] calls so far *)
    rounds : nat;              (* completed passes through lines 196-221 *)
    errors : list string }.    (* lines written to the error stream *)

Definition at_point (p : process) (q : point) : process :=
  {| pc := q; quit := quit p; interval := interval p; row := row p;
     vars := vars p; csv := csv p; csv_open := csv_open p; naps := naps p;
     rounds := rounds p; errors := errors p |}.

(** Lines 74-78: the handler stores 1 in [quit] and does nothing else. *)
Definition signalhandler (p : process) : process :=
  {| pc := pc p; quit := true; interval := interval p; row := row p;
     vars := vars p; csv := csv p; csv_open := csv_open p; naps := naps p;
     rounds := rounds p; errors := errors p |}.

(** [exit(1)] from [error]: the message goes to the error stream and the
    C library closes the open streams. *)
Definition die (p : process) (line : string) : process :=
  {| pc := Stopped 1; quit := quit p; interval := interval p; row := row p;
     vars := vars p; csv := csv p; csv_open := false; naps := naps p;
     rounds := rounds p; errors := (errors p ++ [line])%list |}.

(** What the system answers during one pass: the counters of the row
    ([None] when the sysctl fails) and the time of day. *)
Record answer : Type := { reading : option ifmibdata; now : timeval }.

(** Lines 196-221. *)
Definition sample (sys : os) (p : process) (a : answer) : process :=
  match reading a with
  | None => die p (error_line sys "getifdata" 91 None)
  | Some data =>
      match iteration (vars p) data (now a),
            strftime (localtime sys (tv_sec (now a))) with
      | Some (cur_inb, cur_outb, v), Some t =>
          {| pc := AtCheck; quit := quit p; interval := interval p;
             row := row p; vars := v;
             csv := (csv p ++ [data_line t cur_inb cur_outb])%list;
             csv_open := csv_open p; naps := naps p;
             rounds := S (rounds p); errors := errors p |}
      | _, _ => at_point p Undefined
      end
  end.

(** Lines 224-225. *)
Definition check (p : process) : process :=
  if quit p then at_point p AtDrain else at_point p AtSleep.

(** The argument of line 228, [interval * 1000 * 1000], computed on
    [int] and passed as [useconds_t]; a product outside [int] is not
    defined. *)
Definition usleep_arg (interval : Z) : option Z :=
  let a := interval * 1000 in
  let b := a * 1000 in
  if (INT_MIN <=? a) && (a <=? INT_MAX) && (INT_MIN <=? b) && (b <=? INT_MAX)
  then Some (uint32 b) else None.

Definition enter_sleep (p : process) : process :=
  match usleep_arg (interval p) with
  | Some us =>
      {| pc := Sleeping; quit := quit p; interval := interval p; row := row p;
         vars := vars p; csv := csv p; csv_open := csv_open p;
         naps := (naps p ++ [us])%list; rounds := rounds p;
         errors := errors p |}
  | None => at_point p Undefined
  end.

(** Lines 231-234: flush, close, return 0. *)
Definition drain (p : process) : process :=
  {| pc := Stopped 0; quit := quit p; interval := interval p; row := row p;
     vars := vars p; csv := csv p; csv_open := false; naps := naps p;
     rounds := rounds p; errors := errors p |}.

(** What can happen next: the program runs to its next point, with the
    system's answers at hand, or a SIGINT or SIGTERM is delivered. *)
Inductive event : Type :=
  | Tick (a : answer)
  | Signal.

(** Delivery of a signal: the handler runs; a process inside [usleep]
    returns from it at once. *)
Definition deliver (p : process) : process :=
  match pc p with
  | Sleeping => at_point (signalhandler p) AtSample
  | Stopped _ | Undefined => p
  | _ => signalhandler p
  end.

Definition step (sys : os) (p : process) (e : event) : process :=
  match e with
  | Signal => deliver p
  | Tick a =>
      match pc p with
      | AtSample => sample sys p a
      | AtCheck => check p
      | AtSleep => enter_sleep p
      | Sleeping => at_point p AtSample
      | AtDrain => drain p
      | Stopped _ | Undefined => p
      end
  end.

Definition run (sys : os) (p : process) (es : list event) : process :=
  fold_left (step sys) es p.

(** ** [main] up to the loop (lines 148-192) *)

Definition SIGINT : Z := 2.
Definition SIGTERM : Z := 15.

(** [prior] is what the file at the path held before, if it existed:
    mode ["w"] creates the file or cuts it to length zero. *)
Definition fopen_w (sys : os) (path : string) (prior : option string)
  : M (list string) :=
  log (Fopen_w path) ;;;
  if fopen_ok sys path then ret [] else error sys "main" 181 None.

Definition startup (sys : os) (argv : list string) (prior : option string)
    (stack : timeval) : M process :=
  args <- arguments argv ;;
  let '(outfile, interval, inter) := args in
  row <- getifrow sys inter ;;
  (if row <? 1
   then error sys "main" 170 (Some "Couldn't get interface")
   else ret tt) ;;;
  log (Install_handler SIGINT) ;;;
  log (Install_handler SIGTERM) ;;;
  content <- fopen_w sys outfile prior ;;
  log (Fwrite header) ;;;
  ret {| pc := AtSample; quit := false; interval := interval;
         row := row; vars := initial_vars stack;
         csv := (content ++ [header])%list; csv_open := true; naps := [];
         rounds := 0; errors := [] |}.

(** The whole program: the start-up, then the loop driven by the events;
    the result is the final outcome together with the state of the
    process when it got that far. *)
Definition main (sys : os) (argv : list string) (prior : option string)
    (stack : timeval) (es : list event) : world * outcome process :=
  match startup sys argv prior stack nothing_yet with
  | (w, Ret p) => (w, Ret (run sys p es))
  | r => r
  end.

(** ** Reading a record back *)

(** The text before the first occurrence of [sep], and the text after
    it. *)
Fixpoint split_at (sep : ascii) (s : string) : option (string * string) :=
  match s with
  | EmptyString => None
  | String c r =>
      if Ascii.eqb c sep then Some (EmptyString, r)
      else match split_at sep r with
           | Some (a, b) => Some (String c a, b)
           | None => None
           end
  end.

(** Specification side (the program has no reader): a reader for one data
    line, three fields separated by commas, the line closed by a line
    feed.  The round trip of a record is stated with it. *)
Definition parse_line (line : string) : option (string * Z * Z) :=
  match split_at "," line with
  | Some (t, rest) =>
      match split_at "," rest with
      | Some (a, rest') =>
          match split_at "010" rest' with
          | Some (b, EmptyString) =>
              match read_int a, read_int b with
              | Some x, Some y => Some (t, x, y)
              | _, _ => None
              end
          | _ => None
          end
      | None => None
      end
  | None => None
  end.

(** The shape [YYYY.MM.DD HH:MM:SS]. *)
Definition is_timestamp (s : string) : bool :=
  match list_ascii_of_string s with
  | [y1; y2; y3; y4; p1; m1; m2; p2; g1; g2; sp; h1; h2; c1; n1; n2; c2; s1; s2] =>
      forallb isdigit [y1; y2; y3; y4; m1; m2; g1; g2; h1; h2; n1; n2; s1; s2]
      && Ascii.eqb p1 "." && Ascii.eqb p2 "." && Ascii.eqb sp " "
      && Ascii.eqb c1 ":" && Ascii.eqb c2 ":"
  | _ => false
  end.

(** Calendar fields within their ranges, years 0 to 9999. *)
Definition tm_in_range (t : tm) : bool :=
  (0 <=? tm_sec t) && (tm_sec t <=? 60) && (0 <=? tm_min t) && (tm_min t <=? 59)
  && (0 <=? tm_hour t) && (tm_hour t <=? 23) && (1 <=? tm_mday t)
  && (tm_mday t <=? 31) && (0 <=? tm_mon t) && (tm_mon t <=? 11)
  && (-1900 <=? tm_year t) && (tm_year t <=? 8099).

(** ** Vocabulary of the statements: the start-up *)

(** The integers [i], [i + 1], ... ([len] of them). *)
Fixpoint zrange (i : Z) (len : nat) : list Z :=
  match len with
  | O => []
  | S n => i :: zrange (i + 1) n
  end.

(** The world after some more calls. *)
Definition logged (w : world) (cs : list call) : world :=
  {| stderr := stderr w; calls := (calls w ++ cs)%list |}.

(** Row [j] exists and carries another name than [ifname]. *)
Definition other_name (sys : os) (ifname : string) (j : Z) : Prop :=
  exists nm, ifmd_name sys j = Some nm /\ nm <> ifname.

(** The call opens a file. *)
Definition is_fopen (c : call) : bool :=
  match c with
  | Fopen_w _ => true
  | _ => false
  end.

(** ** Vocabulary of the statements: the loop *)

(** The program running on, one answer of the system for each step. *)
Definition ticks (l : list answer) : list event := map Tick l.

(** The process is inside the loop of lines 194-229. *)
Definition in_loop (p : process) : bool :=
  match pc p with
  | AtSample | AtCheck | AtSleep | Sleeping => true
  | _ => false
  end.

(** A pass with answer [a] goes through: the sysctl succeeds, both rates
    are defined and the time stamp fits its buffer. *)
Definition sample_ok (sys : os) (v : loopvars) (a : answer) : bool :=
  match reading a with
  | Some data =>
      match iteration v data (now a),
            strftime (localtime sys (tv_sec (now a))) with
      | Some _, Some _ => true
      | _, _ => false
      end
  | None => false
  end.

(** No [usleep] before a record: the calls of [usleep] never outnumber
    the completed passes, and inside [usleep] and just after it they are
    as many. *)
Definition naps_follow_rounds (p : process) : Prop :=
  match pc p with
  | AtSample => List.length (naps p) = rounds p
  | AtCheck | AtSleep => S (List.length (naps p)) = rounds p
  | Sleeping => List.length (naps p) = rounds p
  | _ => (List.length (naps p) <= rounds p)%nat
  end.


(** The file is open while the program runs and closed once it has
    stopped; it stops with status 0 only with [quit] set and nothing on
    the error stream, and with status 1 only after the one message of a
    failed query. *)
Definition ends_rightly (sys : os) (p : process) : Prop :=
  match pc p with
  | Stopped s =>
      csv_open p = false
      /\ ((s = 0 /\ quit p = true /\ errors p = [])
          \/ (s = 1 /\ errors p = [error_line sys "getifdata" 91 None]))
  | AtDrain => csv_open p = true /\ quit p = true /\ errors p = []
  | _ => csv_open p = true /\ errors p = []
  end.

(** With [quit] left alone the loop is not left through line 225. *)
Definition keeps_looping (p : process) : Prop :=
  quit p = false
  /\ match pc p with
     | AtDrain | Stopped 0 => False
     | _ => True
     end.

(** How many records, and how many calls of [usleep], a process with
    [quit] set can still add from a point of the loop. *)
Definition records_left (q : point) : nat :=
  match q with
  | AtSample | AtSleep | Sleeping => 1
  | _ => 0
  end.

Definition naps_left (q : point) : nat :=
  match q with
  | AtSleep => 1
  | _ => 0
  end.

(** With [quit] set: the passes completed and the calls of [usleep]
    made, together with what the point still allows, stay within [r] and
    [n]. *)
Definition winding_down (r n : nat) (p : process) : Prop :=
  quit p = true
  /\ (rounds p + records_left (pc p) <= r)%nat
  /\ (List.length (naps p) + naps_left (pc p) <= n)%nat.

(** From [p] to [q] the file and the list of sleeps have only been
    added to, the file by one line for each pass completed. *)
Definition grown_from (p q : process) : Prop :=
  exists (lines : list string) (more : list Z),
    csv q = (csv p ++ lines)%list
    /\ rounds q = (rounds p + List.length lines)%nat
    /\ naps q = (naps p ++ more)%list.

(** ** Vocabulary of the statements: text *)

(** Every character of the string passes the test. *)
Fixpoint all_chars (f : ascii -> bool) (s : string) : bool :=
  match s with
  | EmptyString => true
  | String c r => f c && all_chars f r
  end.

(** The characters [%i] can produce. *)
Definition int_char (c : ascii) : bool := isdigit c || Ascii.eqb c "-".

(** The characters a time stamp is made of. *)
Definition stamp_char (c : ascii) : bool :=
  int_char c || Ascii.eqb c "." || Ascii.eqb c " " || Ascii.eqb c ":".

(** The character [sep] does not occur. *)
Definition free_of (sep : ascii) (s : string) : bool :=
  all_chars (fun c => negb (Ascii.eqb c sep)) s.

(** Exactly two characters, both digits. *)
Definition two_digits (s : string) : bool :=
  match s with
  | String a (String b EmptyString) => isdigit a && isdigit b
  | _ => false
  end.

(** The most significant digit of a little-endian numeral is not 0. *)
Fixpoint little_normal (d : Decimal.uint) : bool :=
  match d with
  | Decimal.Nil => true
  | Decimal.D0 d' =>
      match d' with
      | Decimal.Nil => false
      | _ => little_normal d'
      end
  | Decimal.D1 d' | Decimal.D2 d' | Decimal.D3 d' | Decimal.D4 d'
  | Decimal.D5 d' | Decimal.D6 d' | Decimal.D7 d' | Decimal.D8 d'
  | Decimal.D9 d' => little_normal d'
  end.

(** The untruncated text of a record. *)
Definition record_text (t : string) (x y : Z) : string :=
  t ++ "," ++ show_int x ++ "," ++ show_int y ++ "
".



(** ** Vocabulary of the statements: real numbers, to measure the rounding
    of the doubles *)

(** The power of two of an integer exponent, as a real number. *)
Definition bpow (e : Z) : R := powerRZ 2 e.

(** The factor by which one rounding can move a value: (1 + u) / (1 - u)
    for u = 2^-52. *)
Definition rho : R := ((IZR (2 ^ 52) + 1) / (IZR (2 ^ 52) - 1))%R.

(** Two positive reals within [k] roundings of one another. *)
Definition near (k : nat) (a b : R) : Prop :=
  (0 < a /\ 0 < b /\ a <= b * rho ^ k /\ b <= a * rho ^ k)%R.

(** A positive double with a full mantissa within [k] roundings of [v]. *)
Definition approx (k : nat) (f : spec_float) (v : R) : Prop :=
  exists (m : positive) (e : Z),
    f = S754_finite false m e
    /\ 2 ^ 52 <= Z.pos m < 2 ^ 53
    /\ near k (IZR (Z.pos m) * bpow e) v.

(** ** Vocabulary of the statements: the rates *)

(** The specification's statement on the rates: for two consecutive snapshots
    the pass yields both rates, neither negative, each equal to the byte
    difference divided by the elapsed time (in microseconds here) up to
    the truncation or rounding to an integer, that is, within one of the
    integral part of the exact quotient. *)
Definition rates_match_quotient (prev cur : ifmibdata) (t0 t1 : timeval)
  : Prop :=
  exists (ri ro : Z) (v : loopvars),
    iteration (backup prev t0) cur t1 = Some (ri, ro, v)
    /\ 0 <= ri /\ 0 <= ro
    /\ Z.abs (ri - (ifi_ibytes cur - ifi_ibytes prev) * 1000000
                   / (micros t1 - micros t0)) <= 1
    /\ Z.abs (ro - (ifi_obytes cur - ifi_obytes prev) * 1000000
                   / (micros t1 - micros t0)) <= 1.

(** ** A system to run the examples on *)

(** Calendar date of a day number counted from 1970-01-01, Gregorian
    calendar. *)
Definition civil_from_days (days : Z) : Z * Z * Z :=
  let z := days + 719468 in
  let era := z / 146097 in
  let doe := z - era * 146097 in
  let yoe := (doe - doe / 1460 + doe / 36524 - doe / 146096) / 365 in
  let doy := doe - (365 * yoe + yoe / 4 - yoe / 100) in
  let mp := (5 * doy + 2) / 153 in
  let d := doy - (153 * mp + 2) / 5 + 1 in
  let m := if mp <? 10 then mp + 3 else mp - 9 in
  let y := yoe + era * 400 + (if m <=? 2 then 1 else 0) in
  (y, m, d).

(** Local time in a zone without offset from UTC. *)
Definition utc (t : Z) : tm :=
  let '(y, m, d) := civil_from_days (t / 86400) in
  let r := t mod 86400 in
  {| tm_sec := r mod 60; tm_min := (r / 60) mod 60; tm_hour := r / 3600;
     tm_mday := d; tm_mon := m - 1; tm_year := y - 1900 |}.

(** A host with three interfaces, [lo0], [em0] and [em1]. *)
Definition demo_os : os :=
  {| ifcount := Some 3;
     ifmd_name := fun j =>
       if j =? 1 then Some "lo0"
       else if j =? 2 then Some "em0"
       else if j =? 3 then Some "em1"
       else None;
     fopen_ok := fun _ => true;
     strerror := "No such file or directory";
     localtime := utc |}.

(** The instant [s] seconds and [u] microseconds. *)
Definition at_time (s u : Z) : timeval := {| tv_sec := s; tv_usec := u |}.

(** A reading of the two byte counters. *)
Definition counters (i o : Z) : ifmibdata :=
  {| ifi_ibytes := i; ifi_obytes := o |}.

(** A command line: sample [em0] every second into [out.csv]. *)
Definition demo_argv : list string := ["ifstat"; "out.csv"; "1"; "em0"].

(** Two consecutive answers of the system, one second apart: the
    snapshots of the example in the specification. *)
Definition first_answer : answer :=
  {| reading := Some (counters 1000000 2000000);
     now := at_time 1700000000 0 |}.

Definition second_answer : answer :=
  {| reading := Some (counters 1000100 2000300);
     now := at_time 1700000001 0 |}.

(** The same host when the number of interfaces cannot be queried. *)
Definition no_count_os : os :=
  {| ifcount := None;
     ifmd_name := ifmd_name demo_os;
     fopen_ok := fun _ => true;
     strerror := "Operation not permitted";
     localtime := utc |}.

(** A host whose second row cannot be read; [em0] is its third. *)
Definition broken_row_os : os :=
  {| ifcount := Some 3;
     ifmd_name := fun j =>
       if j =? 1 then Some "lo0"
       else if j =? 3 then Some "em0"
       else None;
     fopen_ok := fun _ => true;
     strerror := "No such file or directory";
     localtime := utc |}.

(** The same host as [demo_os] with no place to write to. *)
Definition read_only_os : os :=
  {| ifcount := ifcount demo_os;
     ifmd_name := ifmd_name demo_os;
     fopen_ok := fun _ => false;
     strerror := "Read-only file system";
     localtime := utc |}.

(** A process at the top of the loop, as a start with interval 1 on row
    2 leaves it, with [v] for the variables of the previous pass. *)
Definition fresh_process (v : loopvars) : process :=
  {| pc := AtSample; quit := false; interval := 1; row := 2; vars := v;
     csv := [header]; csv_open := true; naps := []; rounds := 0;
     errors := [] |}.

(** The system's answer when the sysctl of a pass fails. *)
Definition failed_answer : answer :=
  {| reading := None; now := at_time 1700000001 0 |}.

(** ** The file behind the stream *)








(** ** The loop and the interface table *)

(** What the system holds at one moment: the byte counters of every row
    of the interface table ([None] where the sysctl for the row fails)
    and the time of day. *)
Record moment : Type :=
  { counters_at : Z -> option ifmibdata; time_at : timeval }.

(** Lines 197-198, [getifdata(row, data)] and [gettimeofday]: the
    program asks for the counters of its row and for the time. *)
Definition ask (p : process) (m : moment) : answer :=
  {| reading := counters_at m (row p); now := time_at m |}.

(** What happens to a process: it runs to its next point while the
    system is at some moment, or a signal is delivered. *)
Inductive occurrence : Type :=
  | Goes_on (m : moment)
  | Interrupted.

Definition respond (sys : os) (p : process) (o : occurrence) : process :=
  match o with
  | Goes_on m => step sys p (Tick (ask p m))
  | Interrupted => step sys p Signal
  end.

Definition live (sys : os) (p : process) (l : list occurrence) : process :=
  fold_left (respond sys) l p.

(** [main] against a system that changes as time goes by. *)
Definition main_live (sys : os) (argv : list string) (prior : option string)
    (stack : timeval) (l : list occurrence) : world * outcome process :=
  match startup sys argv prior stack nothing_yet with
  | (w, Ret p) => (w, Ret (live sys p l))
  | r => r
  end.

(** Two occurrences that differ at most in the counters of rows other
    than [k]. *)
Definition same_for_row (k : Z) (o o' : occurrence) : Prop :=
  match o, o' with
  | Goes_on m, Goes_on m' =>
      counters_at m k = counters_at m' k /\ time_at m = time_at m'
  | Interrupted, Interrupted => True
  | _, _ => False
  end.

(** The event a process whose row is [k] makes of an occurrence. *)
Definition event_for_row (k : Z) (o : occurrence) : event :=
  match o with
  | Goes_on m => Tick {| reading := counters_at m k; now := time_at m |}
  | Interrupted => Signal
  end.

(** A table in which every row carries the same counters. *)
Definition all_rows (data : option ifmibdata) (t : timeval) : moment :=
  {| counters_at := fun _ => data; time_at := t |}.

(** A table in which only row [k] can be read. *)
Definition only_row (k : Z) (data : ifmibdata) (t : timeval) : moment :=
  {| counters_at := fun j => if j =? k then Some data else None;
     time_at := t |}.

(** * Properties *)

Arguments iteration : simpl never.
Arguments normalize : simpl never.
Arguments sample : simpl never.
Arguments sample_ok : simpl never.
Arguments usleep_arg : simpl never.
Arguments strftime : simpl never.
Arguments data_line : simpl never.
Arguments header : simpl never.
Arguments error_line : simpl never.
Arguments enter_sleep : simpl never.

(** ** Counter differences *)

Lemma uint32_range (z : Z) : 0 <= uint32 z < 2 ^ 32.
Proof. unfold uint32. apply Z.mod_pos_bound. lia. Qed.

Lemma uint32_small (z : Z) : 0 <= z < 2 ^ 32 -> uint32 z = z.
Proof. intros H. unfold uint32. apply Z.mod_small. exact H. Qed.

Lemma uint32_uint64 (z : Z) : uint32 (uint64 z) = uint32 z.
Proof.
  unfold uint32, uint64.
  apply Z.mod_mod_divide. exists (2 ^ 32). reflexivity.
Qed.

Lemma throughput_mod (cur prev : Z) :
  throughput cur (uint32 prev) = (cur - prev) mod 2 ^ 32.
Proof.
  unfold throughput. rewrite uint32_uint64. unfold uint32.
  apply Zminus_mod_idemp_r.
Qed.

Lemma throughput_range (counter old : Z) : 0 <= throughput counter old < 2 ^ 32.
Proof. unfold throughput. apply uint32_range. Qed.

(** C9. The value stored by lines 202-203 for two consecutive readings
    [prev] and [cur] of a counter is [(cur - prev) mod 2^32]: it is never
    negative, a decrease of the counter by less than 2^32 shows up as
    [2^32 - (prev - cur)], and growth by a multiple of 2^32 shows up
    as 0.  The same for both directions, [backup] being what line 210-211
    keep of the previous reading. *)
Theorem counter_delta_is_difference_mod_2_32 :
  forall (prev cur : ifmibdata) (t : timeval),
    let v := backup prev t in
    let d_in := throughput (ifi_ibytes cur) (old_inb v) in
    let d_out := throughput (ifi_obytes cur) (old_outb v) in
    d_in = (ifi_ibytes cur - ifi_ibytes prev) mod 2 ^ 32
    /\ d_out = (ifi_obytes cur - ifi_obytes prev) mod 2 ^ 32
    /\ 0 <= d_in < 2 ^ 32 /\ 0 <= d_out < 2 ^ 32
    /\ (ifi_ibytes cur < ifi_ibytes prev ->
        ifi_ibytes prev - ifi_ibytes cur < 2 ^ 32 ->
        d_in = 2 ^ 32 - (ifi_ibytes prev - ifi_ibytes cur) /\ 0 < d_in)
    /\ (forall k, ifi_ibytes cur = ifi_ibytes prev + k * 2 ^ 32 -> d_in = 0)
    /\ (forall k, ifi_obytes cur = ifi_obytes prev + k * 2 ^ 32 -> d_out = 0).
Proof.
  intros prev cur t v d_in d_out. subst v d_in d_out. cbn [backup old_inb old_outb].
  rewrite !throughput_mod.
  assert (Hwrap : forall a b k, a = b + k * 2 ^ 32 -> (a - b) mod 2 ^ 32 = 0).
  { intros a b k ->. replace (b + k * 2 ^ 32 - b) with (0 + k * 2 ^ 32) by ring.
    rewrite Z_mod_plus_full. reflexivity. }
  split; [reflexivity|]. split; [reflexivity|].
  split; [apply Z.mod_pos_bound; lia|].
  split; [apply Z.mod_pos_bound; lia|].
  split; [|split; intros k Hk; eapply Hwrap; exact Hk].
  intros Hlt Hsmall.
  replace (ifi_ibytes cur - ifi_ibytes prev)
    with (2 ^ 32 - (ifi_ibytes prev - ifi_ibytes cur) + (-1) * 2 ^ 32) by ring.
  rewrite Z_mod_plus_full. rewrite Z.mod_small; lia.
Qed.

(** ** The first pass and a non-positive elapsed time *)

(** The first pass divides the counters themselves (the previous values
    being 0) by the distance from now to whatever [old_tv] held.  With a
    zero filled stack that distance is the time since 1970. *)
Example first_pass_one_second_before :
  iteration (initial_vars {| tv_sec := 1699999999; tv_usec := 0 |})
            {| ifi_ibytes := 123456; ifi_obytes := 7890 |}
            {| tv_sec := 1700000000; tv_usec := 0 |}
  = Some (123456, 7890,
          {| old_inb := 123456; old_outb := 7890;
             old_tv := {| tv_sec := 1700000000; tv_usec := 0 |} |}).
Proof. vm_compute. reflexivity. Qed.

(** C1 (evaluation at the failing input).  On the first pass, with
    [old_tv] holding zeros, counters at 4000000000 and 3500000000 bytes
    and the clock at 1700000000 s, the rates written are 2 and 2, not 0
    and 0: there is no special case for the first pass, and the interval
    divided by is taken from the uninitialised [old_tv]. *)
Theorem first_pass_rates_not_zero :
  iteration (initial_vars {| tv_sec := 0; tv_usec := 0 |})
            {| ifi_ibytes := 4000000000; ifi_obytes := 3500000000 |}
            {| tv_sec := 1700000000; tv_usec := 0 |}
  = Some (2, 2,
          {| old_inb := 4000000000; old_outb := 3500000000;
             old_tv := {| tv_sec := 1700000000; tv_usec := 0 |} |}).
Proof. vm_compute. reflexivity. Qed.

Lemma timersub_same (t : timeval) :
  timersub t t = {| tv_sec := 0; tv_usec := 0 |}.
Proof.
  unfold timersub. rewrite !Z.sub_diag. reflexivity.
Qed.

Lemma seconds_zero : seconds {| tv_sec := 0; tv_usec := 0 |} = S754_zero false.
Proof. vm_compute. reflexivity. Qed.

Lemma divide_by_zero_undefined (x : spec_float) :
  Double.to_uint32 (Double.div x (S754_zero false)) = None.
Proof. destruct x as [s|s| |s m e]; reflexivity. Qed.

(** C2 (evaluation at the failing inputs).  When two passes read the
    clock at the same instant the elapsed time is 0 and line 206 divides
    by it: the quotient is an infinity or NaN and its conversion to
    [uint32_t] is not defined, whatever the counters are.  When the clock
    went back by one second, from 10 s to 9 s, the quotient of a
    difference of 100 bytes is -100, whose conversion is not defined
    either, and the pass has no defined result.  No rate of 0 is produced
    in either case; only a difference of 0 over a negative time gives
    0. *)
Theorem elapsed_not_positive_no_zero_rate :
  (forall (old_in old_out : Z) (t : timeval) (data : ifmibdata),
      iteration {| old_inb := old_in; old_outb := old_out; old_tv := t |} data t
      = None)
  /\ timersub (at_time 9 0) (at_time 10 0) = at_time (-1) 0
  /\ Double.integral_part
       (Double.div (Double.of_Z 100) (seconds (at_time (-1) 0)))
     = Some (-100)
  /\ normalize 100 (at_time (-1) 0) = None
  /\ iteration (backup (counters 1000 1000) (at_time 10 0))
               (counters 1100 1100) (at_time 9 0) = None
  /\ normalize 0 (at_time (-1) 0) = Some 0.
Proof.
  split; [|repeat split; vm_compute; reflexivity].
  intros old_in old_out t data.
  unfold iteration. cbn [old_tv old_inb old_outb].
  rewrite timersub_same. unfold normalize. rewrite seconds_zero.
  rewrite divide_by_zero_undefined. reflexivity.
Qed.

(** ** Interface lookup *)

Section Lookup.
Variable sys : os.
Variable ifname : string.

Lemma getifdata_name_some (j : Z) (nm : string) (w : world) :
  ifmd_name sys j = Some nm ->
  getifdata_name sys j w = (logged w [Sysctl_ifdata j], Ret nm).
Proof.
  intros H. unfold getifdata_name, bind, log, ret, logged. cbn.
  rewrite H. reflexivity.
Qed.

Lemma logged_logged (w : world) (a b : list call) :
  logged (logged w a) b = logged w (a ++ b).
Proof. unfold logged. cbn. rewrite <- List.app_assoc. reflexivity. Qed.

Lemma logged_nil (w : world) : logged w [] = w.
Proof. unfold logged. rewrite List.app_nil_r. destruct w; reflexivity. Qed.

Lemma getifrow_from_found (fuel : nat) :
  forall (i num k : Z) (w : world),
    i <= k <= num -> k <= INT_MAX ->
    (Z.to_nat (k - i) < fuel)%nat ->
    ifmd_name sys k = Some ifname ->
    (forall j, i <= j < k -> other_name sys ifname j) ->
    getifrow_from sys ifname fuel i num w
    = (logged w (map Sysctl_ifdata (zrange i (S (Z.to_nat (k - i))))), Ret k).
Proof.
  induction fuel as [|fuel IH]; intros i num k w Hk Hmax Hfuel Hname Hbefore.
  - lia.
  - cbn [getifrow_from].
    destruct (Z.leb_spec i num) as [_|Hgt]; [|lia].
    destruct (Z.eq_dec i k) as [->|Hne].
    + unfold bind at 1. rewrite (getifdata_name_some k ifname w Hname).
      rewrite String.eqb_refl. rewrite Z.sub_diag. reflexivity.
    + destruct (Hbefore i ltac:(lia)) as [nm [Hnm Hdiff]].
      unfold bind at 1. rewrite (getifdata_name_some i nm w Hnm).
      destruct (String.eqb_spec nm ifname) as [Heq|_]; [contradiction|].
      destruct (Z.eqb_spec i INT_MAX) as [Hi|_]; [lia|].
      rewrite (IH (i + 1) num k); try lia; auto.
      * rewrite logged_logged.
        replace (Z.to_nat (k - i)) with (S (Z.to_nat (k - (i + 1)))) by lia.
        reflexivity.
      * intros j Hj. apply Hbefore. lia.
Qed.

Lemma getifrow_from_none (fuel : nat) :
  forall (i num : Z) (w : world),
    num < INT_MAX ->
    (Z.to_nat (num + 1 - i) <= fuel)%nat ->
    (forall j, i <= j <= num -> other_name sys ifname j) ->
    getifrow_from sys ifname fuel i num w
    = (logged w (map Sysctl_ifdata (zrange i (Z.to_nat (num + 1 - i)))),
       Ret (-1)).
Proof.
  induction fuel as [|fuel IH]; intros i num w Hmax Hfuel Hall.
  - cbn. replace (Z.to_nat (num + 1 - i)) with O by lia.
    cbn. rewrite logged_nil. reflexivity.
  - cbn [getifrow_from].
    destruct (Z.leb_spec i num) as [Hle|Hgt].
    + destruct (Hall i ltac:(lia)) as [nm [Hnm Hdiff]].
      unfold bind at 1. rewrite (getifdata_name_some i nm w Hnm).
      destruct (String.eqb_spec nm ifname) as [Heq|_]; [contradiction|].
      destruct (Z.eqb_spec i INT_MAX) as [Hi|Hi]; [lia|].
      rewrite IH; try lia.
      * rewrite logged_logged.
        replace (Z.to_nat (num + 1 - i))
          with (S (Z.to_nat (num + 1 - (i + 1)))) by lia.
        reflexivity.
      * intros j Hj. apply Hall. lia.
    + replace (Z.to_nat (num + 1 - i)) with O by lia.
      cbn. rewrite logged_nil. reflexivity.
Qed.

Lemma getifnumber_some (n : Z) (w : world) :
  ifcount sys = Some n -> 0 <= n < 2 ^ 32 ->
  getifnumber sys w = (logged w [Sysctl_ifcount], Ret n).
Proof.
  intros H Hn. unfold getifnumber, bind, log, ret, logged. cbn.
  rewrite H. rewrite uint32_small by exact Hn. reflexivity.
Qed.

Lemma getifrow_found (n k : Z) (w : world) :
  ifcount sys = Some n -> 0 <= n <= INT_MAX -> 1 <= k <= n ->
  ifmd_name sys k = Some ifname ->
  (forall j, 1 <= j < k -> other_name sys ifname j) ->
  getifrow sys ifname w
  = (logged w (Sysctl_ifcount :: map Sysctl_ifdata (zrange 1 (Z.to_nat k))),
     Ret k).
Proof.
  intros Hn Hrange Hk Hname Hbefore. unfold getifrow, bind.
  rewrite (getifnumber_some n w Hn) by (unfold INT_MAX in Hrange; lia).
  rewrite (getifrow_from_found (Z.to_nat n) 1 n k); try lia; auto.
  rewrite logged_logged.
  replace (S (Z.to_nat (k - 1))) with (Z.to_nat k) by lia.
  reflexivity.
Qed.

Lemma getifrow_none (n : Z) (w : world) :
  ifcount sys = Some n -> 0 <= n < INT_MAX ->
  (forall j, 1 <= j <= n -> other_name sys ifname j) ->
  getifrow sys ifname w
  = (logged w (Sysctl_ifcount :: map Sysctl_ifdata (zrange 1 (Z.to_nat n))),
     Ret (-1)).
Proof.
  intros Hn Hrange Hall. unfold getifrow, bind.
  rewrite (getifnumber_some n w Hn) by (unfold INT_MAX in Hrange; lia).
  rewrite (getifrow_from_none (Z.to_nat n) 1 n); try lia; auto.
  rewrite logged_logged.
  replace (Z.to_nat (n + 1 - 1)) with (Z.to_nat n) by lia.
  reflexivity.
Qed.

End Lookup.

(** ** The command line *)

Lemma arguments_ok (prog outfile digits inter : string) (w : world) :
  digits_only digits = true ->
  arguments [prog; outfile; digits; inter] w
  = (w, Ret (outfile, int32 (strtol digits), inter)).
Proof.
  intros H. unfold arguments. cbn [List.length Nat.eqb negb nth].
  rewrite H. reflexivity.
Qed.

Lemma usage_exits (A : Type) (binname : string) (w : world) :
  @usage A binname w
  = ({| stderr := (stderr w ++ usage_text binname)%list; calls := calls w |},
     Exit 1).
Proof. reflexivity. Qed.

Lemma digits_only_false (s : string) :
  (exists c, In c (list_ascii_of_string s) /\ isdigit c = false) ->
  digits_only s = false.
Proof.
  induction s as [|a s IH]; intros [c [Hin Hc]].
  - destruct Hin.
  - cbn [digits_only]. destruct (isdigit a) eqn:Ha; [|reflexivity].
    apply IH. destruct Hin as [->|Hin]; [congruence|]. exists c. auto.
Qed.

Lemma arguments_usage (argv : list string) (w : world) :
  List.length argv <> 4%nat \/ digits_only (nth 2 argv "") = false ->
  arguments argv w
  = ({| stderr := (stderr w ++ usage_text (nth 0 argv "(null)"))%list;
        calls := calls w |}, Exit 1).
Proof.
  intros H. unfold arguments.
  destruct (Nat.eqb_spec (List.length argv) 4) as [Hlen|Hlen]; cbn [negb].
  - destruct H as [H|H]; [contradiction|]. rewrite H. apply usage_exits.
  - apply usage_exits.
Qed.

(** C7. When the number of arguments is not three (so [argc] is not 4),
    or the interval argument holds a character that is not a digit, [main]
    prints the four lines of the usage message on the error stream, the
    first one naming the program as it was called, and exits with status
    1, and it has then made no call to the system at all: no sysctl, no
    handler, no file. *)
Theorem bad_arguments_usage_exit_1 :
  forall (sys : os) (argv : list string) (prior : option string)
         (stack : timeval) (es : list event),
    List.length argv <> 4%nat
    \/ (exists c, In c (list_ascii_of_string (nth 2 argv ""))
                  /\ isdigit c = false) ->
    main sys argv prior stack es
    = ({| stderr :=
            ["Usage: " ++ nth 0 argv "(null)" ++ " outfile interval interface
";
             "  - outfile: File to write data to.
";
             "  - intervall: Intervall of data retrival in seconds.
";
             "  - interface: Network interface to retrive data from.
"];
          calls := [] |}, Exit 1).
Proof.
  intros sys argv prior stack es H.
  unfold main, startup, bind.
  rewrite arguments_usage.
  - reflexivity.
  - destruct H as [H|H]; [left; exact H|right; apply digits_only_false; exact H].
Qed.

Lemma bad_arguments_usage_exit_1_witness :
  main {| ifcount := Some 1; ifmd_name := fun _ => Some "em0";
          fopen_ok := fun _ => true; strerror := "";
          localtime := fun _ => {| tm_sec := 0; tm_min := 0; tm_hour := 0;
                                   tm_mday := 1; tm_mon := 0; tm_year := 70 |} |}
       ["ifstat"; "out.csv"; "abc"; "em0"] None
       {| tv_sec := 0; tv_usec := 0 |} []
  = ({| stderr :=
          ["Usage: ifstat outfile interval interface
";
           "  - outfile: File to write data to.
";
           "  - intervall: Intervall of data retrival in seconds.
";
           "  - interface: Network interface to retrive data from.
"];
        calls := [] |}, Exit 1).
Proof.
  apply (bad_arguments_usage_exit_1 _ ["ifstat"; "out.csv"; "abc"; "em0"]).
  right. exists "a"%char. split; [simpl; auto | reflexivity].
Defined.

(** ** Interface lookup and [main] *)

(** C6. With [n] interfaces reported by the count query: when row [k]
    is the first of the rows 1 to [n] whose name equals the target (the
    rows before it answer with other names), [getifrow] returns [k], having
    queried the count and then the rows 1 to [k] in this order; when every
    row 1 to [n] answers with another name it returns -1, and [main] then
    prints its complaint and exits with status 1 without having opened the
    output file. *)
Theorem first_matching_row_or_exit_1 :
  forall (sys : os) (ifname : string) (n : Z),
    ifcount sys = Some n -> 0 <= n < INT_MAX ->
    (forall (k : Z) (w : world),
        1 <= k <= n ->
        ifmd_name sys k = Some ifname ->
        (forall j, 1 <= j < k -> other_name sys ifname j) ->
        getifrow sys ifname w
        = (logged w (Sysctl_ifcount
                       :: map Sysctl_ifdata (zrange 1 (Z.to_nat k))), Ret k))
    /\ ((forall j, 1 <= j <= n -> other_name sys ifname j) ->
        (forall w : world,
            getifrow sys ifname w
            = (logged w (Sysctl_ifcount
                           :: map Sysctl_ifdata (zrange 1 (Z.to_nat n))),
               Ret (-1)))
        /\ (forall (prog outfile digits : string) (prior : option string)
                   (stack : timeval) (es : list event),
               digits_only digits = true ->
               exists w : world,
                 main sys [prog; outfile; digits; ifname] prior stack es
                 = (w, Exit 1)
                 /\ stderr w
                    = [error_line sys "main" 170 (Some "Couldn't get interface")]
                 /\ forallb (fun c => negb (is_fopen c)) (calls w) = true)).
Proof.
  intros sys ifname n Hn Hrange. split.
  - intros k w Hk Hname Hbefore.
    apply (getifrow_found sys ifname n k w); auto. lia.
  - intros Hall. split.
    + intros w. apply (getifrow_none sys ifname n w); auto.
    + intros prog outfile digits prior stack es Hdigits.
      unfold main, startup. unfold bind at 1.
      rewrite arguments_ok by exact Hdigits.
      unfold bind at 1.
      rewrite (getifrow_none sys ifname n nothing_yet) by auto.
      cbn.
      eexists. split; [reflexivity|]. split; [reflexivity|].
      cbn. clear. generalize 1 at 1. 
      induction (Z.to_nat n) as [|m IH]; intros i; [reflexivity|].
      cbn. apply IH.
Qed.

Lemma demo_other_name (ifname : string) (k : Z) :
  (forall j, 1 <= j < k -> j = 1 \/ j = 2 \/ j = 3) ->
  ifname <> "lo0" -> ifname <> "em0" \/ k <= 2 -> ifname <> "em1" \/ k <= 3 ->
  forall j, 1 <= j < k -> other_name demo_os ifname j.
Proof.
  intros Hk H1 H2 H3 j Hj. unfold other_name.
  destruct (Hk j Hj) as [-> | [-> | ->]].
  - exists "lo0". split; [reflexivity|congruence].
  - exists "em0". split; [reflexivity|]. destruct H2; [congruence|lia].
  - exists "em1". split; [reflexivity|]. destruct H3; [congruence|lia].
Qed.

Lemma first_matching_row_or_exit_1_witness :
  getifrow demo_os "em0" nothing_yet
  = (logged nothing_yet [Sysctl_ifcount; Sysctl_ifdata 1; Sysctl_ifdata 2],
     Ret 2)
  /\ exists w : world,
      main demo_os ["ifstat"; "out.csv"; "1"; "wlan0"] None (at_time 0 0) []
      = (w, Exit 1)
      /\ stderr w
         = [error_line demo_os "main" 170 (Some "Couldn't get interface")]
      /\ forallb (fun c => negb (is_fopen c)) (calls w) = true.
Proof.
  split.
  - apply (proj1 (first_matching_row_or_exit_1 demo_os "em0" 3 eq_refl
                    ltac:(unfold INT_MAX; lia)) 2 nothing_yet).
    + lia.
    + reflexivity.
    + apply demo_other_name; [lia | discriminate | right; lia | right; lia].
  - assert (Hall : forall j, 1 <= j <= 3 -> other_name demo_os "wlan0" j).
    { intros j Hj.
      apply (demo_other_name "wlan0" 4);
        [lia | discriminate | left; discriminate | left; discriminate | lia]. }
    exact (proj2 (proj2 (first_matching_row_or_exit_1 demo_os "wlan0" 3 eq_refl
                    ltac:(unfold INT_MAX; lia)) Hall)
             "ifstat" "out.csv" "1" None (at_time 0 0) [] eq_refl).
Defined.

(** ** The loop: what stays and what grows *)

Lemma step_interval (sys : os) (p : process) (e : event) :
  interval (step sys p e) = interval p.
Proof.
  destruct e as [a|]; cbn [step].
  - destruct (pc p); try reflexivity.
    + unfold sample. destruct (reading a); [|reflexivity].
      destruct (iteration (vars p) i (now a)) as [[[ci co] v]|];
        [|reflexivity].
      destruct (strftime (localtime sys (tv_sec (now a)))); reflexivity.
    + unfold check. destruct (quit p); reflexivity.
    + unfold enter_sleep. destruct (usleep_arg (interval p)); reflexivity.
  - unfold deliver. destruct (pc p); reflexivity.
Qed.

Lemma run_interval (sys : os) (es : list event) :
  forall p, interval (run sys p es) = interval p.
Proof.
  induction es as [|e es IH]; intros p; [reflexivity|].
  cbn [run fold_left]. fold (run sys (step sys p e) es).
  rewrite IH. apply step_interval.
Qed.

(** Every [usleep] is called with the same argument, computed from
    [interval] alone. *)
Lemma step_naps (sys : os) (p : process) (e : event) (us : Z) :
  usleep_arg (interval p) = Some us ->
  Forall (eq us) (naps p) -> Forall (eq us) (naps (step sys p e)).
Proof.
  intros Hus H. destruct e as [a|]; cbn [step].
  - destruct (pc p); try exact H.
    + unfold sample. destruct (reading a); [|exact H].
      destruct (iteration (vars p) i (now a)) as [[[ci co] v]|]; [|exact H].
      destruct (strftime (localtime sys (tv_sec (now a)))); exact H.
    + unfold check. destruct (quit p); exact H.
    + unfold enter_sleep. rewrite Hus. cbn [naps].
      apply Forall_app. split; [exact H|]. constructor; [reflexivity|constructor].
  - unfold deliver. destruct (pc p); exact H.
Qed.

Lemma run_naps (sys : os) (es : list event) (us : Z) :
  forall p, usleep_arg (interval p) = Some us ->
            Forall (eq us) (naps p) -> Forall (eq us) (naps (run sys p es)).
Proof.
  induction es as [|e es IH]; intros p Hus H; [exact H|].
  cbn [run fold_left]. fold (run sys (step sys p e) es).
  apply IH.
  - rewrite step_interval. exact Hus.
  - apply step_naps; assumption.
Qed.

Lemma step_naps_follow_rounds (sys : os) (p : process) (e : event) :
  naps_follow_rounds p -> naps_follow_rounds (step sys p e).
Proof.
  unfold naps_follow_rounds. intros H. destruct e as [a|]; cbn [step].
  - destruct (pc p) eqn:Hpc; try (rewrite Hpc; exact H).
    + unfold sample. destruct (reading a); [|cbn; lia].
      destruct (iteration (vars p) i (now a)) as [[[ci co] v]|]; [|cbn; lia].
      destruct (strftime (localtime sys (tv_sec (now a)))); cbn; lia.
    + unfold check. destruct (quit p); cbn; lia.
    + unfold enter_sleep. destruct (usleep_arg (interval p)); cbn; [|lia].
      rewrite List.length_app. cbn. lia.
    + cbn. exact H.
    + cbn. exact H.
  - unfold deliver. destruct (pc p) eqn:Hpc; cbn; try rewrite Hpc; exact H.
Qed.

Lemma run_naps_follow_rounds (sys : os) (es : list event) :
  forall p, naps_follow_rounds p -> naps_follow_rounds (run sys p es).
Proof.
  induction es as [|e es IH]; intros p H; [exact H|].
  cbn [run fold_left]. fold (run sys (step sys p e) es).
  apply IH. apply step_naps_follow_rounds. exact H.
Qed.

Lemma naps_follow_rounds_le (p : process) :
  naps_follow_rounds p -> (List.length (naps p) <= rounds p)%nat.
Proof. unfold naps_follow_rounds. destruct (pc p); lia. Qed.

(** What [startup] returns when it returns. *)
Lemma startup_ret (sys : os) (argv : list string) (prior : option string)
    (stack : timeval) (w : world) (p : process) :
  startup sys argv prior stack nothing_yet = (w, Ret p) ->
  pc p = AtSample /\ quit p = false /\ vars p = initial_vars stack
  /\ csv p = [header] /\ csv_open p = true /\ naps p = [] /\ rounds p = O
  /\ exists outfile inter,
       arguments argv nothing_yet
       = (nothing_yet, Ret (outfile, interval p, inter)).
Proof.
  unfold startup. unfold bind at 1.
  destruct (arguments argv nothing_yet) as [w0 [[[outfile itv] inter]| |]] eqn:Hargs;
    try discriminate.
  assert (Hw0 : w0 = nothing_yet).
  { unfold arguments in Hargs.
    destruct (negb _) in Hargs; [discriminate|].
    destruct (digits_only _) in Hargs; [|discriminate].
    inversion Hargs. reflexivity. }
  subst w0.
  unfold bind at 1.
  destruct (getifrow sys inter nothing_yet) as [w1 [r| |]]; try discriminate.
  unfold bind at 1.
  destruct (r <? 1).
  - unfold error, bind, eprint, exit. cbn. discriminate.
  - cbn -[header]. unfold fopen_w, bind, log, ret, error, eprint, exit.
    cbn -[header]. destruct (fopen_ok sys outfile); cbn -[header]; [|discriminate].
    intros H. inversion H. subst. cbn -[header].
    repeat split. exists outfile, inter. reflexivity.
Qed.


Lemma startup_enters_loop (sys : os) (prog outfile digits inter : string)
    (prior : option string) (stack : timeval) (w1 : world) (r : Z) :
  digits_only digits = true ->
  getifrow sys inter nothing_yet = (w1, Ret r) -> 1 <= r ->
  fopen_ok sys outfile = true ->
  exists (w : world) (p : process),
    startup sys [prog; outfile; digits; inter] prior stack nothing_yet
    = (w, Ret p).
Proof.
  intros Hd Hrow Hr Hopen. unfold startup. unfold bind at 1.
  rewrite arguments_ok by exact Hd.
  unfold bind at 1. rewrite Hrow.
  unfold bind at 1.
  destruct (Z.ltb_spec r 1) as [Hlt|_]; [lia|].
  cbn -[header]. unfold fopen_w, bind, log, ret. cbn -[header].
  rewrite Hopen. cbn -[header]. eexists. eexists. reflexivity.
Qed.

(** C10. The empty string as interval argument goes through the test of
    lines 157-161 (there is no character to test) and [strtol] makes 0 of
    it; no usage error is raised.  When the interface is found and the
    file can be opened the program enters the loop with [interval] 0, and
    every [usleep] it ever calls is called with 0. *)
Theorem empty_interval_is_zero :
  forall (sys : os) (prog outfile inter : string) (prior : option string)
         (stack : timeval),
    digits_only "" = true
    /\ strtol "" = 0
    /\ arguments [prog; outfile; ""; inter] nothing_yet
       = (nothing_yet, Ret (outfile, 0, inter))
    /\ usleep_arg 0 = Some 0
    /\ (forall (w1 : world) (r : Z),
           getifrow sys inter nothing_yet = (w1, Ret r) -> 1 <= r ->
           fopen_ok sys outfile = true ->
           exists (w : world) (p : process),
             startup sys [prog; outfile; ""; inter] prior stack nothing_yet
             = (w, Ret p)
             /\ pc p = AtSample /\ interval p = 0
             /\ forall es, Forall (eq 0) (naps (run sys p es))).
Proof.
  intros sys prog outfile inter prior stack.
  split; [reflexivity|]. split; [reflexivity|]. split; [reflexivity|].
  split; [reflexivity|].
  intros w1 r Hrow Hr Hopen.
  destruct (startup_enters_loop sys prog outfile "" inter prior stack w1 r
              eq_refl Hrow Hr Hopen) as [w [p Hp]].
  exists w, p. split; [exact Hp|].
  destruct (startup_ret _ _ _ _ _ _ Hp)
    as [Hpc [_ [_ [_ [_ [Hnaps [_ [o [i Hargs]]]]]]]]].
  assert (Hi : interval p = 0).
  { rewrite arguments_ok in Hargs by reflexivity. inversion Hargs. reflexivity. }
  split; [exact Hpc|]. split; [exact Hi|].
  intros es. apply run_naps.
  - rewrite Hi. reflexivity.
  - rewrite Hnaps. constructor.
Qed.

Lemma empty_interval_is_zero_witness :
  exists (w : world) (p : process),
    startup demo_os ["ifstat"; "out.csv"; ""; "em0"] None (at_time 0 0)
            nothing_yet = (w, Ret p)
    /\ pc p = AtSample /\ interval p = 0
    /\ forall es, Forall (eq 0) (naps (run demo_os p es)).
Proof.
  apply (proj2 (proj2 (proj2 (proj2
           (empty_interval_is_zero demo_os "ifstat" "out.csv" "em0" None
              (at_time 0 0)))))
           (logged nothing_yet
              [Sysctl_ifcount; Sysctl_ifdata 1; Sysctl_ifdata 2]) 2).
  - vm_compute. reflexivity.
  - lia.
  - reflexivity.
Defined.

(** ** Signals *)



Lemma enter_sleep_some (p : process) (us : Z) :
  usleep_arg (interval p) = Some us ->
  enter_sleep p
  = {| pc := Sleeping; quit := quit p; interval := interval p; row := row p;
       vars := vars p; csv := csv p; csv_open := csv_open p;
       naps := (naps p ++ [us])%list; rounds := rounds p; errors := errors p |}.
Proof. intros H. unfold enter_sleep. rewrite H. reflexivity. Qed.

Lemma run_cons (sys : os) (p : process) (e : event) (es : list event) :
  run sys p (e :: es) = run sys (step sys p e) es.
Proof. reflexivity. Qed.

Lemma step_sample (sys : os) (p : process) (a : answer) :
  pc p = AtSample -> step sys p (Tick a) = sample sys p a.
Proof. intros H. cbn [step]. rewrite H. reflexivity. Qed.

Lemma step_check (sys : os) (p : process) (a : answer) :
  pc p = AtCheck -> step sys p (Tick a) = check p.
Proof. intros H. cbn [step]. rewrite H. reflexivity. Qed.

Lemma step_sleep (sys : os) (p : process) (a : answer) :
  pc p = AtSleep -> step sys p (Tick a) = enter_sleep p.
Proof. intros H. cbn [step]. rewrite H. reflexivity. Qed.

Lemma step_wake (sys : os) (p : process) (a : answer) :
  pc p = Sleeping -> step sys p (Tick a) = at_point p AtSample.
Proof. intros H. cbn [step]. rewrite H. reflexivity. Qed.


Lemma step_stopped (sys : os) (p : process) (e : event) (s : Z) :
  pc p = Stopped s -> step sys p e = p.
Proof. intros H. destruct e; cbn [step]; [|unfold deliver]; rewrite H; reflexivity. Qed.








(** ** The sleep *)

(** X10. The first [usleep] comes after the first record: in every run of
    [main] the calls of [usleep] made so far are at most as many as the
    passes completed so far. *)
Theorem record_before_every_sleep :
  forall (sys : os) (argv : list string) (prior : option string)
         (stack : timeval) (es : list event) (w : world) (p : process),
    main sys argv prior stack es = (w, Ret p) ->
    (List.length (naps p) <= rounds p)%nat.
Proof.
  intros sys argv prior stack es w p H. unfold main in H.
  destruct (startup sys argv prior stack nothing_yet) as [w0 [p0| |]] eqn:Hs;
    try discriminate.
  inversion H; subst. clear H.
  apply naps_follow_rounds_le. apply run_naps_follow_rounds.
  destruct (startup_ret _ _ _ _ _ _ Hs) as [Hpc [_ [_ [_ [_ [Hn [Hr _]]]]]]].
  unfold naps_follow_rounds. rewrite Hpc, Hn, Hr. reflexivity.
Qed.

Lemma usleep_arg_small (n : Z) :
  0 <= n <= 2147 -> usleep_arg n = Some (n * 1000000).
Proof.
  intros H. unfold usleep_arg. cbv zeta.
  replace ((INT_MIN <=? n * 1000) && (n * 1000 <=? INT_MAX)
           && (INT_MIN <=? n * 1000 * 1000) && (n * 1000 * 1000 <=? INT_MAX))
    with true.
  - rewrite uint32_small by lia. apply f_equal. ring.
  - symmetry. unfold INT_MIN, INT_MAX. rewrite !andb_true_iff.
    repeat split; apply Z.leb_le; lia.
Qed.

(** X9. For an interval of at most 2147 seconds every [usleep] is called
    with the interval in microseconds, whatever time the passes took. *)
Theorem every_sleep_is_the_interval :
  forall (sys : os) (argv : list string) (prior : option string)
         (stack : timeval) (es : list event) (w : world) (p : process),
    main sys argv prior stack es = (w, Ret p) ->
    0 <= interval p <= 2147 ->
    Forall (eq (interval p * 1000000)) (naps p).
Proof.
  intros sys argv prior stack es w p H Hi. unfold main in H.
  destruct (startup sys argv prior stack nothing_yet) as [w0 [p0| |]] eqn:Hs;
    try discriminate.
  inversion H; subst. clear H.
  rewrite run_interval in *.
  apply run_naps.
  - apply usleep_arg_small. exact Hi.
  - destruct (startup_ret _ _ _ _ _ _ Hs) as [_ [_ [_ [_ [_ [Hn _]]]]]].
    rewrite Hn. constructor.
Qed.

(** C8 (evaluation at the failing input).  With the interval argument
    ["5000"] the first pass completes and its record is written, but the
    argument of the first [usleep], [5000 * 1000 * 1000], does not fit an
    [int]: the product is not defined, and reduced modulo 2^32 it would
    ask for 705032704 microseconds, about 705 seconds instead of 5000.  *)
Theorem sleep_of_5000_seconds_overflows :
  exists (w : world) (p : process),
    main demo_os ["ifstat"; "out.csv"; "5000"; "em0"] None (at_time 0 0)
         (ticks [first_answer; first_answer; first_answer]) = (w, Ret p)
    /\ interval p = 5000 /\ rounds p = 1%nat /\ naps p = []
    /\ pc p = Undefined
    /\ usleep_arg 5000 = None
    /\ 5000 * 1000 * 1000 > INT_MAX
    /\ uint32 (5000 * 1000 * 1000) = 705032704.
Proof.
  eexists. eexists. split; [vm_compute; reflexivity|].
  repeat split; vm_compute; reflexivity.
Qed.

(** ** The CSV file *)

Lemma little_normal_D0 (d : Decimal.uint) :
  little_normal (Decimal.D0 d) = true <->
  d <> Decimal.Nil /\ little_normal d = true.
Proof.
  destruct d; cbn; split; try (intros [H1 H2]); try intros H;
    try discriminate; try (split; [discriminate|assumption]); try assumption.
  exfalso. apply H1. reflexivity.
Qed.

Lemma little_double_normal (d : Decimal.uint) :
  little_normal d = true ->
  little_normal (Decimal.Little.double d) = true
  /\ (d <> Decimal.Nil -> Decimal.Little.double d <> Decimal.Nil)
  /\ little_normal (Decimal.Little.succ_double d) = true
  /\ Decimal.Little.succ_double d <> Decimal.Nil.
Proof.
  induction d as [|d IH|d IH|d IH|d IH|d IH|d IH|d IH|d IH|d IH|d IH];
    intros H.
  - cbn. repeat split; congruence.
  - apply little_normal_D0 in H. destruct H as [Hn H].
    destruct (IH H) as [A [B [C D]]].
    cbn [Decimal.Little.double Decimal.Little.succ_double].
    split; [apply little_normal_D0; auto|].
    split; [discriminate|]. split; [exact A|discriminate].
  - cbn in H. destruct (IH H) as [A [B [C D]]].
    cbn [Decimal.Little.double Decimal.Little.succ_double].
    split; [exact A|]. split; [discriminate|]. split; [exact A|discriminate].
  - cbn in H. destruct (IH H) as [A [B [C D]]].
    cbn [Decimal.Little.double Decimal.Little.succ_double].
    split; [exact A|]. split; [discriminate|]. split; [exact A|discriminate].
  - cbn in H. destruct (IH H) as [A [B [C D]]].
    cbn [Decimal.Little.double Decimal.Little.succ_double].
    split; [exact A|]. split; [discriminate|]. split; [exact A|discriminate].
  - cbn in H. destruct (IH H) as [A [B [C D]]].
    cbn [Decimal.Little.double Decimal.Little.succ_double].
    split; [exact A|]. split; [discriminate|]. split; [exact A|discriminate].
  - cbn in H. destruct (IH H) as [A [B [C D]]].
    cbn [Decimal.Little.double Decimal.Little.succ_double].
    split; [apply little_normal_D0; auto|].
    split; [discriminate|]. split; [exact C|discriminate].
  - cbn in H. destruct (IH H) as [A [B [C D]]].
    cbn [Decimal.Little.double Decimal.Little.succ_double].
    split; [exact C|]. split; [discriminate|]. split; [exact C|discriminate].
  - cbn in H. destruct (IH H) as [A [B [C D]]].
    cbn [Decimal.Little.double Decimal.Little.succ_double].
    split; [exact C|]. split; [discriminate|]. split; [exact C|discriminate].
  - cbn in H. destruct (IH H) as [A [B [C D]]].
    cbn [Decimal.Little.double Decimal.Little.succ_double].
    split; [exact C|]. split; [discriminate|]. split; [exact C|discriminate].
  - cbn in H. destruct (IH H) as [A [B [C D]]].
    cbn [Decimal.Little.double Decimal.Little.succ_double].
    split; [exact C|]. split; [discriminate|]. split; [exact C|discriminate].
Qed.

Lemma to_little_uint_normal (p : positive) :
  little_normal (Pos.to_little_uint p) = true
  /\ Pos.to_little_uint p <> Decimal.Nil.
Proof.
  induction p as [p [IH1 IH2]|p [IH1 IH2]|]; cbn [Pos.to_little_uint].
  - destruct (little_double_normal _ IH1) as [A [B [C D]]]. auto.
  - destruct (little_double_normal _ IH1) as [A [B [C D]]]. auto.
  - split; [reflexivity|discriminate].
Qed.

Lemma of_lu_lower_bound (d : Decimal.uint) :
  little_normal d = true -> d <> Decimal.Nil ->
  10 ^ (Z.of_nat (Decimal.nb_digits d) - 1) <= Z.of_N (Unsigned.of_lu d).
Proof.
  induction d as [|d IH|d IH|d IH|d IH|d IH|d IH|d IH|d IH|d IH|d IH];
    intros H Hn; [congruence| ..];
    try (apply little_normal_D0 in H; destruct H as [Hd H]);
    cbn [little_normal] in H;
    cbn [Decimal.nb_digits Unsigned.of_lu];
    (destruct (Decimal.uint_eq_dec d Decimal.Nil) as [->|Hd'];
     [ cbn; try lia; try congruence
     | specialize (IH H Hd');
       replace (Z.of_nat (S (Decimal.nb_digits d)) - 1)
         with (Z.succ (Z.of_nat (Decimal.nb_digits d) - 1)) by lia;
       rewrite Z.pow_succ_r
         by (destruct d; cbn [Decimal.nb_digits]; try congruence; lia);
       lia ]).
Qed.

Lemma string_of_uint_length (d : Decimal.uint) :
  String.length (NilEmpty.string_of_uint d) = Decimal.nb_digits d.
Proof. induction d; cbn; congruence. Qed.

Lemma to_uint_digits (p : positive) :
  Z.pos p < 10 ^ 10 -> (Decimal.nb_digits (Pos.to_uint p) <= 10)%nat.
Proof.
  intros Hp. unfold Pos.to_uint. rewrite nb_digits_rev.
  destruct (to_little_uint_normal p) as [Hn Hnil].
  pose proof (of_lu_lower_bound _ Hn Hnil) as Hb.
  assert (Hv : Unsigned.of_lu (Pos.to_little_uint p) = N.pos p).
  { rewrite <- Unsigned.of_lu_rev. apply Unsigned.of_to. }
  rewrite Hv in Hb. cbn [Z.of_N] in Hb.
  destruct (le_lt_dec (Decimal.nb_digits (Pos.to_little_uint p)) 10) as [|Hgt];
    [assumption|].
  exfalso.
  assert (10 ^ 10 <= 10 ^ (Z.of_nat (Decimal.nb_digits (Pos.to_little_uint p)) - 1)).
  { apply Z.pow_le_mono_r; lia. }
  lia.
Qed.

Lemma to_uint_not_nil (p : positive) : Pos.to_uint p <> Decimal.Nil.
Proof. apply Unsigned.to_uint_nonnil. Qed.

Lemma show_int_length (z : Z) :
  - 10 ^ 10 < z < 10 ^ 10 -> (String.length (show_int z) <= 11)%nat.
Proof.
  intros Hz. unfold show_int. destruct z as [|p|p]; cbn [Z.to_int].
  - cbn. lia.
  - cbn [NilZero.string_of_int]. unfold NilZero.string_of_uint.
    pose proof (to_uint_not_nil p) as Hn.
    pose proof (to_uint_digits p ltac:(lia)) as Hd.
    destruct (Pos.to_uint p) eqn:E; try congruence;
      rewrite string_of_uint_length; lia.
  - cbn [NilZero.string_of_int]. unfold NilZero.string_of_uint.
    pose proof (to_uint_not_nil p) as Hn.
    pose proof (to_uint_digits p ltac:(lia)) as Hd.
    cbn [String.length].
    destruct (Pos.to_uint p) eqn:E; try congruence;
      rewrite string_of_uint_length; lia.
Qed.

Lemma int32_range (z : Z) : - 2 ^ 31 <= int32 z < 2 ^ 31.
Proof.
  unfold int32. pose proof (uint32_range z).
  destruct (Z.ltb_spec (uint32 z) (2 ^ 31)); lia.
Qed.

Lemma read_show_int (z : Z) : read_int (show_int z) = Some z.
Proof.
  unfold read_int, show_int.
  rewrite NilZero.isi.
  - cbn. rewrite DecimalZ.of_to. reflexivity.
  - destruct z; cbn; try discriminate.
    intros H. inversion H. eapply to_uint_not_nil; eauto.
  - destruct z; cbn; try discriminate.
    intros H. inversion H. eapply to_uint_not_nil; eauto.
Qed.

Lemma all_chars_app (f : ascii -> bool) (a b : string) :
  all_chars f (a ++ b) = all_chars f a && all_chars f b.
Proof.
  induction a as [|c a IH]; cbn; [reflexivity|].
  rewrite IH. apply andb_assoc.
Qed.

Lemma all_chars_weaken (f g : ascii -> bool) (s : string) :
  (forall c, f c = true -> g c = true) ->
  all_chars f s = true -> all_chars g s = true.
Proof.
  intros Hfg. induction s as [|c s IH]; cbn; [reflexivity|].
  rewrite !andb_true_iff. intros [H1 H2]. auto.
Qed.

Lemma string_of_uint_chars (d : Decimal.uint) :
  all_chars isdigit (NilEmpty.string_of_uint d) = true.
Proof. induction d; cbn; auto. Qed.

Lemma show_int_chars (z : Z) : all_chars int_char (show_int z) = true.
Proof.
  assert (H : forall d, all_chars int_char (NilZero.string_of_uint d) = true).
  { intros d. unfold NilZero.string_of_uint.
    destruct d; try reflexivity;
      (eapply all_chars_weaken; [|apply string_of_uint_chars]);
      intros c Hc; unfold int_char; rewrite Hc; reflexivity. }
  unfold show_int. destruct (Z.to_int z); cbn [NilZero.string_of_int].
  - apply H.
  - cbn [all_chars]. rewrite H. reflexivity.
Qed.

Lemma int_char_stamp_char (c : ascii) : int_char c = true -> stamp_char c = true.
Proof. intros H. unfold stamp_char. rewrite H. reflexivity. Qed.

Lemma int_char_not (sep : ascii) (c : ascii) :
  int_char sep = false -> int_char c = true -> negb (Ascii.eqb c sep) = true.
Proof.
  intros Hs Hc. destruct (Ascii.eqb_spec c sep) as [->|]; [congruence|reflexivity].
Qed.

Lemma stamp_char_not (sep : ascii) (c : ascii) :
  stamp_char sep = false -> stamp_char c = true -> negb (Ascii.eqb c sep) = true.
Proof.
  intros Hs Hc. destruct (Ascii.eqb_spec c sep) as [->|]; [congruence|reflexivity].
Qed.

Lemma pad2_chars (n : Z) : all_chars int_char (pad2 n) = true.
Proof.
  unfold pad2. destruct ((0 <=? n) && (n <? 10)).
  - cbn [append all_chars]. rewrite show_int_chars. reflexivity.
  - apply show_int_chars.
Qed.

Lemma strftime_text_chars (t : tm) : all_chars stamp_char (strftime_text t) = true.
Proof.
  unfold strftime_text. cbv zeta.
  repeat (rewrite all_chars_app; apply andb_true_iff; split);
    try reflexivity;
    (eapply all_chars_weaken; [apply int_char_stamp_char|apply pad2_chars]).
Qed.

Lemma split_at_app (sep : ascii) (a b : string) :
  free_of sep a = true ->
  split_at sep (a ++ String sep b) = Some (a, b).
Proof.
  unfold free_of. induction a as [|c a IH]; cbn [append all_chars split_at].
  - intros _. rewrite Ascii.eqb_refl. reflexivity.
  - rewrite andb_true_iff. intros [Hc Ha].
    destruct (Ascii.eqb c sep); [discriminate|]. rewrite (IH Ha). reflexivity.
Qed.

Lemma length_append (a b : string) :
  String.length (a ++ b) = (String.length a + String.length b)%nat.
Proof. induction a as [|c a IH]; cbn; [reflexivity|]. rewrite IH. reflexivity. Qed.

Lemma substring_all (s : string) (n : nat) :
  (String.length s <= n)%nat -> substring 0 n s = s.
Proof.
  revert n. induction s as [|c s IH]; intros n H.
  - destruct n; reflexivity.
  - destruct n; cbn in H; [lia|]. cbn. rewrite IH by lia. reflexivity.
Qed.

Lemma data_line_text (t : string) (i o : Z) :
  (String.length t < 64)%nat ->
  data_line t i o = record_text t (int32 i) (int32 o).
Proof.
  intros Ht. unfold data_line, truncate, record_text.
  apply substring_all.
  pose proof (show_int_length (int32 i)) as Hi.
  pose proof (show_int_length (int32 o)) as Ho.
  pose proof (int32_range i). pose proof (int32_range o).
  rewrite !length_append. cbn [String.length].
  specialize (Hi ltac:(lia)). specialize (Ho ltac:(lia)). lia.
Qed.

Lemma parse_record_text (t : string) (x y : Z) :
  all_chars stamp_char t = true ->
  parse_line (record_text t x y) = Some (t, x, y).
Proof.
  intros Ht. unfold parse_line, record_text.
  change (t ++ "," ++ show_int x ++ "," ++ show_int y ++ "
") with (t ++ String "," (show_int x ++ String "," (show_int y ++ String "010" ""))).
  rewrite split_at_app.
  2:{ eapply all_chars_weaken; [|exact Ht].
      intros c. apply stamp_char_not. reflexivity. }
  rewrite split_at_app.
  2:{ eapply all_chars_weaken; [|apply show_int_chars].
      intros c. apply int_char_not. reflexivity. }
  rewrite split_at_app.
  2:{ eapply all_chars_weaken; [|apply show_int_chars].
      intros c. apply int_char_not. reflexivity. }
  rewrite !read_show_int. reflexivity.
Qed.

Lemma in_zrange (n i : Z) (len : nat) :
  i <= n < i + Z.of_nat len -> In n (zrange i len).
Proof.
  revert i. induction len as [|len IH]; intros i H; [lia|].
  cbn [zrange]. destruct (Z.eq_dec i n) as [->|Hne]; [left; reflexivity|].
  right. apply IH. lia.
Qed.

Lemma pad2_two_digits (n : Z) :
  0 <= n <= 99 ->
  exists a b, pad2 n = String a (String b EmptyString)
              /\ isdigit a = true /\ isdigit b = true.
Proof.
  intros Hn.
  assert (Hall : forallb (fun k => two_digits (pad2 k)) (zrange 0 100) = true)
    by (vm_compute; reflexivity).
  rewrite forallb_forall in Hall.
  specialize (Hall n (in_zrange n 0 100 ltac:(lia))).
  unfold two_digits in Hall.
  destruct (pad2 n) as [|a [|b [|c r]]]; try discriminate.
  apply andb_true_iff in Hall. exists a, b. tauto.
Qed.

Lemma strftime_text_shape (t : tm) :
  tm_in_range t = true -> is_timestamp (strftime_text t) = true.
Proof.
  unfold tm_in_range. rewrite !andb_true_iff, !Z.leb_le.
  intros [[[[[[[[[[[H1 H2] H3] H4] H5] H6] H7] H8] H9] H10] H11] H12].
  unfold strftime_text. cbv zeta.
  assert (Hy : 0 <= tm_year t + 1900 <= 9999) by lia.
  destruct (pad2_two_digits ((tm_year t + 1900) / 100)) as [a1 [b1 [-> [? ?]]]].
  { split; [apply Z.div_pos; lia|].
    apply Z.lt_succ_r. apply Z.div_lt_upper_bound; lia. }
  destruct (pad2_two_digits ((tm_year t + 1900) mod 100)) as [a2 [b2 [-> [? ?]]]].
  { pose proof (Z.mod_pos_bound (tm_year t + 1900) 100). lia. }
  destruct (pad2_two_digits (tm_mon t + 1)) as [a3 [b3 [-> [? ?]]]]; [lia|].
  destruct (pad2_two_digits (tm_mday t)) as [a4 [b4 [-> [? ?]]]]; [lia|].
  destruct (pad2_two_digits (tm_hour t)) as [a5 [b5 [-> [? ?]]]]; [lia|].
  destruct (pad2_two_digits (tm_min t)) as [a6 [b6 [-> [? ?]]]]; [lia|].
  destruct (pad2_two_digits (tm_sec t)) as [a7 [b7 [-> [? ?]]]]; [lia|].
  cbn [append is_timestamp list_ascii_of_string forallb].
  repeat match goal with H : isdigit _ = true |- _ => rewrite H; clear H end.
  reflexivity.
Qed.

Lemma strftime_some (t : tm) (s : string) :
  strftime t = Some s -> s = strftime_text t /\ (String.length s < 64)%nat.
Proof.
  unfold strftime.
  destruct (Nat.ltb_spec (String.length (strftime_text t)) 64) as [Hlt|_];
    [|discriminate].
  intros Heq. inversion Heq. subst. auto.
Qed.




Lemma normalize_range (cur : Z) (tv : timeval) (r : Z) :
  normalize cur tv = Some r -> 0 <= r < 2 ^ 32.
Proof.
  unfold normalize, Double.to_uint32.
  destruct (Double.integral_part _) as [z|]; [|discriminate].
  destruct (Z.leb_spec 0 z) as [Hlo|Hlo];
    destruct (Z.ltb_spec z (2 ^ 32)) as [Hhi|Hhi];
    cbn [andb]; try discriminate.
  intros Heq. inversion Heq. subst. lia.
Qed.

Lemma int32_small (z : Z) : 0 <= z < 2 ^ 31 -> int32 z = z.
Proof.
  intros H. unfold int32. rewrite uint32_small by lia.
  destruct (Z.ltb_spec z (2 ^ 31)) as [Hlt|Hge]; lia.
Qed.


Example csv_of_two_passes :
  exists (w : world) (p : process),
    main demo_os demo_argv (Some "old content") (at_time 0 0)
         (ticks [first_answer; first_answer; first_answer]
            ++ [Signal; Tick second_answer; Tick second_answer;
                Tick second_answer]) = (w, Ret p)
    /\ pc p = Stopped 0
    /\ csv p = [header; "2023.11.14 22:13:20,0,0
"; "2023.11.14 22:13:21,100,300
"].
Proof.
  eexists. eexists. split; [vm_compute; reflexivity|].
  split; vm_compute; reflexivity.
Qed.

(** ** Rounding to binary64, on the integers *)

Lemma digits2_pos_bounds (m : positive) :
  2 ^ (Z.pos (digits2_pos m) - 1) <= Z.pos m < 2 ^ Z.pos (digits2_pos m).
Proof.
  induction m as [m IH|m IH|]; cbn [digits2_pos].
  - rewrite Pos2Z.inj_succ, (Pos2Z.inj_xI m).
    replace (Z.succ (Z.pos (digits2_pos m)) - 1)
      with (Z.succ (Z.pos (digits2_pos m) - 1)) by lia.
    rewrite !Z.pow_succ_r by lia.
    destruct IH as [IH1 IH2]. revert IH1 IH2.
    generalize (2 ^ (Z.pos (digits2_pos m) - 1)) (2 ^ Z.pos (digits2_pos m)).
    intros; lia.
  - rewrite Pos2Z.inj_succ, (Pos2Z.inj_xO m).
    replace (Z.succ (Z.pos (digits2_pos m)) - 1)
      with (Z.succ (Z.pos (digits2_pos m) - 1)) by lia.
    rewrite !Z.pow_succ_r by lia.
    destruct IH as [IH1 IH2]. revert IH1 IH2.
    generalize (2 ^ (Z.pos (digits2_pos m) - 1)) (2 ^ Z.pos (digits2_pos m)).
    intros; lia.
  - cbn. lia.
Qed.

Lemma shr_1_m (mrs : shr_record) :
  0 <= shr_m mrs -> shr_m (shr_1 mrs) = shr_m mrs / 2 /\ 0 <= shr_m (shr_1 mrs).
Proof.
  destruct mrs as [m r s]. cbn [shr_m]. intros Hm.
  destruct m as [|p|p]; [| |lia].
  - cbn. split; [reflexivity|lia].
  - destruct p as [p|p|]; cbn [shr_1 shr_m].
    + split; [|lia]. rewrite (Pos2Z.inj_xI p).
      apply Z.div_unique with (r := 1); lia.
    + split; [|lia]. rewrite (Pos2Z.inj_xO p).
      apply Z.div_unique with (r := 0); lia.
    + split; [reflexivity|lia].
Qed.

Lemma iter_shr_1_m (p : positive) :
  forall mrs : shr_record,
    0 <= shr_m mrs ->
    shr_m (iter_pos shr_1 p mrs) = shr_m mrs / 2 ^ Z.pos p
    /\ 0 <= shr_m (iter_pos shr_1 p mrs).
Proof.
  induction p as [p IH|p IH|]; intros mrs Hm; cbn [iter_pos].
  - destruct (shr_1_m mrs Hm) as [E1 P1].
    destruct (IH _ P1) as [E2 P2]. destruct (IH _ P2) as [E3 P3].
    split; [|exact P3]. rewrite E3, E2, E1.
    rewrite !Z.div_div by (try apply Z.pow_pos_nonneg; lia).
    f_equal. rewrite (Pos2Z.inj_xI p).
    replace (2 * Z.pos p + 1) with (1 + Z.pos p + Z.pos p) by lia.
    rewrite !Z.pow_add_r by lia. rewrite Z.pow_1_r. ring.
  - destruct (IH _ Hm) as [E2 P2]. destruct (IH _ P2) as [E3 P3].
    split; [|exact P3]. rewrite E3, E2.
    rewrite !Z.div_div by (try apply Z.pow_pos_nonneg; lia).
    f_equal. rewrite (Pos2Z.inj_xO p).
    replace (2 * Z.pos p) with (Z.pos p + Z.pos p) by lia.
    rewrite !Z.pow_add_r by lia. ring.
  - destruct (shr_1_m mrs Hm) as [E1 P1]. split; [|exact P1].
    rewrite E1. rewrite Z.pow_1_r. reflexivity.
Qed.

Lemma shr_record_of_loc_m (m : Z) (l : location) :
  shr_m (shr_record_of_loc m l) = m.
Proof. destruct l as [|[| |]]; reflexivity. Qed.

(** Shifting [m] right by [n] places. *)
Lemma shr_m_shift (m e n : Z) (l : location) :
  0 <= m -> 0 <= n ->
  shr_m (fst (shr (shr_record_of_loc m l) e n)) = m / 2 ^ n
  /\ snd (shr (shr_record_of_loc m l) e n) = e + n.
Proof.
  intros Hm Hn. destruct n as [|p|p]; cbn [shr fst snd]; try lia.
  - rewrite shr_record_of_loc_m. rewrite Z.div_1_r. split; [reflexivity|lia].
  - split; [|reflexivity].
    rewrite <- (shr_record_of_loc_m m l) at 2.
    apply iter_shr_1_m. rewrite shr_record_of_loc_m. exact Hm.
Qed.

Lemma round_nearest_even_cases (m : Z) (l : location) :
  round_nearest_even m l = m \/ round_nearest_even m l = m + 1.
Proof.
  destruct l as [|[| |]]; cbn; auto. destruct (Z.even m); auto.
Qed.

Lemma Zdigits2_pos (m : positive) : Zdigits2 (Z.pos m) = Z.pos (digits2_pos m).
Proof. reflexivity. Qed.

Lemma digits_of_bounds (m : positive) (d : Z) :
  2 ^ (d - 1) <= Z.pos m < 2 ^ d -> 1 <= d -> Z.pos (digits2_pos m) = d.
Proof.
  intros [Hlo Hhi] Hd.
  destruct (digits2_pos_bounds m) as [Blo Bhi].
  set (k := Z.pos (digits2_pos m)) in *.
  assert (Hk : 1 <= k) by (subst k; lia).
  destruct (Z.lt_trichotomy k d) as [Hlt|[Heq|Hgt]]; [|exact Heq|]; exfalso.
  - assert (2 ^ k <= 2 ^ (d - 1)) by (apply Z.pow_le_mono_r; lia). lia.
  - assert (2 ^ d <= 2 ^ (k - 1)) by (apply Z.pow_le_mono_r; lia). lia.
Qed.

Lemma fexp_normal (e : Z) : -1021 <= e -> fexp 53 1024 e = e - 53.
Proof. intros H. unfold fexp, emin. lia. Qed.

(** What [shr_fexp] does to a mantissa of [d] digits, [d] at least 53:
    it drops the [d - 53] low digits. *)
Lemma shr_fexp_drop (m : positive) (e : Z) (l : location) (d : Z) :
  Z.pos (digits2_pos m) = d -> 53 <= d -> -1074 <= e ->
  exists mrs,
    shr_fexp 53 1024 (Z.pos m) e l = (mrs, e + (d - 53))
    /\ shr_m mrs = Z.pos m / 2 ^ (d - 53).
Proof.
  intros Hd H53 He. unfold shr_fexp. rewrite Zdigits2_pos, Hd.
  rewrite fexp_normal by lia.
  replace (d + e - 53 - e) with (d - 53) by lia.
  destruct (shr_m_shift (Z.pos m) e (d - 53) l ltac:(lia) ltac:(lia)) as [E1 E2].
  destruct (shr (shr_record_of_loc (Z.pos m) l) e (d - 53)) as [mrs e'].
  cbn [fst snd] in E1, E2. exists mrs. subst e'. auto.
Qed.

Lemma pow2_split (a b : Z) : 0 <= a -> 0 <= b -> 2 ^ (a + b) = 2 ^ a * 2 ^ b.
Proof. intros. apply Z.pow_add_r; assumption. Qed.

Lemma pow2_pos (a : Z) : 0 <= a -> 0 < 2 ^ a.
Proof. intros. apply Z.pow_pos_nonneg; lia. Qed.

(** The heart of every operation: [binary_round_aux] on a mantissa of at
    least 53 digits, away from underflow and overflow, returns a finite
    number with a mantissa of exactly 53 digits; between the input
    mantissa truncated to 53 digits ([lo]) and its successor at that
    position ([hi]) lie both the input, the input plus one, and the
    result. *)
Lemma binary_round_aux_bounds (sx : bool) (mx : positive) (ex : Z)
    (lx : location) :
  2 ^ 52 <= Z.pos mx -> -1074 <= ex -> ex + Z.pos (digits2_pos mx) <= 1023 ->
  exists (m' : positive) (k lo hi : Z),
    binary_round_aux 53 1024 sx (Z.pos mx) ex lx = S754_finite sx m' (ex + k)
    /\ 0 <= k /\ 2 ^ 52 <= Z.pos m' < 2 ^ 53
    /\ lo <= Z.pos mx /\ Z.pos mx + 1 <= hi /\ hi - lo <= 2 ^ k
    /\ lo <= Z.pos m' * 2 ^ k <= hi.
Proof.
  intros Hmx Hex Hover.
  destruct (digits2_pos_bounds mx) as [Dlo Dhi].
  set (d := Z.pos (digits2_pos mx)) in *.
  assert (Hd : 53 <= d).
  { destruct (Z.le_gt_cases 53 d) as [|Hlt]; [assumption|exfalso].
    assert (2 ^ d <= 2 ^ 52) by (apply Z.pow_le_mono_r; lia). lia. }
  set (n := d - 53).
  assert (Hn : 0 <= n) by (subst n; lia).
  pose proof (pow2_pos n Hn) as Hpn.
  assert (Dlo' : 2 ^ n * 2 ^ 52 <= Z.pos mx).
  { rewrite <- pow2_split by lia. replace (n + 52) with (d - 1) by (subst n; lia).
    exact Dlo. }
  assert (Dhi' : Z.pos mx < 2 ^ n * 2 ^ 53).
  { rewrite <- pow2_split by lia. replace (n + 53) with d by (subst n; lia).
    exact Dhi. }
  set (t := Z.pos mx / 2 ^ n).
  assert (Ht : 2 ^ 52 <= t < 2 ^ 53).
  { subst t. split.
    - apply Z.div_le_lower_bound; assumption.
    - apply Z.div_lt_upper_bound; assumption. }
  assert (Hlo : t * 2 ^ n <= Z.pos mx).
  { subst t. rewrite Z.mul_comm. apply Z.mul_div_le. exact Hpn. }
  assert (Hhi : Z.pos mx + 1 <= (t + 1) * 2 ^ n).
  { subst t. pose proof (Z.div_mod (Z.pos mx) (2 ^ n) ltac:(lia)) as E.
    pose proof (Z.mod_pos_bound (Z.pos mx) (2 ^ n) Hpn). 
    revert E H. generalize (Z.pos mx / 2 ^ n) (Z.pos mx mod 2 ^ n) (2 ^ n).
    intros; nia. }
  unfold binary_round_aux.
  destruct (shr_fexp_drop mx ex lx d eq_refl Hd Hex) as [mrs [E1 M1]].
  rewrite E1. fold n in E1, M1 |- *. fold t in M1.
  rewrite M1.
  pose proof (round_nearest_even_cases t (loc_of_shr_record mrs)) as Hm2.
  destruct (round_nearest_even t (loc_of_shr_record mrs)) as [|m2|m2];
    try lia.
  destruct (Z.eq_dec (Z.pos m2) (2 ^ 53)) as [Hcarry|Hnocarry].
  - (* the rounding carried into a 54th digit *)
    assert (D2 : Z.pos (digits2_pos m2) = 54).
    { apply digits_of_bounds; [|lia]. rewrite Hcarry. cbn. lia. }
    destruct (shr_fexp_drop m2 (ex + n) loc_Exact 54 D2 ltac:(lia) ltac:(lia))
      as [mrs2 [E2 M2]].
    rewrite E2. rewrite M2. rewrite Hcarry.
    change (2 ^ 53 / 2 ^ (54 - 53)) with (Z.pos 4503599627370496).
    replace (ex + n + (54 - 53) <=? 1024 - 53) with true
      by (symmetry; apply Z.leb_le; subst n d; lia).
    exists 4503599627370496%positive, (n + 1), (t * 2 ^ n), ((t + 1) * 2 ^ n).
    replace (ex + n + (54 - 53)) with (ex + (n + 1)) by lia.
    split; [reflexivity|]. split; [lia|]. split; [cbn; lia|].
    split; [exact Hlo|]. split; [exact Hhi|].
    rewrite pow2_split by lia. change (2 ^ 1) with 2.
    assert (Hn1 : t + 1 = 2 ^ 53) by lia.
    rewrite Hn1. change (Z.pos 4503599627370496) with (2 ^ 52).
    change (2 ^ 53) with (2 ^ 52 * 2). 
    revert Hpn. generalize (2 ^ n). intros; nia.
  - assert (D2 : Z.pos (digits2_pos m2) = 53).
    { apply digits_of_bounds; [|lia]. change (53 - 1) with 52. lia. }
    destruct (shr_fexp_drop m2 (ex + n) loc_Exact 53 D2 ltac:(lia) ltac:(lia))
      as [mrs2 [E2 M2]].
    rewrite E2. rewrite M2.
    change (2 ^ (53 - 53)) with 1. rewrite Z.div_1_r.
    replace (ex + n + (53 - 53) <=? 1024 - 53) with true
      by (symmetry; apply Z.leb_le; subst n d; lia).
    exists m2, n, (t * 2 ^ n), ((t + 1) * 2 ^ n).
    replace (ex + n + (53 - 53)) with (ex + n) by lia.
    split; [reflexivity|]. split; [lia|]. split; [lia|].
    split; [exact Hlo|]. split; [exact Hhi|].
    split; [lia|].
    revert Hpn. generalize (2 ^ n). intros; destruct Hm2 as [Hm2 | Hm2]; rewrite Hm2; nia.
Qed.

(** ** Rounding to binary64, against the real numbers *)

Section Reals_of_doubles.

Local Open Scope R_scope.

Lemma bpow_pos (e : Z) : 0 < bpow e.
Proof. unfold bpow. apply powerRZ_lt. lra. Qed.

Lemma bpow_add (a b : Z) : bpow (a + b) = bpow a * bpow b.
Proof. unfold bpow. apply powerRZ_add. lra. Qed.

Lemma bpow_IZR (k : Z) : (0 <= k)%Z -> IZR (2 ^ k) = bpow k.
Proof.
  intros Hk. unfold bpow. rewrite <- (Z2Nat.id k Hk) at 1 2.
  rewrite <- pow_IZR. rewrite pow_powerRZ. reflexivity.
Qed.

Lemma bpow_opp (k : Z) : bpow (- k) = / bpow k.
Proof. unfold bpow. apply powerRZ_neg'. Qed.

Lemma bpow_le (a b : Z) : (a <= b)%Z -> bpow a <= bpow b.
Proof.
  intros H. replace b with (a + (b - a))%Z by lia. rewrite bpow_add.
  rewrite <- (Rmult_1_r (bpow a)) at 1.
  apply Rmult_le_compat_l; [left; apply bpow_pos|].
  rewrite <- bpow_IZR by lia. apply IZR_le.
  pose proof (Z.pow_pos_nonneg 2 (b - a)). lia.
Qed.

Lemma bpow_lt_inv (a b : Z) : bpow a < bpow b -> (a < b)%Z.
Proof.
  intros H. destruct (Z.lt_ge_cases a b) as [|Hge]; [assumption|].
  apply bpow_le in Hge. lra.
Qed.

Lemma rho_gt_1 : 1 < rho.
Proof. unfold rho. lra. Qed.

Lemma rho_pow_ge_1 (k : nat) : 1 <= rho ^ k.
Proof. apply pow_R1_Rle. left. exact rho_gt_1. Qed.

Lemma rho_pow_mono (k k' : nat) : (k <= k')%nat -> rho ^ k <= rho ^ k'.
Proof. intros H. apply Rle_pow; [left; exact rho_gt_1|exact H]. Qed.

Lemma near_weaken (k k' : nat) (a b : R) :
  (k <= k')%nat -> near k a b -> near k' a b.
Proof.
  intros Hk [Ha [Hb [H1 H2]]]. pose proof (rho_pow_mono k k' Hk).
  split; [exact Ha|]. split; [exact Hb|]. split.
  - apply Rle_trans with (1 := H1). apply Rmult_le_compat_l; lra.
  - apply Rle_trans with (1 := H2). apply Rmult_le_compat_l; lra.
Qed.

Lemma near_trans (k k' : nat) (a b c : R) :
  near k a b -> near k' b c -> near (k + k') a c.
Proof.
  intros [Ha [Hb [H1 H2]]] [_ [Hc [H3 H4]]].
  pose proof (rho_pow_ge_1 k). pose proof (rho_pow_ge_1 k').
  split; [exact Ha|]. split; [exact Hc|]. rewrite pow_add. split.
  - apply Rle_trans with (1 := H1).
    replace (c * (rho ^ k * rho ^ k')) with ((c * rho ^ k') * rho ^ k) by ring.
    apply Rmult_le_compat_r; lra.
  - apply Rle_trans with (1 := H4).
    replace (a * (rho ^ k * rho ^ k')) with ((a * rho ^ k) * rho ^ k') by ring.
    apply Rmult_le_compat_r; lra.
Qed.

Lemma near_add (k : nat) (a b a' b' : R) :
  near k a b -> near k a' b' -> near k (a + a') (b + b').
Proof.
  intros [Ha [Hb [H1 H2]]] [Ha' [Hb' [H3 H4]]].
  split; [lra|]. split; [lra|]. split; lra.
Qed.

Lemma near_mul (k k' : nat) (a b a' b' : R) :
  near k a b -> near k' a' b' -> near (k + k') (a * a') (b * b').
Proof.
  intros [Ha [Hb [H1 H2]]] [Ha' [Hb' [H3 H4]]].
  pose proof (rho_pow_ge_1 k). pose proof (rho_pow_ge_1 k').
  split; [apply Rmult_lt_0_compat; assumption|].
  split; [apply Rmult_lt_0_compat; assumption|].
  rewrite pow_add. split.
  - replace (b * b' * (rho ^ k * rho ^ k')) with ((b * rho ^ k) * (b' * rho ^ k'))
      by ring.
    apply Rmult_le_compat; lra.
  - replace (a * a' * (rho ^ k * rho ^ k')) with ((a * rho ^ k) * (a' * rho ^ k'))
      by ring.
    apply Rmult_le_compat; lra.
Qed.

Lemma near_inv (k : nat) (a b : R) : near k a b -> near k (/ a) (/ b).
Proof.
  intros [Ha [Hb [H1 H2]]].
  pose proof (rho_pow_ge_1 k) as Hr.
  pose proof (Rinv_0_lt_compat a Ha) as Hia.
  pose proof (Rinv_0_lt_compat b Hb) as Hib.
  split; [exact Hia|]. split; [exact Hib|]. split.
  - (* / a <= / b * rho^k  from  b <= a * rho^k *)
    apply Rmult_le_reg_l with (r := a * b); [apply Rmult_lt_0_compat; assumption|].
    replace (a * b * / a) with b by (field; lra).
    replace (a * b * (/ b * rho ^ k)) with (a * rho ^ k) by (field; lra).
    exact H2.
  - apply Rmult_le_reg_l with (r := a * b); [apply Rmult_lt_0_compat; assumption|].
    replace (a * b * / b) with a by (field; lra).
    replace (a * b * (/ a * rho ^ k)) with (b * rho ^ k) by (field; lra).
    exact H1.
Qed.

Lemma near_div (k k' : nat) (a b a' b' : R) :
  near k a b -> near k' a' b' -> near (k + k') (a / a') (b / b').
Proof.
  intros H H'. unfold Rdiv. apply near_mul; [exact H|apply near_inv; exact H'].
Qed.

(** One rounding: the result is within one rounding of each real [v]
    lying between the input and its successor. *)
Lemma round_near (sx : bool) (mx : positive) (ex : Z) (lx : location) (v : R) :
  (2 ^ 52 <= Z.pos mx)%Z -> (-1074 <= ex)%Z ->
  (ex + Z.pos (digits2_pos mx) <= 1023)%Z ->
  IZR (Z.pos mx) * bpow ex <= v <= IZR (Z.pos mx + 1) * bpow ex ->
  exists (m' : positive) (e' : Z),
    binary_round_aux 53 1024 sx (Z.pos mx) ex lx = S754_finite sx m' e'
    /\ (2 ^ 52 <= Z.pos m' < 2 ^ 53)%Z
    /\ near 1 (IZR (Z.pos m') * bpow e') v.
Proof.
  intros Hmx Hex Hover [Hv1 Hv2].
  destruct (binary_round_aux_bounds sx mx ex lx Hmx Hex Hover)
    as [m' [k [lo [hi [E [Hk [Hm' [Hlo [Hhi [Hw [Hl Hh]]]]]]]]]]].
  exists m', (ex + k)%Z. split; [exact E|]. split; [exact Hm'|].
  pose proof (bpow_pos ex) as HB.
  set (B := bpow ex) in *.
  set (f := IZR (Z.pos m') * bpow (ex + k)).
  assert (Hf : f = IZR (Z.pos m' * 2 ^ k) * B).
  { unfold f. rewrite bpow_add, mult_IZR, bpow_IZR by exact Hk.
    fold B. ring. }
  assert (H1 : IZR lo * B <= v).
  { apply Rle_trans with (2 := Hv1). apply Rmult_le_compat_r; [lra|].
    apply IZR_le. exact Hlo. }
  assert (H2 : v <= IZR hi * B).
  { apply Rle_trans with (1 := Hv2). apply Rmult_le_compat_r; [lra|].
    apply IZR_le. exact Hhi. }
  assert (H3 : IZR lo * B <= f).
  { rewrite Hf. apply Rmult_le_compat_r; [lra|]. apply IZR_le. exact Hl. }
  assert (H4 : f <= IZR hi * B).
  { rewrite Hf. apply Rmult_le_compat_r; [lra|]. apply IZR_le. exact Hh. }
  assert (H5 : IZR hi * B - IZR lo * B <= IZR (2 ^ k) * B).
  { rewrite <- Rmult_minus_distr_r. apply Rmult_le_compat_r; [lra|].
    rewrite <- minus_IZR. apply IZR_le. exact Hw. }
  assert (H6 : IZR (2 ^ 52) * (IZR (2 ^ k) * B) <= f).
  { rewrite Hf. rewrite <- Rmult_assoc. apply Rmult_le_compat_r; [lra|].
    rewrite <- mult_IZR. apply IZR_le.
    pose proof (Z.pow_pos_nonneg 2 k ltac:(lia) Hk). nia. }
  clearbody f. clear Hf.
  set (g := IZR (2 ^ k) * B) in *.
  assert (Hg : 0 < g).
  { unfold g. apply Rmult_lt_0_compat; [|lra]. apply IZR_lt.
    apply Z.pow_pos_nonneg; lia. }
  clearbody g.
  unfold near, rho. change (IZR (2 ^ 52)) with 4503599627370496 in *.
  simpl pow. repeat split; lra.
Qed.

Lemma bpow_lt (a b : Z) : (a < b)%Z -> bpow a < bpow b.
Proof.
  intros H. replace b with (a + (b - a))%Z by lia. rewrite bpow_add.
  rewrite <- (Rmult_1_r (bpow a)) at 1.
  apply Rmult_lt_compat_l; [apply bpow_pos|].
  rewrite <- bpow_IZR by lia. apply IZR_lt.
  assert (2 ^ 1 <= 2 ^ (b - a))%Z by (apply Z.pow_le_mono_r; lia). lia.
Qed.

Lemma bpow_le_inv (a b : Z) : bpow a <= bpow b -> (a <= b)%Z.
Proof.
  intros H. destruct (Z.le_gt_cases a b) as [|Hgt]; [assumption|].
  apply bpow_lt in Hgt. lra.
Qed.

Lemma bpow_1 : bpow 1 = 2.
Proof. rewrite <- bpow_IZR by lia. reflexivity. Qed.

Lemma rho_pow_8 : rho ^ 8 <= 2.
Proof. unfold rho. change (IZR (2 ^ 52)) with 4503599627370496. lra. Qed.

(** The exponent of a double with a full mantissa follows from the size
    of the value it is near to. *)
Lemma near_exponent (k : nat) (m : positive) (e : Z) (v : R) (a b : Z) :
  (2 ^ 52 <= Z.pos m < 2 ^ 53)%Z ->
  near k (IZR (Z.pos m) * bpow e) v -> (k <= 8)%nat ->
  bpow a <= v <= bpow b ->
  (a - 53 <= e <= b - 51)%Z.
Proof.
  intros [Hm1 Hm2] [Hf [Hv [H1 H2]]] Hk [Ha Hb].
  pose proof (Rle_trans _ _ _ (rho_pow_mono k 8 Hk) rho_pow_8) as Hr.
  pose proof (rho_pow_ge_1 k) as Hr1.
  pose proof (bpow_pos e) as He.
  assert (F1 : bpow 52 * bpow e <= IZR (Z.pos m) * bpow e).
  { apply Rmult_le_compat_r; [lra|]. rewrite <- bpow_IZR by lia.
    apply IZR_le. exact Hm1. }
  assert (F2 : IZR (Z.pos m) * bpow e < bpow 53 * bpow e).
  { apply Rmult_lt_compat_r; [lra|]. rewrite <- bpow_IZR by lia.
    apply IZR_lt. exact Hm2. }
  rewrite <- bpow_add in F1, F2.
  assert (G1 : v * rho ^ k <= bpow (b + 1)).
  { rewrite bpow_add, bpow_1.
    apply Rle_trans with (v * 2); [apply Rmult_le_compat_l; lra|].
    lra. }
  assert (G2 : bpow e * (bpow 53 * 2) = bpow (54 + e)).
  { replace (54 + e)%Z with (e + (53 + 1))%Z by lia.
    rewrite !bpow_add, bpow_1. reflexivity. }
  assert (G3 : IZR (Z.pos m) * bpow e * rho ^ k < bpow (54 + e)).
  { rewrite <- G2. rewrite bpow_add in F2.
    apply Rle_lt_trans with (IZR (Z.pos m) * bpow e * 2).
    - apply Rmult_le_compat_l; lra.
    - lra. }
  split.
  - assert (bpow a < bpow (54 + e)) by lra.
    apply bpow_lt_inv in H. lia.
  - assert (bpow (52 + e) <= bpow (b + 1)) by lra.
    apply bpow_le_inv in H. lia.
Qed.

Lemma digits2_pos_le (m : positive) (d : Z) :
  (Z.pos m < 2 ^ d)%Z -> (0 <= d)%Z -> (Z.pos (digits2_pos m) <= d)%Z.
Proof.
  intros Hm Hd. destruct (digits2_pos_bounds m) as [Hlo _].
  destruct (Z.le_gt_cases (Z.pos (digits2_pos m)) d) as [|Hgt]; [assumption|].
  exfalso.
  assert (2 ^ d <= 2 ^ (Z.pos (digits2_pos m) - 1))%Z
    by (apply Z.pow_le_mono_r; lia).
  lia.
Qed.

Lemma iter_xO (d p : positive) :
  Z.pos (Pos.iter xO p d) = (Z.pos p * 2 ^ Z.pos d)%Z.
Proof.
  induction d as [|d IH] using Pos.peano_ind.
  - cbn. lia.
  - rewrite Pos.iter_succ. rewrite (Pos2Z.inj_xO (Pos.iter xO p d)), IH.
    rewrite Pos2Z.inj_succ, Z.pow_succ_r by lia. ring.
Qed.

Lemma shl_align_fst (m : positive) (e e' : Z) :
  (e' <= e)%Z ->
  Z.pos (fst (shl_align m e e')) = (Z.pos m * 2 ^ (e - e'))%Z
  /\ snd (shl_align m e e') = e'.
Proof.
  intros H. unfold shl_align.
  destruct (e' - e)%Z as [|d|d] eqn:E; try lia; cbn [fst snd].
  - replace (e - e')%Z with 0%Z by lia. split; lia.
  - rewrite iter_xO. replace (e - e')%Z with (Z.pos d) by lia. split; [reflexivity|].
    reflexivity.
Qed.

Lemma shl_align_none (m : positive) (e e' : Z) :
  (e <= e')%Z -> shl_align m e e' = (m, e).
Proof.
  intros H. unfold shl_align. destruct (e' - e)%Z eqn:E; try reflexivity; lia.
Qed.

(** Conversion of a positive integer below 2^64. *)
Lemma of_Z_approx (n : Z) :
  (1 <= n < 2 ^ 64)%Z -> approx 1 (Double.of_Z n) (IZR n).
Proof.
  intros Hn. unfold Double.of_Z, Double.prec, Double.emax.
  destruct n as [|p|p]; try lia. cbn [binary_normalize]. unfold binary_round.
  destruct (digits2_pos_bounds p) as [Dlo Dhi].
  set (d := Z.pos (digits2_pos p)) in *.
  assert (Hd : (1 <= d <= 64)%Z).
  { split; [subst d; lia|]. apply digits2_pos_le; lia. }
  rewrite fexp_normal by lia. rewrite Z.add_0_r.
  destruct (Z.le_gt_cases 53 d) as [Hbig|Hsmall].
  - rewrite shl_align_none by lia.
    destruct (round_near false p 0 loc_Exact (IZR (Z.pos p))) as [m' [e' [E [Hm' N]]]].
    + assert (2 ^ 52 <= 2 ^ (d - 1))%Z by (apply Z.pow_le_mono_r; lia). lia.
    + lia.
    + fold d. lia.
    + rewrite plus_IZR. change (bpow 0) with 1. lra.
    + rewrite E. exists m', e'. auto.
  - destruct (shl_align_fst p 0 (d - 53) ltac:(lia)) as [F S].
    destruct (shl_align p 0 (d - 53)) as [mz ez]. cbn [fst snd] in F, S. subst ez.
    replace (0 - (d - 53))%Z with (53 - d)%Z in F by lia.
    assert (Hmz : (2 ^ 52 <= Z.pos mz < 2 ^ 53)%Z).
    { rewrite F. split.
      - replace 52%Z with ((d - 1) + (53 - d))%Z by lia.
        rewrite Z.pow_add_r by lia.
        apply Z.mul_le_mono_nonneg_r; [apply Z.pow_nonneg; lia|exact Dlo].
      - replace 53%Z with (d + (53 - d))%Z at 2 by lia.
        rewrite Z.pow_add_r by lia.
        apply Z.mul_lt_mono_pos_r; [apply Z.pow_pos_nonneg; lia|exact Dhi]. }
    assert (Hval : IZR (Z.pos mz) * bpow (d - 53) = IZR (Z.pos p)).
    { rewrite F, mult_IZR, bpow_IZR by lia. rewrite Rmult_assoc, <- bpow_add.
      replace (53 - d + (d - 53))%Z with 0%Z by lia.
      change (bpow 0) with 1. ring. }
    destruct (round_near false mz (d - 53) loc_Exact (IZR (Z.pos p)))
      as [m' [e' [E [Hm' N]]]].
    + lia.
    + lia.
    + rewrite (digits_of_bounds mz 53); [lia| |lia]. change (53 - 1)%Z with 52%Z. lia.
    + rewrite plus_IZR, Rmult_plus_distr_r, Hval.
      pose proof (bpow_pos (d - 53)). lra.
    + rewrite E. exists m', e'. auto.
Qed.

Lemma approx_weaken (k k' : nat) (f : spec_float) (v : R) :
  (k <= k')%nat -> approx k f v -> approx k' f v.
Proof.
  intros Hk [m [e [E [Hm N]]]]. exists m, e.
  split; [exact E|]. split; [exact Hm|]. eapply near_weaken; eassumption.
Qed.

Lemma mul_approx (k k' : nat) (x y : spec_float) (a b : R) :
  approx k x a -> approx k' y b -> (k <= 8)%nat -> (k' <= 8)%nat ->
  bpow (-100) <= a <= bpow 100 -> bpow (-100) <= b <= bpow 100 ->
  approx (S (k + k')) (Double.mul x y) (a * b).
Proof.
  intros [mx [ex [Ex [Hmx Nx]]]] [my [ey [Ey [Hmy Ny]]]] Hk Hk' Ha Hb.
  subst x y. unfold Double.mul, Double.prec, Double.emax. cbn [SFmul xorb].
  pose proof (near_exponent k mx ex a (-100) 100 Hmx Nx Hk Ha) as Hex.
  pose proof (near_exponent k' my ey b (-100) 100 Hmy Ny Hk' Hb) as Hey.
  assert (Hprod : (2 ^ 104 <= Z.pos (mx * my) < 2 ^ 106)%Z).
  { rewrite Pos2Z.inj_mul. change (2 ^ 104)%Z with (2 ^ 52 * 2 ^ 52)%Z.
    change (2 ^ 106)%Z with (2 ^ 53 * 2 ^ 53)%Z. nia. }
  set (v := IZR (Z.pos mx) * bpow ex * (IZR (Z.pos my) * bpow ey)).
  destruct (round_near false (mx * my) (ex + ey) loc_Exact v)
    as [m' [e' [E [Hm' N]]]].
  - lia.
  - lia.
  - pose proof (digits2_pos_le (mx * my) 106 ltac:(lia) ltac:(lia)). lia.
  - assert (Hv : v = IZR (Z.pos (mx * my)) * bpow (ex + ey)).
    { unfold v. rewrite Pos2Z.inj_mul, mult_IZR, bpow_add. ring. }
    rewrite plus_IZR, Rmult_plus_distr_r, <- Hv.
    pose proof (bpow_pos (ex + ey)). lra.
  - rewrite E. exists m', e'. split; [reflexivity|]. split; [exact Hm'|].
    change (S (k + k')) with (1 + (k + k'))%nat.
    eapply near_trans; [exact N|]. unfold v. apply near_mul; assumption.
Qed.

Lemma add_approx (k : nat) (x y : spec_float) (a b : R) :
  approx k x a -> approx k y b -> (k <= 8)%nat ->
  bpow (-100) <= a <= bpow 100 -> bpow (-100) <= b <= bpow 100 ->
  approx (S k) (Double.add x y) (a + b).
Proof.
  intros [mx [ex [Ex [Hmx Nx]]]] [my [ey [Ey [Hmy Ny]]]] Hk Ha Hb.
  subst x y. unfold Double.add, Double.prec, Double.emax. cbn [SFadd cond_Zopp].
  pose proof (near_exponent k mx ex a (-100) 100 Hmx Nx Hk Ha) as Hex.
  pose proof (near_exponent k my ey b (-100) 100 Hmy Ny Hk Hb) as Hey.
  set (ez := Z.min ex ey).
  destruct (shl_align_fst mx ex ez ltac:(subst ez; lia)) as [Fx _].
  destruct (shl_align_fst my ey ez ltac:(subst ez; lia)) as [Fy _].
  set (ax := fst (shl_align mx ex ez)) in *.
  set (ay := fst (shl_align my ey ez)) in *.
  change (Z.pos ax + Z.pos ay)%Z with (Z.pos (ax + ay)).
  cbn [binary_normalize]. unfold binary_round.
  assert (Px : (1 <= 2 ^ (ex - ez))%Z)
    by (pose proof (Z.pow_pos_nonneg 2 (ex - ez)); subst ez; lia).
  assert (Py : (1 <= 2 ^ (ey - ez))%Z)
    by (pose proof (Z.pow_pos_nonneg 2 (ey - ez)); subst ez; lia).
  assert (Ux : (2 ^ (ex - ez) <= 2 ^ 251)%Z)
    by (apply Z.pow_le_mono_r; subst ez; lia).
  assert (Uy : (2 ^ (ey - ez) <= 2 ^ 251)%Z)
    by (apply Z.pow_le_mono_r; subst ez; lia).
  assert (Hs : (2 ^ 52 <= Z.pos (ax + ay) < 2 ^ 305)%Z).
  { rewrite Pos2Z.inj_add, Fx, Fy. split; [nia|].
    change (2 ^ 305)%Z with (2 ^ 53 * 2 ^ 251 + 2 ^ 53 * 2 ^ 251)%Z.
    assert (Z.pos mx * 2 ^ (ex - ez) < 2 ^ 53 * 2 ^ 251)%Z by nia.
    assert (Z.pos my * 2 ^ (ey - ez) < 2 ^ 53 * 2 ^ 251)%Z by nia.
    lia. }
  destruct (digits2_pos_bounds (ax + ay)) as [Dlo Dhi].
  pose proof (digits2_pos_le (ax + ay) 305 ltac:(lia) ltac:(lia)) as Dle.
  set (d := Z.pos (digits2_pos (ax + ay))) in *.
  assert (Hd : (53 <= d)%Z).
  { destruct (Z.le_gt_cases 53 d) as [|Hlt]; [assumption|exfalso].
    assert (2 ^ d <= 2 ^ 52)%Z by (apply Z.pow_le_mono_r; lia). lia. }
  rewrite fexp_normal by (subst ez; lia).
  rewrite shl_align_none by lia.
  set (v := IZR (Z.pos mx) * bpow ex + IZR (Z.pos my) * bpow ey).
  assert (Hv : v = IZR (Z.pos (ax + ay)) * bpow ez).
  { unfold v. rewrite Pos2Z.inj_add, plus_IZR, Fx, Fy, !mult_IZR.
    rewrite !bpow_IZR by (subst ez; lia).
    rewrite Rmult_plus_distr_r, !Rmult_assoc, <- !bpow_add.
    replace (ex - ez + ez)%Z with ex by lia.
    replace (ey - ez + ez)%Z with ey by lia. reflexivity. }
  destruct (round_near false (ax + ay) ez loc_Exact v) as [m' [e' [E [Hm' N]]]].
  - lia.
  - subst ez; lia.
  - fold d. subst ez; lia.
  - rewrite plus_IZR, Rmult_plus_distr_r, <- Hv.
    pose proof (bpow_pos ez). lra.
  - rewrite E. exists m', e'. split; [reflexivity|]. split; [exact Hm'|].
    change (S k) with (1 + k)%nat.
    eapply near_trans; [exact N|]. unfold v. apply near_add; assumption.
Qed.

Lemma div_approx (k k' : nat) (x y : spec_float) (a b : R) :
  approx k x a -> approx k' y b -> (k <= 8)%nat -> (k' <= 8)%nat ->
  bpow (-100) <= a <= bpow 100 -> bpow (-100) <= b <= bpow 100 ->
  approx (S (k + k')) (Double.div x y) (a / b).
Proof.
  intros [mx [ex [Ex [Hmx Nx]]]] [my [ey [Ey [Hmy Ny]]]] Hk Hk' Ha Hb.
  subst x y. unfold Double.div, Double.prec, Double.emax. cbn [SFdiv xorb].
  pose proof (near_exponent k mx ex a (-100) 100 Hmx Nx Hk Ha) as Hex.
  pose proof (near_exponent k' my ey b (-100) 100 Hmy Ny Hk' Hb) as Hey.
  unfold SFdiv_core_binary. rewrite !Zdigits2_pos.
  rewrite (digits_of_bounds mx 53) by (change (53 - 1)%Z with 52%Z; lia).
  rewrite (digits_of_bounds my 53) by (change (53 - 1)%Z with 52%Z; lia).
  replace (53 + ex - (53 + ey))%Z with (ex - ey)%Z by lia.
  rewrite fexp_normal by lia.
  rewrite Z.min_l by lia.
  replace (ex - ey - (ex - ey - 53))%Z with 53%Z by lia.
  rewrite Z.shiftl_mul_pow2 by lia.
  pose proof (Z.div_eucl_eq (Z.pos mx * 2 ^ 53) (Z.pos my) ltac:(lia)) as Hdm.
  pose proof (Z.mod_pos_bound (Z.pos mx * 2 ^ 53) (Z.pos my) ltac:(lia)) as Hmod.
  unfold Z.modulo in Hmod.
  destruct (Z.div_eucl (Z.pos mx * 2 ^ 53) (Z.pos my)) as [q r].
  assert (Hq : (2 ^ 52 <= q < 2 ^ 54)%Z).
  { change (2 ^ 54)%Z with (2 * 2 ^ 53)%Z. change (2 ^ 53)%Z with (2 * 2 ^ 52)%Z in *.
    split; nia. }
  destruct q as [|q|q]; try lia.
  set (v := IZR (Z.pos mx) * bpow ex / (IZR (Z.pos my) * bpow ey)).
  assert (Hmy0 : 0 < IZR (Z.pos my)) by (apply IZR_lt; lia).
  pose proof (bpow_pos ex) as Bx. pose proof (bpow_pos ey) as By.
  assert (Hv : v = IZR (Z.pos mx * 2 ^ 53) / IZR (Z.pos my) * bpow (ex - ey - 53)).
  { unfold v. rewrite mult_IZR.
    replace (ex - ey - 53)%Z with (ex + (- ey + - (53)))%Z by lia.
    rewrite !bpow_add, !bpow_opp. rewrite (bpow_IZR 53) by lia.
    field. split; [|split]; try lra.
    pose proof (bpow_pos 53). lra. }
  destruct (round_near false q (ex - ey - 53) (new_location (Z.pos my) r) v)
    as [m' [e' [E [Hm' N]]]].
  - lia.
  - lia.
  - pose proof (digits2_pos_le q 54 ltac:(lia) ltac:(lia)). lia.
  - rewrite Hv. pose proof (bpow_pos (ex - ey - 53)) as Bz.
    assert (Q1 : IZR (Z.pos q) <= IZR (Z.pos mx * 2 ^ 53) / IZR (Z.pos my)).
    { apply Rmult_le_reg_r with (IZR (Z.pos my)); [exact Hmy0|].
      replace (IZR (Z.pos mx * 2 ^ 53) / IZR (Z.pos my) * IZR (Z.pos my))
        with (IZR (Z.pos mx * 2 ^ 53)) by (field; lra).
      rewrite <- mult_IZR. apply IZR_le. lia. }
    assert (Q2 : IZR (Z.pos mx * 2 ^ 53) / IZR (Z.pos my) <= IZR (Z.pos q + 1)).
    { apply Rmult_le_reg_r with (IZR (Z.pos my)); [exact Hmy0|].
      replace (IZR (Z.pos mx * 2 ^ 53) / IZR (Z.pos my) * IZR (Z.pos my))
        with (IZR (Z.pos mx * 2 ^ 53)) by (field; lra).
      rewrite <- mult_IZR. apply IZR_le. lia. }
    split; apply Rmult_le_compat_r; lra.
  - rewrite E. exists m', e'. split; [reflexivity|]. split; [exact Hm'|].
    change (S (k + k')) with (1 + (k + k'))%nat.
    eapply near_trans; [exact N|]. unfold v. apply near_div; assumption.
Qed.

Lemma bpow_neg_IZR (k : Z) : (0 <= k)%Z -> bpow (- k) = / IZR (2 ^ k).
Proof. intros H. rewrite bpow_opp, bpow_IZR by exact H. reflexivity. Qed.

Lemma in_window (x : R) :
  / IZR (2 ^ 64) <= x <= IZR (2 ^ 64) -> bpow (-100) <= x <= bpow 100.
Proof.
  intros [H1 H2]. change (-100)%Z with (Z.opp 100).
  rewrite (bpow_neg_IZR 100) by lia.
  rewrite <- (bpow_IZR 100) by lia.
  change (IZR (2 ^ 64)) with 18446744073709551616 in *.
  change (IZR (2 ^ 100)) with 1267650600228229401496703205376.
  split; lra.
Qed.

Lemma lit_1e_6_approx : approx 1 Double.lit_1e_6 (/ 1000000).
Proof.
  exists 4722366482869645%positive, (-72)%Z.
  split; [reflexivity|]. split; [cbn; lia|].
  change (-72)%Z with (Z.opp 72). rewrite (bpow_neg_IZR 72) by lia.
  change (IZR (2 ^ 72)) with 4722366482869645213696.
  unfold near, rho. change (IZR (2 ^ 52)) with 4503599627370496.
  simpl pow. repeat split; lra.
Qed.

Lemma of_Z_zero : Double.of_Z 0 = S754_zero false.
Proof. reflexivity. Qed.

Lemma IZR_range (n lo hi : Z) : (lo <= n <= hi)%Z -> IZR lo <= IZR n <= IZR hi.
Proof. intros [H1 H2]. split; apply IZR_le; assumption. Qed.

(** The elapsed time in seconds as the program computes it, against the
    exact number of microseconds. *)
Lemma seconds_approx (tv : timeval) :
  (0 <= tv_sec tv < 2 ^ 63)%Z -> (0 <= tv_usec tv < 1000000)%Z ->
  (0 < micros tv)%Z ->
  approx 4 (seconds tv) (IZR (micros tv) / 1000000).
Proof.
  intros Hs Hu HE. unfold seconds, micros in *.
  replace (IZR (tv_sec tv * 1000000 + tv_usec tv) / 1000000)
    with (IZR (tv_sec tv) + IZR (tv_usec tv) * / 1000000)
    by (rewrite plus_IZR, mult_IZR; field).
  assert (Wc : bpow (-100) <= / 1000000 <= bpow 100).
  { apply in_window. change (IZR (2 ^ 64)) with 18446744073709551616. lra. }
  destruct (Z.eq_dec (tv_usec tv) 0) as [Hu0|Hu0];
    [|destruct (Z.eq_dec (tv_sec tv) 0) as [Hs0|Hs0]].
  - rewrite Hu0, of_Z_zero. cbn [Double.mul SFmul Double.lit_1e_6 xorb].
    replace (IZR (tv_sec tv) + 0 * / 1000000) with (IZR (tv_sec tv)) by ring.
    pose proof (of_Z_approx (tv_sec tv) ltac:(lia)) as A.
    destruct A as [m [e [E [Hm N]]]]. rewrite E. cbn.
    exists m, e. split; [reflexivity|]. split; [exact Hm|].
    eapply near_weaken; [|exact N]. lia.
  - rewrite Hs0, of_Z_zero.
    replace (0 + IZR (tv_usec tv) * / 1000000)
      with (IZR (tv_usec tv) * / 1000000) by ring.
    pose proof (IZR_range (tv_usec tv) 1 1000000 ltac:(lia)) as Ru.
    assert (Wu : bpow (-100) <= IZR (tv_usec tv) <= bpow 100).
    { apply in_window. change (IZR (2 ^ 64)) with 18446744073709551616. lra. }
    pose proof (mul_approx 1 1 _ _ _ _
                  (of_Z_approx (tv_usec tv) ltac:(lia)) lit_1e_6_approx
                  ltac:(lia) ltac:(lia) Wu Wc) as A.
    destruct A as [m [e [E [Hm N]]]]. rewrite E. cbn.
    exists m, e. split; [reflexivity|]. split; [exact Hm|].
    eapply near_weaken; [|exact N]. lia.
  - pose proof (IZR_range (tv_usec tv) 1 1000000 ltac:(lia)) as Ru.
    pose proof (IZR_range (tv_sec tv) 1 (2 ^ 63) ltac:(lia)) as Rs.
    change (IZR (2 ^ 63)) with 9223372036854775808 in Rs.
    assert (Wu : bpow (-100) <= IZR (tv_usec tv) <= bpow 100).
    { apply in_window. change (IZR (2 ^ 64)) with 18446744073709551616. lra. }
    pose proof (mul_approx 1 1 _ _ _ _
                  (of_Z_approx (tv_usec tv) ltac:(lia)) lit_1e_6_approx
                  ltac:(lia) ltac:(lia) Wu Wc) as A.
    pose proof (approx_weaken 1 3 _ _ ltac:(lia)
                  (of_Z_approx (tv_sec tv) ltac:(lia))) as B.
    apply (add_approx 3 _ _ _ _ B A ltac:(lia)).
    + apply in_window. change (IZR (2 ^ 64)) with 18446744073709551616. lra.
    + apply in_window. change (IZR (2 ^ 64)) with 18446744073709551616. lra.
Qed.

Lemma integral_part_floor (m : positive) (e : Z) :
  let r := (if 0 <=? e then Z.pos m * 2 ^ e else Z.pos m / 2 ^ (- e))%Z in
  IZR r <= IZR (Z.pos m) * bpow e < IZR r + 1.
Proof.
  destruct (Z.leb_spec 0 e) as [He|He]; cbv zeta.
  - rewrite mult_IZR, bpow_IZR by exact He. lra.
  - replace e with (- (- e))%Z at 2 3 by lia.
    rewrite (bpow_neg_IZR (- e)) by lia.
    pose proof (Z.pow_pos_nonneg 2 (- e) ltac:(lia) ltac:(lia)) as Hp.
    pose proof (Z.div_mod (Z.pos m) (2 ^ (- e)) ltac:(lia)) as Hdm.
    pose proof (Z.mod_pos_bound (Z.pos m) (2 ^ (- e)) Hp) as Hmod.
    set (P := (2 ^ (- e))%Z) in *. set (q := (Z.pos m / P)%Z) in *.
    assert (HP : 0 < IZR P) by (apply IZR_lt; exact Hp).
    assert (L : IZR q * IZR P <= IZR (Z.pos m)).
    { rewrite <- mult_IZR. apply IZR_le. lia. }
    assert (U : IZR (Z.pos m) < (IZR q + 1) * IZR P).
    { rewrite <- (plus_IZR q 1), <- mult_IZR. apply IZR_lt. lia. }
    split.
    + apply Rmult_le_reg_r with (IZR P); [exact HP|].
      replace (IZR (Z.pos m) * / IZR P * IZR P) with (IZR (Z.pos m))
        by (field; lra).
      exact L.
    + apply Rmult_lt_reg_r with (IZR P); [exact HP|].
      replace (IZR (Z.pos m) * / IZR P * IZR P) with (IZR (Z.pos m))
        by (field; lra).
      exact U.
Qed.

Lemma rho_pow_6 : rho ^ 6 <= 1 + / IZR (2 ^ 33).
Proof.
  unfold rho. change (IZR (2 ^ 52)) with 4503599627370496.
  change (IZR (2 ^ 33)) with 8589934592. lra.
Qed.

(** Lines 206-207 against exact arithmetic: for a positive elapsed time
    and a quotient below 2^32 - 1 the conversion is defined and the
    stored rate is within one of the integral part of the exact quotient
    [delta / elapsed]. *)
Lemma normalize_within_one (delta : Z) (tv : timeval) :
  (0 <= delta < 2 ^ 32)%Z ->
  (0 <= tv_sec tv < 2 ^ 63)%Z -> (0 <= tv_usec tv < 1000000)%Z ->
  (0 < micros tv)%Z ->
  (delta * 1000000 < (2 ^ 32 - 1) * micros tv)%Z ->
  exists r : Z,
    normalize delta tv = Some r
    /\ (0 <= r < 2 ^ 32)%Z
    /\ (delta * 1000000 / micros tv - 1 <= r
        <= delta * 1000000 / micros tv + 1)%Z.
Proof.
  intros Hd Hs Hu HE Hq.
  pose proof (seconds_approx tv Hs Hu HE) as AD.
  unfold normalize.
  destruct (Z.eq_dec delta 0) as [->|Hd0].
  - destruct AD as [m [e [E [Hm N]]]]. rewrite E, of_Z_zero. cbn.
    exists 0%Z. repeat split; lia.
  - set (E := micros tv) in *.
    assert (HEr : 0 < IZR E) by (apply IZR_lt; exact HE).
    pose proof (IZR_range delta 1 (2 ^ 32) ltac:(lia)) as Rd.
    change (IZR (2 ^ 32)) with 4294967296 in Rd.
    assert (HEu : IZR E <= 9223372036854775808000000 + 1000000).
    { change 9223372036854775808000000 with (IZR (2 ^ 63 * 1000000)).
      rewrite <- plus_IZR. apply IZR_le. unfold E, micros. lia. }
    assert (HEl : 1 <= IZR E) by (apply IZR_le; lia).
    assert (Wd : bpow (-100) <= IZR delta <= bpow 100).
    { apply in_window. change (IZR (2 ^ 64)) with 18446744073709551616. lra. }
    assert (WD : bpow (-100) <= IZR E / 1000000 <= bpow 100).
    { apply in_window. change (IZR (2 ^ 64)) with 18446744073709551616.
      unfold Rdiv. lra. }
    pose proof (div_approx 1 4 _ _ _ _ (of_Z_approx delta ltac:(lia)) AD
                  ltac:(lia) ltac:(lia) Wd WD) as AQ.
    destruct AQ as [m [e [Eq [Hm N]]]]. rewrite Eq.
    unfold Double.to_uint32, Double.integral_part. cbn [cond_Zopp].
    pose proof (integral_part_floor m e) as Hfl. cbv zeta in Hfl.
    set (r := (if 0 <=? e then Z.pos m * 2 ^ e else Z.pos m / 2 ^ (- e))%Z) in *.
    set (qv := IZR (Z.pos m) * bpow e) in *.
    set (Q := IZR delta / (IZR E / 1000000)) in *.
    destruct N as [Hqv [HQ [N1 N2]]]. change (S (1 + 4)) with 6%nat in N1, N2.
    pose proof rho_pow_6 as Hr. change (IZR (2 ^ 33)) with 8589934592 in Hr.
    pose proof (rho_pow_ge_1 6) as Hr1.
    (* the exact quotient and its integral part *)
    set (F := (delta * 1000000 / E)%Z).
    assert (HQE : Q = IZR (delta * 1000000) / IZR E).
    { unfold Q. rewrite mult_IZR. field. lra. }
    pose proof (Z.div_mod (delta * 1000000) E ltac:(lia)) as Hdm.
    pose proof (Z.mod_pos_bound (delta * 1000000) E HE) as Hmod.
    fold F in Hdm.
    assert (QF1 : IZR F <= Q).
    { rewrite HQE. apply Rmult_le_reg_r with (IZR E); [exact HEr|].
      replace (IZR (delta * 1000000) / IZR E * IZR E)
        with (IZR (delta * 1000000)) by (field; lra).
      rewrite <- mult_IZR. apply IZR_le. lia. }
    assert (QF2 : Q < IZR F + 1).
    { rewrite HQE. apply Rmult_lt_reg_r with (IZR E); [exact HEr|].
      replace (IZR (delta * 1000000) / IZR E * IZR E)
        with (IZR (delta * 1000000)) by (field; lra).
      rewrite <- (plus_IZR F 1), <- mult_IZR. apply IZR_lt. lia. }
    assert (QU : Q < 4294967295).
    { rewrite HQE. apply Rmult_lt_reg_r with (IZR E); [exact HEr|].
      replace (IZR (delta * 1000000) / IZR E * IZR E)
        with (IZR (delta * 1000000)) by (field; lra).
      change 4294967295 with (IZR (2 ^ 32 - 1)).
      rewrite <- mult_IZR. apply IZR_lt. exact Hq. }
    assert (A1 : qv <= Q * (1 + / 8589934592)).
    { apply Rle_trans with (1 := N1). apply Rmult_le_compat_l; lra. }
    assert (A2 : Q <= qv * (1 + / 8589934592)).
    { apply Rle_trans with (1 := N2). apply Rmult_le_compat_l; lra. }
    assert (B1 : qv < Q + 1) by lra.
    assert (B2 : Q < qv + 1) by lra.
    assert (R0 : (0 <= r)%Z).
    { apply Z.lt_succ_r. apply lt_IZR. rewrite succ_IZR. lra. }
    assert (R1 : (r < 2 ^ 32)%Z).
    { apply lt_IZR. change (IZR (2 ^ 32)) with 4294967296. lra. }
    assert (R2 : (r <= F + 1)%Z).
    { apply Z.lt_succ_r. apply lt_IZR. rewrite succ_IZR, plus_IZR. lra. }
    assert (R3 : (F - 1 <= r)%Z).
    { apply Z.lt_succ_r. apply lt_IZR. rewrite succ_IZR, minus_IZR. lra. }
    exists r.
    replace ((0 <=? r) && (r <? 2 ^ 32)) with true.
    + repeat split; assumption.
    + symmetry. apply andb_true_iff. split; [apply Z.leb_le|apply Z.ltb_lt]; assumption.
Qed.

End Reals_of_doubles.

(** ** The rates of a pass *)

Lemma timersub_micros (t1 t0 : timeval) :
  micros (timersub t1 t0) = micros t1 - micros t0.
Proof.
  unfold timersub, micros.
  destruct (Z.ltb_spec (tv_usec t1 - tv_usec t0) 0); cbn [tv_sec tv_usec]; lia.
Qed.

Lemma timersub_usec (t1 t0 : timeval) :
  0 <= tv_usec t0 < 1000000 -> 0 <= tv_usec t1 < 1000000 ->
  0 <= tv_usec (timersub t1 t0) < 1000000.
Proof.
  intros H0 H1. unfold timersub.
  destruct (Z.ltb_spec (tv_usec t1 - tv_usec t0) 0); cbn [tv_usec]; lia.
Qed.

Lemma timersub_sec (t1 t0 : timeval) :
  0 <= tv_usec t0 < 1000000 -> 0 <= tv_usec t1 < 1000000 ->
  0 <= tv_sec t0 -> tv_sec t1 < 2 ^ 63 -> 0 < micros t1 - micros t0 ->
  0 <= tv_sec (timersub t1 t0) < 2 ^ 63.
Proof.
  intros H0 H1 Hs0 Hs1 HE. unfold micros in HE. unfold timersub.
  destruct (Z.ltb_spec (tv_usec t1 - tv_usec t0) 0); cbn [tv_sec]; lia.
Qed.

(** A pass against exact arithmetic: positive elapsed time, counters
    that grew by less than 2^32, exact quotients below 2^32 - 1. *)
Lemma pass_within_one (prev cur : ifmibdata) (t0 t1 : timeval) :
  0 <= tv_usec t0 < 1000000 -> 0 <= tv_usec t1 < 1000000 ->
  0 <= tv_sec t0 -> tv_sec t1 < 2 ^ 63 ->
  0 < micros t1 - micros t0 ->
  0 <= ifi_ibytes cur - ifi_ibytes prev < 2 ^ 32 ->
  0 <= ifi_obytes cur - ifi_obytes prev < 2 ^ 32 ->
  (ifi_ibytes cur - ifi_ibytes prev) * 1000000
    < (2 ^ 32 - 1) * (micros t1 - micros t0) ->
  (ifi_obytes cur - ifi_obytes prev) * 1000000
    < (2 ^ 32 - 1) * (micros t1 - micros t0) ->
  exists ri ro : Z,
    iteration (backup prev t0) cur t1 = Some (ri, ro, backup cur t1)
    /\ 0 <= ri < 2 ^ 32 /\ 0 <= ro < 2 ^ 32
    /\ Z.abs (ri - (ifi_ibytes cur - ifi_ibytes prev) * 1000000
                   / (micros t1 - micros t0)) <= 1
    /\ Z.abs (ro - (ifi_obytes cur - ifi_obytes prev) * 1000000
                   / (micros t1 - micros t0)) <= 1.
Proof.
  intros Hu0 Hu1 Hs0 Hs1 HE Hin Hout Hqi Hqo.
  pose proof (timersub_micros t1 t0) as HM.
  pose proof (timersub_usec t1 t0 Hu0 Hu1) as HU.
  pose proof (timersub_sec t1 t0 Hu0 Hu1 Hs0 Hs1 HE) as HS.
  unfold iteration. cbn [backup old_inb old_outb old_tv].
  rewrite !throughput_mod.
  rewrite (Z.mod_small (ifi_ibytes cur - ifi_ibytes prev)) by exact Hin.
  rewrite (Z.mod_small (ifi_obytes cur - ifi_obytes prev)) by exact Hout.
  destruct (normalize_within_one (ifi_ibytes cur - ifi_ibytes prev)
              (timersub t1 t0) Hin HS HU) as [ri [Ei [Ri Bi]]];
    [rewrite HM; exact HE|rewrite HM; exact Hqi|].
  destruct (normalize_within_one (ifi_obytes cur - ifi_obytes prev)
              (timersub t1 t0) Hout HS HU) as [ro [Eo [Ro Bo]]];
    [rewrite HM; exact HE|rewrite HM; exact Hqo|].
  rewrite HM in Bi, Bo. rewrite Ei, Eo.
  exists ri, ro. split; [reflexivity|].
  split; [exact Ri|]. split; [exact Ro|]. split; lia.
Qed.

(** X18. The first pass is a pass like any other, against counters of
    0 and the time that [old_tv] happens to hold.  When that time and the
    first reading of the clock are times of day in normal form (seconds
    not negative and below 2^63, microseconds from 0 to 999999), the
    former lies before the latter, the counters are below 2^32 and the
    counters divided by the distance between the two times stay below
    2^32 - 1, then both first rates are defined and each is within 1 of
    the counter itself divided by that distance. *)
Lemma first_pass_divides_by_stack_interval (stack : timeval)
    (data : ifmibdata) (t1 : timeval) :
  0 <= tv_usec stack < 1000000 -> 0 <= tv_usec t1 < 1000000 ->
  0 <= tv_sec stack -> tv_sec t1 < 2 ^ 63 ->
  0 < micros t1 - micros stack ->
  0 <= ifi_ibytes data < 2 ^ 32 -> 0 <= ifi_obytes data < 2 ^ 32 ->
  ifi_ibytes data * 1000000 < (2 ^ 32 - 1) * (micros t1 - micros stack) ->
  ifi_obytes data * 1000000 < (2 ^ 32 - 1) * (micros t1 - micros stack) ->
  exists ri ro : Z,
    iteration (initial_vars stack) data t1 = Some (ri, ro, backup data t1)
    /\ Z.abs (ri - ifi_ibytes data * 1000000 / (micros t1 - micros stack)) <= 1
    /\ Z.abs (ro - ifi_obytes data * 1000000 / (micros t1 - micros stack)) <= 1.
Proof.
  intros Hu0 Hu1 Hs0 Hs1 HE Hin Hout Hqi Hqo.
  destruct (pass_within_one (counters 0 0) data stack t1 Hu0 Hu1 Hs0 Hs1 HE)
    as [ri [ro [E [_ [_ [Bi Bo]]]]]];
    cbn [counters ifi_ibytes ifi_obytes]; rewrite ?Z.sub_0_r; try assumption.
  cbn [counters ifi_ibytes ifi_obytes] in Bi, Bo. rewrite Z.sub_0_r in Bi, Bo.
  exists ri, ro. split; [exact E|]. split; assumption.
Qed.

(** C3, as the program has it.  The example of the specification holds: 100 and
    300.  In general, for two consecutive snapshots with a positive
    elapsed time, counters that did not decrease and grew by less than
    2^32, and an exact quotient below 2^32 - 1, the pass is defined, keeps
    the new snapshot, and each rate is a value of [uint32_t], never
    negative, within one of the integral part of the exact quotient of the
    byte difference by the elapsed time: it is the quotient computed in
    double precision and truncated toward zero. *)
Theorem rates_within_one_of_exact_quotient :
  iteration (backup (counters 1000000 2000000) (at_time 0 0))
            (counters 1000100 2000300) (at_time 1 0)
  = Some (100, 300, backup (counters 1000100 2000300) (at_time 1 0))
  /\ forall (prev cur : ifmibdata) (t0 t1 : timeval),
      0 <= tv_usec t0 < 1000000 -> 0 <= tv_usec t1 < 1000000 ->
      0 <= tv_sec t0 -> tv_sec t1 < 2 ^ 63 ->
      0 < micros t1 - micros t0 ->
      0 <= ifi_ibytes cur - ifi_ibytes prev < 2 ^ 32 ->
      0 <= ifi_obytes cur - ifi_obytes prev < 2 ^ 32 ->
      (ifi_ibytes cur - ifi_ibytes prev) * 1000000
        < (2 ^ 32 - 1) * (micros t1 - micros t0) ->
      (ifi_obytes cur - ifi_obytes prev) * 1000000
        < (2 ^ 32 - 1) * (micros t1 - micros t0) ->
      rates_match_quotient prev cur t0 t1
      /\ exists ri ro : Z,
          iteration (backup prev t0) cur t1 = Some (ri, ro, backup cur t1)
          /\ ri < 2 ^ 32 /\ ro < 2 ^ 32.
Proof.
  split.
  - vm_compute. reflexivity.
  - intros prev cur t0 t1 Hu0 Hu1 Hs0 Hs1 HE Hin Hout Hqi Hqo.
    destruct (pass_within_one prev cur t0 t1 Hu0 Hu1 Hs0 Hs1 HE Hin Hout
                Hqi Hqo) as [ri [ro [E [Ri [Ro [Bi Bo]]]]]].
    split.
    + exists ri, ro, (backup cur t1).
      split; [exact E|]. split; [lia|]. split; [lia|]. split; assumption.
    + exists ri, ro. split; [exact E|]. lia.
Qed.

Lemma rates_within_one_of_exact_quotient_witness :
  rates_match_quotient (counters 1000000 2000000) (counters 473738796 2000300)
                       (at_time 10 500000) (at_time 12 822249).
Proof.
  apply (proj2 rates_within_one_of_exact_quotient
           (counters 1000000 2000000) (counters 473738796 2000300)
           (at_time 10 500000) (at_time 12 822249));
    cbn; lia.
Defined.

(** C3 as stated fails: between the two snapshots, one second apart, the
    inbound counter grows from 1000000 by 2^32 + 100 bytes; neither
    counter decreases.  The program reports 100 bytes per second inbound,
    while the byte difference divided by the elapsed time is 4294967396:
    the difference is taken modulo 2^32. *)
Lemma growth_of_2_32_is_lost :
  let prev := counters 1000000 2000000 in
  let cur := counters 4295967396 2000300 in
  let t0 := at_time 0 0 in
  let t1 := at_time 1 0 in
  0 < micros t1 - micros t0
  /\ ifi_ibytes prev <= ifi_ibytes cur /\ ifi_obytes prev <= ifi_obytes cur
  /\ iteration (backup prev t0) cur t1 = Some (100, 300, backup cur t1)
  /\ (ifi_ibytes cur - ifi_ibytes prev) * 1000000 / (micros t1 - micros t0)
     = 4294967396
  /\ ~ rates_match_quotient prev cur t0 t1.
Proof.
  cbv zeta.
  assert (E : iteration (backup (counters 1000000 2000000) (at_time 0 0))
                        (counters 4295967396 2000300) (at_time 1 0)
              = Some (100, 300,
                      backup (counters 4295967396 2000300) (at_time 1 0)))
    by (vm_compute; reflexivity).
  split; [vm_compute; reflexivity|]. split; [vm_compute; discriminate|].
  split; [vm_compute; discriminate|]. split; [exact E|].
  split; [vm_compute; reflexivity|].
  intros [ri [ro [v [H [_ [_ [Hi _]]]]]]].
  rewrite E in H. inversion H; subst. vm_compute in Hi. apply Hi. reflexivity.
Qed.

(** The double quotient truncated is not always the exact quotient
    truncated: 473738796 bytes in 2.322249 seconds are exactly 204000000
    bytes per second, and the program stores 203999999. *)
Example double_rounding_one_below :
  normalize 473738796 (at_time 2 322249) = Some 203999999
  /\ 473738796 * 1000000 / micros (at_time 2 322249) = 204000000
  /\ 473738796 * 1000000 mod micros (at_time 2 322249) = 0.
Proof. repeat split; vm_compute; reflexivity. Qed.

(** A quotient of 2^32 or more has no defined conversion: 5000 bytes in
    one microsecond. *)
Example rate_beyond_uint32_undefined :
  normalize 5000 (at_time 0 1) = None
  /\ Double.integral_part (Double.div (Double.of_Z 5000) (seconds (at_time 0 1)))
     = Some 5000000000.
Proof. split; vm_compute; reflexivity. Qed.

(** ** The start-up: what can go wrong and what a good start leaves *)

Lemma getifdata_name_none (sys : os) (j : Z) (w : world) :
  ifmd_name sys j = None ->
  getifdata_name sys j w
  = ({| stderr := (stderr w ++ [error_line sys "getifdata" 91 None])%list;
        calls := (calls w ++ [Sysctl_ifdata j])%list |}, Exit 1).
Proof.
  intros H. unfold getifdata_name, bind, log, error, eprint, exit. cbn.
  rewrite H. reflexivity.
Qed.

(** The loop of [getifrow] read backwards: from what it returns to what
    the rows it visited must have answered. *)
Lemma getifrow_from_ret (sys : os) (ifname : string) (fuel : nat) :
  forall (i num : Z) (w w' : world) (r : Z),
    (Z.to_nat (num + 1 - i) <= fuel)%nat ->
    getifrow_from sys ifname fuel i num w = (w', Ret r) ->
    (r = -1 /\ (forall j, i <= j <= num -> other_name sys ifname j)
     /\ w' = logged w (map Sysctl_ifdata (zrange i (Z.to_nat (num + 1 - i)))))
    \/ (i <= r <= num /\ ifmd_name sys r = Some ifname
        /\ (forall j, i <= j < r -> other_name sys ifname j)
        /\ w' = logged w (map Sysctl_ifdata (zrange i (S (Z.to_nat (r - i)))))).
Proof.
  induction fuel as [|fuel IH]; intros i num w w' r Hfuel H.
  - cbn in H. inversion H; subst. left.
    split; [reflexivity|]. split; [intros j Hj; lia|].
    replace (Z.to_nat (num + 1 - i)) with O by lia.
    cbn. rewrite logged_nil. reflexivity.
  - cbn [getifrow_from] in H.
    destruct (Z.leb_spec i num) as [Hle|Hgt].
    + unfold bind at 1 in H.
      destruct (ifmd_name sys i) as [nm|] eqn:Hnm.
      * rewrite (getifdata_name_some sys i nm w Hnm) in H.
        destruct (String.eqb_spec nm ifname) as [Heq|Hne].
        -- inversion H; subst. right.
           split; [lia|]. split; [exact Hnm|]. split; [intros j Hj; lia|].
           rewrite Z.sub_diag. reflexivity.
        -- destruct (Z.eqb_spec i INT_MAX) as [Hi|Hi]; [discriminate H|].
           apply IH in H; [|lia].
           assert (Hi' : other_name sys ifname i) by (exists nm; auto).
           destruct H as [[Hr [Hall Hw]]|[Hr [Hname [Hall Hw]]]].
           ++ left. split; [exact Hr|]. split.
              ** intros j Hj. destruct (Z.eq_dec j i) as [->|Hji]; [exact Hi'|].
                 apply Hall. lia.
              ** rewrite Hw, logged_logged.
                 replace (Z.to_nat (num + 1 - i))
                   with (S (Z.to_nat (num + 1 - (i + 1)))) by lia.
                 reflexivity.
           ++ right. split; [lia|]. split; [exact Hname|]. split.
              ** intros j Hj. destruct (Z.eq_dec j i) as [->|Hji]; [exact Hi'|].
                 apply Hall. lia.
              ** rewrite Hw, logged_logged.
                 replace (Z.to_nat (r - i))
                   with (S (Z.to_nat (r - (i + 1)))) by lia.
                 reflexivity.
      * rewrite (getifdata_name_none sys i w Hnm) in H. discriminate H.
    + inversion H; subst. left.
      split; [reflexivity|]. split; [intros j Hj; lia|].
      replace (Z.to_nat (num + 1 - i)) with O by lia.
      cbn. rewrite logged_nil. reflexivity.
Qed.

Lemma getifnumber_ret (sys : os) (w w' : world) (num : Z) :
  getifnumber sys w = (w', Ret num) ->
  exists n, ifcount sys = Some n /\ num = uint32 n
            /\ w' = logged w [Sysctl_ifcount].
Proof.
  unfold getifnumber, bind, log, ret, error, eprint, exit. cbn.
  destruct (ifcount sys) as [n|]; [|discriminate].
  intros H. inversion H; subst. exists n. repeat split.
Qed.

Lemma getifrow_ret (sys : os) (ifname : string) (w w' : world) (r : Z) :
  getifrow sys ifname w = (w', Ret r) ->
  exists n : Z,
    ifcount sys = Some n
    /\ ((r = -1
         /\ (forall j, 1 <= j <= uint32 n -> other_name sys ifname j)
         /\ w' = logged w (Sysctl_ifcount
                             :: map Sysctl_ifdata
                                  (zrange 1 (Z.to_nat (uint32 n)))))
        \/ (1 <= r <= uint32 n
            /\ ifmd_name sys r = Some ifname
            /\ (forall j, 1 <= j < r -> other_name sys ifname j)
            /\ w' = logged w (Sysctl_ifcount
                                :: map Sysctl_ifdata
                                     (zrange 1 (Z.to_nat r))))).
Proof.
  intros H. unfold getifrow in H. unfold bind at 1 in H.
  destruct (getifnumber sys w) as [w0 [num| |]] eqn:Hnum; try discriminate H.
  destruct (getifnumber_ret _ _ _ _ Hnum) as [n [Hn [-> ->]]].
  exists n. split; [exact Hn|].
  pose proof (uint32_range n) as Hrange.
  apply getifrow_from_ret in H; [|lia].
  destruct H as [[Hr [Hall Hw]]|[Hr [Hname [Hall Hw]]]].
  - left. split; [exact Hr|]. split; [exact Hall|].
    rewrite Hw, logged_logged.
    replace (Z.to_nat (uint32 n + 1 - 1)) with (Z.to_nat (uint32 n)) by lia.
    reflexivity.
  - right. split; [exact Hr|]. split; [exact Hname|]. split; [exact Hall|].
    rewrite Hw, logged_logged.
    replace (S (Z.to_nat (r - 1))) with (Z.to_nat r) by lia.
    reflexivity.
Qed.

(** X1. Whatever the interface table holds, a value that [getifrow]
    returns is either -1 or the number of a row: when it is -1, every row
    from 1 to the count answered with a name other than the one asked for;
    otherwise it lies between 1 and the count, that row carries the name
    asked for and all rows before it carry other names.  In both cases the
    queries made are the count and then the rows from 1 up to the last one
    looked at, in this order, and nothing else. *)
Theorem getifrow_returns_first_match_or_minus_1 :
  forall (sys : os) (ifname : string) (w w' : world) (r : Z),
    getifrow sys ifname w = (w', Ret r) ->
    exists n : Z,
      ifcount sys = Some n
      /\ ((r = -1
           /\ (forall j, 1 <= j <= uint32 n -> other_name sys ifname j)
           /\ w' = logged w (Sysctl_ifcount
                               :: map Sysctl_ifdata
                                    (zrange 1 (Z.to_nat (uint32 n)))))
          \/ (1 <= r <= uint32 n
              /\ ifmd_name sys r = Some ifname
              /\ (forall j, 1 <= j < r -> other_name sys ifname j)
              /\ w' = logged w (Sysctl_ifcount
                                  :: map Sysctl_ifdata
                                       (zrange 1 (Z.to_nat r))))).
Proof. intros sys ifname w w' r H. exact (getifrow_ret sys ifname w w' r H). Qed.

Lemma getifrow_returns_first_match_or_minus_1_witness :
  exists n : Z,
    ifcount demo_os = Some n
    /\ ((3 = -1
         /\ (forall j, 1 <= j <= uint32 n -> other_name demo_os "em1" j)
         /\ logged nothing_yet
              [Sysctl_ifcount; Sysctl_ifdata 1; Sysctl_ifdata 2; Sysctl_ifdata 3]
            = logged nothing_yet
                (Sysctl_ifcount
                   :: map Sysctl_ifdata (zrange 1 (Z.to_nat (uint32 n)))))
        \/ (1 <= 3 <= uint32 n
            /\ ifmd_name demo_os 3 = Some "em1"
            /\ (forall j, 1 <= j < 3 -> other_name demo_os "em1" j)
            /\ logged nothing_yet
                 [Sysctl_ifcount; Sysctl_ifdata 1; Sysctl_ifdata 2; Sysctl_ifdata 3]
               = logged nothing_yet
                   (Sysctl_ifcount :: map Sysctl_ifdata (zrange 1 (Z.to_nat 3))))).
Proof.
  apply (getifrow_returns_first_match_or_minus_1 demo_os "em1" nothing_yet).
  vm_compute. reflexivity.
Defined.

(** X2. When the query for the number of interfaces fails, [main] ends
    at once: the message of [perror] for [getifnumber], line 102, is the
    only line on the error stream, the exit status is 1, and the failed
    query is the only call made: no row is read, no handler installed, no
    file opened. *)
Theorem count_query_fails_exit_1 :
  forall (sys : os) (prog outfile digits inter : string)
         (prior : option string) (stack : timeval) (es : list event),
    digits_only digits = true ->
    ifcount sys = None ->
    main sys [prog; outfile; digits; inter] prior stack es
    = ({| stderr := ["getifnumber, line 102: " ++ strerror sys ++ "
"];
          calls := [Sysctl_ifcount] |}, Exit 1).
Proof.
  intros sys prog outfile digits inter prior stack es Hd Hc.
  unfold main, startup. unfold bind at 1.
  rewrite arguments_ok by exact Hd.
  unfold bind at 1. unfold getifrow. unfold bind at 1.
  unfold getifnumber, bind, log, error, eprint, exit. cbn.
  rewrite Hc. reflexivity.
Qed.

Lemma count_query_fails_exit_1_witness :
  main no_count_os ["ifstat"; "out.csv"; "1"; "em0"] None (at_time 0 0) []
  = ({| stderr := ["getifnumber, line 102: Operation not permitted
"];
        calls := [Sysctl_ifcount] |}, Exit 1).
Proof.
  apply (count_query_fails_exit_1 no_count_os "ifstat" "out.csv" "1" "em0");
    reflexivity.
Defined.

Lemma getifrow_from_fails (sys : os) (ifname : string) (fuel : nat) :
  forall (i num j : Z) (w : world),
    i <= j <= num -> j <= INT_MAX ->
    (Z.to_nat (j - i) < fuel)%nat ->
    ifmd_name sys j = None ->
    (forall k, i <= k < j -> other_name sys ifname k) ->
    getifrow_from sys ifname fuel i num w
    = ({| stderr := (stderr w ++ [error_line sys "getifdata" 91 None])%list;
          calls := (calls w
                      ++ map Sysctl_ifdata
                           (zrange i (S (Z.to_nat (j - i)))))%list |},
       Exit 1).
Proof.
  induction fuel as [|fuel IH]; intros i num j w Hj Hmax Hfuel Hnone Hbefore.
  - lia.
  - cbn [getifrow_from].
    destruct (Z.leb_spec i num) as [_|Hgt]; [|lia].
    destruct (Z.eq_dec i j) as [->|Hne].
    + unfold bind at 1. rewrite (getifdata_name_none sys j w Hnone).
      rewrite Z.sub_diag. reflexivity.
    + destruct (Hbefore i ltac:(lia)) as [nm [Hnm Hdiff]].
      unfold bind at 1. rewrite (getifdata_name_some sys i nm w Hnm).
      destruct (String.eqb_spec nm ifname) as [Heq|_]; [contradiction|].
      destruct (Z.eqb_spec i INT_MAX) as [Hi|_]; [lia|].
      rewrite (IH (i + 1) num j); try lia; auto.
      * cbn [logged stderr calls].
        replace (Z.to_nat (j - i)) with (S (Z.to_nat (j - (i + 1)))) by lia.
        cbn [zrange map]. rewrite <- List.app_assoc. reflexivity.
      * intros k Hk. apply Hbefore. lia.
Qed.

(** X3. When, during the lookup, the query for a row fails before any
    row with the name asked for has been seen, [main] ends there: the
    message of [perror] for [getifdata], line 91, is the only line on the
    error stream and the exit status is 1.  The rows after the failing one
    are not looked at, whatever their names, and no file is opened. *)
Theorem row_query_fails_exit_1 :
  forall (sys : os) (prog outfile digits inter : string)
         (prior : option string) (stack : timeval) (es : list event)
         (n j : Z),
    digits_only digits = true ->
    ifcount sys = Some n ->
    1 <= j <= uint32 n -> j <= INT_MAX ->
    (forall k, 1 <= k < j -> other_name sys inter k) ->
    ifmd_name sys j = None ->
    main sys [prog; outfile; digits; inter] prior stack es
    = ({| stderr := ["getifdata, line 91: " ++ strerror sys ++ "
"];
          calls := Sysctl_ifcount :: map Sysctl_ifdata (zrange 1 (Z.to_nat j)) |},
       Exit 1).
Proof.
  intros sys prog outfile digits inter prior stack es n j Hd Hc Hj Hmax
         Hbefore Hnone.
  unfold main, startup. unfold bind at 1.
  rewrite arguments_ok by exact Hd.
  unfold bind at 1. unfold getifrow. unfold bind at 1.
  unfold getifnumber. unfold bind at 1. unfold log at 1. rewrite Hc.
  unfold ret at 1.
  rewrite (getifrow_from_fails sys inter (Z.to_nat (uint32 n)) 1 (uint32 n) j);
    try lia; auto.
  cbn [stderr calls nothing_yet app].
  replace (S (Z.to_nat (j - 1))) with (Z.to_nat j) by lia.
  reflexivity.
Qed.

Lemma row_query_fails_exit_1_witness :
  main broken_row_os ["ifstat"; "out.csv"; "1"; "em0"] None (at_time 0 0) []
  = ({| stderr := ["getifdata, line 91: No such file or directory
"];
        calls := [Sysctl_ifcount; Sysctl_ifdata 1; Sysctl_ifdata 2] |}, Exit 1).
Proof.
  apply (row_query_fails_exit_1 broken_row_os "ifstat" "out.csv" "1" "em0"
           None (at_time 0 0) [] 3 2).
  - reflexivity.
  - reflexivity.
  - vm_compute. split; discriminate.
  - vm_compute. discriminate.
  - intros k Hk. assert (k = 1) as -> by lia.
    exists "lo0". split; [reflexivity|discriminate].
  - reflexivity.
Defined.

(** X4. When the interface is found but the output file cannot be opened
    for writing, [main] prints the message of [perror] for [main], line
    181, and exits with status 1.  By then both signal handlers are
    installed; the header is not written, and no snapshot is taken. *)
Theorem fopen_fails_exit_1 :
  forall (sys : os) (prog outfile digits inter : string)
         (prior : option string) (stack : timeval) (es : list event)
         (n k : Z),
    digits_only digits = true ->
    ifcount sys = Some n -> 0 <= n <= INT_MAX -> 1 <= k <= n ->
    ifmd_name sys k = Some inter ->
    (forall j, 1 <= j < k -> other_name sys inter j) ->
    fopen_ok sys outfile = false ->
    main sys [prog; outfile; digits; inter] prior stack es
    = ({| stderr := ["main, line 181: " ++ strerror sys ++ "
"];
          calls := (Sysctl_ifcount :: map Sysctl_ifdata (zrange 1 (Z.to_nat k)))
                   ++ [Install_handler SIGINT; Install_handler SIGTERM;
                       Fopen_w outfile] |},
       Exit 1).
Proof.
  intros sys prog outfile digits inter prior stack es n k Hd Hn Hrange Hk Hname
         Hbefore Hopen.
  unfold main, startup. unfold bind at 1.
  rewrite arguments_ok by exact Hd.
  unfold bind at 1.
  rewrite (getifrow_found sys inter n k nothing_yet Hn Hrange Hk Hname Hbefore).
  unfold bind at 1.
  destruct (Z.ltb_spec k 1) as [Hlt|_]; [lia|].
  cbn -[header zrange]. unfold fopen_w, bind, log, ret, error, eprint, exit.
  cbn -[header zrange]. rewrite Hopen. cbn -[header zrange].
  rewrite <- !List.app_assoc. reflexivity.
Qed.

Lemma fopen_fails_exit_1_witness :
  main read_only_os ["ifstat"; "/out.csv"; "1"; "em0"] (Some "old content")
       (at_time 0 0) []
  = ({| stderr := ["main, line 181: Read-only file system
"];
        calls := [Sysctl_ifcount; Sysctl_ifdata 1; Sysctl_ifdata 2;
                  Install_handler SIGINT; Install_handler SIGTERM;
                  Fopen_w "/out.csv"] |}, Exit 1).
Proof.
  apply (fopen_fails_exit_1 read_only_os "ifstat" "/out.csv" "1" "em0"
           (Some "old content") (at_time 0 0) [] 3 2).
  - reflexivity.
  - reflexivity.
  - unfold INT_MAX. lia.
  - lia.
  - reflexivity.
  - intros j Hj. assert (j = 1) as -> by lia.
    exists "lo0". split; [reflexivity|discriminate].
  - reflexivity.
Defined.



Lemma step_row (sys : os) (p : process) (e : event) :
  row (step sys p e) = row p.
Proof.
  destruct e as [a|]; cbn [step].
  - destruct (pc p); try reflexivity.
    + unfold sample. destruct (reading a) as [data|]; [|reflexivity].
      destruct (iteration (vars p) data (now a)) as [[[ci co] v]|];
        [|reflexivity].
      destruct (strftime (localtime sys (tv_sec (now a)))); reflexivity.
    + unfold check. destruct (quit p); reflexivity.
    + unfold enter_sleep. destruct (usleep_arg (interval p)); reflexivity.
  - unfold deliver. destruct (pc p); reflexivity.
Qed.

(** What a start-up that returns has read from the command line and
    from the interface table. *)
Lemma startup_row (sys : os) (argv : list string) (prior : option string)
    (stack : timeval) (w : world) (p : process) :
  startup sys argv prior stack nothing_yet = (w, Ret p) ->
  digits_only (nth 2 argv "") = true
  /\ interval p = int32 (strtol (nth 2 argv ""))
  /\ 1 <= row p
  /\ stderr w = []
  /\ exists w1, getifrow sys (nth 3 argv "") nothing_yet = (w1, Ret (row p)).
Proof.
  unfold startup. unfold bind at 1. unfold arguments.
  destruct (negb (List.length argv =? 4)%nat) eqn:Hlen;
    [rewrite usage_exits; discriminate|].
  destruct (digits_only (nth 2 argv "")) eqn:Hd;
    [|rewrite usage_exits; discriminate].
  unfold ret at 1. unfold bind at 1.
  destruct (getifrow sys (nth 3 argv "") nothing_yet) as [w1 [r| |]] eqn:Hrow;
    try discriminate.
  assert (Herr : stderr w1 = []).
  { destruct (getifrow_ret _ _ _ _ _ Hrow) as [n [_ [[_ [_ ->]]|[_ [_ [_ ->]]]]]];
      reflexivity. }
  unfold bind at 1.
  destruct (Z.ltb_spec r 1) as [Hlt|Hge].
  - unfold error, bind, eprint, exit. cbn. discriminate.
  - cbn -[header]. unfold fopen_w, bind, log, ret, error, eprint, exit.
    cbn -[header]. destruct (fopen_ok sys (nth 1 argv "")); cbn -[header];
      [|discriminate].
    intros H. inversion H. subst. cbn -[header].
    split; [reflexivity|]. split; [reflexivity|]. split; [exact Hge|].
    split; [exact Herr|]. exists w1. reflexivity.
Qed.

(** ** The interval argument, the sleep and the error message *)

Lemma digits_only_all_chars (s : string) :
  digits_only s = all_chars isdigit s.
Proof.
  induction s as [|c s IH]; [reflexivity|].
  cbn [digits_only all_chars]. rewrite IH. destruct (isdigit c); reflexivity.
Qed.

(** [strtol_digits] on the digits of a numeral computes what the
    standard library's reader of numerals computes. *)
Lemma strtol_digits_acc (d : Decimal.uint) :
  forall acc : positive,
    strtol_digits (Z.pos acc) (NilEmpty.string_of_uint d)
    = Z.pos (Pos.of_uint_acc d acc).
Proof.
  induction d; intros acc; cbn [NilEmpty.string_of_uint Pos.of_uint_acc];
    [reflexivity|..];
    cbn [strtol_digits];
    match goal with
    | |- (if isdigit ?c then _ else _) = _ =>
        change (isdigit c) with true; cbv iota;
        change (code c - 48) with (Z.of_N (N_of_ascii c) - 48);
        cbn [N_of_ascii]
    end.
  all: rewrite <- IHd; apply f_equal2; [|reflexivity].
  all: match goal with
       | |- _ + (?k - 48) = _ =>
           let v := eval vm_compute in k in change k with v
       end; lia.
Qed.

Lemma strtol_digits_of_uint (d : Decimal.uint) :
  strtol_digits 0 (NilEmpty.string_of_uint d) = Z.of_N (Pos.of_uint d).
Proof.
  induction d; cbn [NilEmpty.string_of_uint Pos.of_uint];
    [reflexivity|..];
    cbn [strtol_digits];
    match goal with
    | |- (if isdigit ?c then _ else _) = _ =>
        change (isdigit c) with true; cbv iota
    end.
  - exact IHd.
  - apply (strtol_digits_acc d 1).
  - apply (strtol_digits_acc d 2).
  - apply (strtol_digits_acc d 3).
  - apply (strtol_digits_acc d 4).
  - apply (strtol_digits_acc d 5).
  - apply (strtol_digits_acc d 6).
  - apply (strtol_digits_acc d 7).
  - apply (strtol_digits_acc d 8).
  - apply (strtol_digits_acc d 9).
Qed.

(** A string that starts with a digit has no white space and no sign for
    [strtol] to skip. *)
Lemma strtol_digit_first (c : ascii) (r : string) :
  isdigit c = true ->
  strtol (String c r) = Z.min LONG_MAX (strtol_digits 0 (String c r)).
Proof.
  intros H. unfold strtol.
  assert (Hs : isspace c = false).
  { unfold isdigit in H. unfold isspace.
    apply andb_true_iff in H. destruct H as [H1 H2].
    apply Z.leb_le in H1. apply Z.leb_le in H2.
    apply orb_false_iff. split.
    - apply Z.eqb_neq. lia.
    - apply andb_false_iff. right. apply Z.leb_gt. lia. }
  cbn [skip_space]. rewrite Hs.
  destruct c as [[] [] [] [] [] [] [] []]; try reflexivity;
    vm_compute in H; discriminate H.
Qed.

Lemma strtol_digits_only (s : string) :
  digits_only s = true -> strtol s = Z.min LONG_MAX (strtol_digits 0 s).
Proof.
  destruct s as [|c r]; [reflexivity|].
  cbn [digits_only]. destruct (isdigit c) eqn:Hc; [|discriminate].
  intros _. apply strtol_digit_first. exact Hc.
Qed.

Lemma show_int_nonneg (n : Z) :
  0 <= n ->
  exists d, show_int n = NilEmpty.string_of_uint d
            /\ Z.of_N (Pos.of_uint d) = n.
Proof.
  intros H. destruct n as [|p|p]; [| |lia].
  - exists (Decimal.D0 Decimal.Nil). split; reflexivity.
  - exists (Pos.to_uint p). split.
    + unfold show_int. cbn [Z.to_int NilZero.string_of_int].
      unfold NilZero.string_of_uint.
      destruct (Pos.to_uint p) eqn:E; try reflexivity.
      exfalso. exact (to_uint_not_nil p E).
    + rewrite DecimalPos.Unsigned.of_to. reflexivity.
Qed.

(** X7. An interval written in decimal is read back as itself: for every
    number [n] that is not negative, its decimal numeral goes through the
    digit test of lines 157-161, [strtol] returns [n] (or [LONG_MAX] when
    [n] is larger), and the interval kept is that value converted to
    [int]; for [n] up to [INT_MAX] the interval is [n] itself. *)
Theorem decimal_interval_is_read_back :
  forall (n : Z) (prog outfile inter : string) (w : world),
    0 <= n ->
    digits_only (show_int n) = true
    /\ strtol (show_int n) = Z.min LONG_MAX n
    /\ arguments [prog; outfile; show_int n; inter] w
       = (w, Ret (outfile, int32 (Z.min LONG_MAX n), inter))
    /\ (n <= INT_MAX ->
        arguments [prog; outfile; show_int n; inter] w
        = (w, Ret (outfile, n, inter))).
Proof.
  intros n prog outfile inter w Hn.
  destruct (show_int_nonneg n Hn) as [d [Hd Hv]].
  assert (Hdig : digits_only (show_int n) = true).
  { rewrite digits_only_all_chars, Hd. apply string_of_uint_chars. }
  assert (Hval : strtol (show_int n) = Z.min LONG_MAX n).
  { rewrite strtol_digits_only by exact Hdig.
    rewrite Hd, strtol_digits_of_uint, Hv. reflexivity. }
  split; [exact Hdig|]. split; [exact Hval|].
  assert (Hargs : arguments [prog; outfile; show_int n; inter] w
                  = (w, Ret (outfile, int32 (Z.min LONG_MAX n), inter))).
  { rewrite arguments_ok by exact Hdig. rewrite Hval. reflexivity. }
  split; [exact Hargs|].
  intros Hmax. rewrite Hargs.
  unfold INT_MAX in Hmax. unfold LONG_MAX.
  rewrite Z.min_r by lia. rewrite int32_small by lia. reflexivity.
Qed.

Lemma decimal_interval_is_read_back_witness :
  digits_only (show_int 86400) = true
  /\ strtol (show_int 86400) = Z.min LONG_MAX 86400
  /\ arguments ["ifstat"; "out.csv"; show_int 86400; "em0"] nothing_yet
     = (nothing_yet, Ret ("out.csv", int32 (Z.min LONG_MAX 86400), "em0"))
  /\ (86400 <= INT_MAX ->
      arguments ["ifstat"; "out.csv"; show_int 86400; "em0"] nothing_yet
      = (nothing_yet, Ret ("out.csv", 86400, "em0"))).
Proof.
  apply (decimal_interval_is_read_back 86400 "ifstat" "out.csv" "em0"
           nothing_yet).
  lia.
Defined.

(** X8. The argument of [usleep] in line 228 is defined exactly for the
    intervals from -2147 to 2147: there both products fit an [int] and the
    argument is the interval in microseconds, converted to the unsigned
    type of [usleep]; outside this range the multiplication overflows. *)
Theorem usleep_defined_up_to_2147_seconds :
  forall n : Z,
    usleep_arg n
    = if (-2147 <=? n) && (n <=? 2147)
      then Some ((n * 1000000) mod 2 ^ 32) else None.
Proof.
  intros n. unfold usleep_arg, uint32, INT_MIN, INT_MAX. cbv zeta.
  destruct (Z.leb_spec (-2147) n) as [H1|H1];
    destruct (Z.leb_spec n 2147) as [H2|H2]; cbn [andb].
  - replace ((-2147483648 <=? n * 1000) && (n * 1000 <=? 2147483647)
             && (-2147483648 <=? n * 1000 * 1000)
             && (n * 1000 * 1000 <=? 2147483647)) with true.
    + apply f_equal. apply f_equal2; [ring|reflexivity].
    + symmetry. rewrite !andb_true_iff. repeat split; apply Z.leb_le; lia.
  - replace (n * 1000 * 1000 <=? 2147483647) with false.
    + rewrite andb_false_r. reflexivity.
    + symmetry. apply Z.leb_gt. lia.
  - replace (-2147483648 <=? n * 1000 * 1000) with false.
    + rewrite andb_false_r. reflexivity.
    + symmetry. apply Z.leb_gt. lia.
  - lia.
Qed.

Lemma every_sleep_is_the_interval_witness :
  exists (w : world) (p : process),
    main demo_os ["ifstat"; "out.csv"; "2147"; "em0"] None (at_time 0 0)
         (ticks [first_answer; first_answer; first_answer; first_answer;
                 second_answer; second_answer; second_answer]) = (w, Ret p)
    /\ Forall (eq (interval p * 1000000)) (naps p).
Proof.
  destruct (main demo_os ["ifstat"; "out.csv"; "2147"; "em0"] None (at_time 0 0)
              (ticks [first_answer; first_answer; first_answer; first_answer;
                      second_answer; second_answer; second_answer]))
    as [w [p|s|]] eqn:Hm.
  - exists w, p. split; [reflexivity|].
    apply (every_sleep_is_the_interval _ _ _ _ _ _ _ Hm).
    vm_compute in Hm. inversion Hm. cbn. lia.
  - vm_compute in Hm. discriminate Hm.
  - vm_compute in Hm. discriminate Hm.
Defined.

Lemma record_before_every_sleep_witness :
  exists (w : world) (p : process),
    main demo_os demo_argv None (at_time 0 0)
         (ticks [first_answer; first_answer; first_answer]) = (w, Ret p)
    /\ (List.length (naps p) <= rounds p)%nat.
Proof.
  destruct (main demo_os demo_argv None (at_time 0 0)
              (ticks [first_answer; first_answer; first_answer]))
    as [w [p|s|]] eqn:Hm.
  - exists w, p. split; [reflexivity|].
    exact (record_before_every_sleep _ _ _ _ _ _ _ Hm).
  - vm_compute in Hm. discriminate Hm.
  - vm_compute in Hm. discriminate Hm.
Defined.

Lemma string_append_assoc (a b c : string) : (a ++ b) ++ c = a ++ b ++ c.
Proof.
  induction a as [|x a IH]; cbn; [reflexivity|]. rewrite IH. reflexivity.
Qed.

(** X11. [error] never returns: it prints one line and exits with status
    1, making no call of the system.  For a function name of at most 45
    characters and any line number that is an [int], the 64 bytes of its
    buffer hold the whole prefix, so the line is the function name, the
    line number, a colon, and then the message given or, when none is
    given, the text for [errno], ended by a line feed. *)
Theorem error_prints_one_line_and_exits_1 :
  forall (A : Type) (sys : os) (func : string) (line : Z)
         (msg : option string) (w : world),
    (String.length func <= 45)%nat -> INT_MIN <= line <= INT_MAX ->
    @error A sys func line msg w
    = ({| stderr := (stderr w
                       ++ [(func ++ ", line " ++ show_int line ++ ": "
                              ++ match msg with
                                 | Some m => m
                                 | None => strerror sys
                                 end ++ "
")%string])%list;
          calls := calls w |}, Exit 1).
Proof.
  intros A sys func line msg w Hf Hl.
  unfold error, bind, eprint, exit. cbn [stderr calls].
  apply f_equal2; [|reflexivity]. apply f_equal2; [|reflexivity].
  apply f_equal. apply f_equal2; [|reflexivity].
  unfold error_line, truncate.
  rewrite substring_all.
  - destruct msg; rewrite !string_append_assoc; reflexivity.
  - rewrite !length_append.
    pose proof (show_int_length line) as H.
    unfold INT_MIN, INT_MAX in Hl.
    specialize (H ltac:(lia)). cbn [String.length]. lia.
Qed.

Lemma error_prints_one_line_and_exits_1_witness :
  @error Z demo_os "main" 170 (Some "Couldn't get interface") nothing_yet
  = ({| stderr := ["main, line 170: Couldn't get interface
"];
        calls := [] |}, Exit 1).
Proof.
  apply (error_prints_one_line_and_exits_1 Z demo_os "main" 170
           (Some "Couldn't get interface") nothing_yet).
  - cbn. lia.
  - unfold INT_MIN, INT_MAX. lia.
Defined.

(** ** The loop: how it goes round and how it ends *)

Lemma run_app (sys : os) (p : process) (es later : list event) :
  run sys p (es ++ later) = run sys (run sys p es) later.
Proof. unfold run. apply fold_left_app. Qed.

Lemma run_stopped (sys : os) (es : list event) :
  forall (p : process) (s : Z), pc p = Stopped s -> run sys p es = p.
Proof.
  induction es as [|e es IH]; intros p s H; [reflexivity|].
  rewrite run_cons, (step_stopped sys p e s H). apply (IH p s H).
Qed.

Lemma step_ends_rightly (sys : os) (p : process) (e : event) :
  ends_rightly sys p -> ends_rightly sys (step sys p e).
Proof.
  unfold ends_rightly. intros H.
  destruct e as [a|]; cbn [step].
  - destruct (pc p) eqn:Hpc.
    + destruct H as [Ho He]. unfold sample.
      destruct (reading a) as [data|].
      * destruct (iteration (vars p) data (now a)) as [[[ci co] v]|];
          [destruct (strftime (localtime sys (tv_sec (now a)))) as [t|]|];
          cbn; auto.
      * cbn. split; [reflexivity|]. right. split; [reflexivity|].
        rewrite He. reflexivity.
    + destruct H as [Ho He]. unfold check.
      destruct (quit p) eqn:Hq; cbn; auto.
    + unfold enter_sleep. destruct (usleep_arg (interval p)); cbn; exact H.
    + cbn. exact H.
    + destruct H as [Ho [Hq He]]. cbn. split; [reflexivity|]. left. auto.
    + rewrite Hpc. exact H.
    + rewrite Hpc. exact H.
  - unfold deliver. destruct (pc p) eqn:Hpc; cbn; try rewrite Hpc;
      try exact H.
    destruct H as [Ho [Hq He]]. auto.
Qed.

Lemma run_ends_rightly (sys : os) (es : list event) :
  forall p, ends_rightly sys p -> ends_rightly sys (run sys p es).
Proof.
  induction es as [|e es IH]; intros p H; [exact H|].
  rewrite run_cons. apply IH. apply step_ends_rightly. exact H.
Qed.

Lemma startup_errors (sys : os) (argv : list string) (prior : option string)
    (stack : timeval) (w : world) (p : process) :
  startup sys argv prior stack nothing_yet = (w, Ret p) -> errors p = [].
Proof.
  unfold startup. unfold bind at 1.
  destruct (arguments argv nothing_yet) as [w1 [[[outfile itv] inter]| |]];
    try discriminate.
  unfold bind at 1.
  destruct (getifrow sys inter w1) as [w2 [r| |]]; try discriminate.
  unfold bind at 1.
  destruct (r <? 1).
  - unfold error, bind, eprint, exit. cbn. discriminate.
  - cbn -[header]. unfold fopen_w, bind, log, ret, error, eprint, exit.
    cbn -[header]. destruct (fopen_ok sys outfile); cbn -[header];
      [|discriminate].
    intros H. inversion H. reflexivity.
Qed.

Lemma main_ends_rightly (sys : os) (argv : list string)
    (prior : option string) (stack : timeval) (es : list event)
    (w : world) (p : process) :
  main sys argv prior stack es = (w, Ret p) -> ends_rightly sys p.
Proof.
  intros H. unfold main in H.
  destruct (startup sys argv prior stack nothing_yet) as [w0 [p0| |]] eqn:Hs;
    try discriminate.
  inversion H; subst. clear H.
  apply run_ends_rightly.
  destruct (startup_ret _ _ _ _ _ _ Hs) as [Hpc [_ [_ [_ [Hopen _]]]]].
  unfold ends_rightly. rewrite Hpc. split; [exact Hopen|].
  exact (startup_errors _ _ _ _ _ _ Hs).
Qed.

(** X12. How a run of [main] that reached the loop can end.  The output
    file is closed exactly when the process has stopped.  It stops with
    status 0 only with [quit] set, that is, after a signal, and then
    nothing was printed on the error stream; it stops with status 1 only
    after a failed query of the counters, whose message is then the one
    line on the error stream.  Once the file is closed nothing changes any
    more, whatever happens next. *)
Theorem exit_0_after_signal_exit_1_after_failed_query :
  forall (sys : os) (argv : list string) (prior : option string)
         (stack : timeval) (es : list event) (w : world) (p : process),
    main sys argv prior stack es = (w, Ret p) ->
    (csv_open p = false <-> exists s, pc p = Stopped s)
    /\ (forall s, pc p = Stopped s ->
          (s = 0 /\ quit p = true /\ errors p = [])
          \/ (s = 1
              /\ errors p = ["getifdata, line 91: " ++ strerror sys ++ "
"]))
    /\ (forall later : list event,
          csv_open p = false ->
          main sys argv prior stack (es ++ later) = (w, Ret p)).
Proof.
  intros sys argv prior stack es w p H.
  pose proof (main_ends_rightly _ _ _ _ _ _ _ H) as E.
  unfold ends_rightly in E.
  assert (Hiff : csv_open p = false <-> exists s, pc p = Stopped s).
  { split.
    - intros Hc.
      destruct (pc p) eqn:Hpc; try (destruct E as [E _]; congruence).
      exists status. reflexivity.
    - intros [s Hs]. rewrite Hs in E. destruct E as [E _]. exact E. }
  split; [exact Hiff|]. split.
  - intros s Hs. rewrite Hs in E. destruct E as [_ E]. exact E.
  - intros later Hc. apply Hiff in Hc. destruct Hc as [s Hs].
    unfold main in *.
    destruct (startup sys argv prior stack nothing_yet) as [w0 [p0| |]];
      try discriminate.
    inversion H; subst. rewrite run_app.
    rewrite (run_stopped sys later _ s Hs). reflexivity.
Qed.

Lemma exit_0_after_signal_exit_1_after_failed_query_witness :
  exists (w : world) (p : process),
    main demo_os demo_argv None (at_time 0 0)
         [Tick first_answer; Signal; Tick first_answer; Tick first_answer]
    = (w, Ret p)
    /\ (csv_open p = false <-> exists s, pc p = Stopped s).
Proof.
  destruct (main demo_os demo_argv None (at_time 0 0)
              [Tick first_answer; Signal; Tick first_answer; Tick first_answer])
    as [w [p|s|]] eqn:Hm.
  - exists w, p. split; [reflexivity|].
    exact (proj1 (exit_0_after_signal_exit_1_after_failed_query
                    _ _ _ _ _ _ _ Hm)).
  - vm_compute in Hm. discriminate Hm.
  - vm_compute in Hm. discriminate Hm.
Defined.

Lemma tick_keeps_looping (sys : os) (p : process) (a : answer) :
  keeps_looping p -> keeps_looping (step sys p (Tick a)).
Proof.
  unfold keeps_looping. intros [Hq H]. cbn [step].
  destruct (pc p) eqn:Hpc.
  - unfold sample. destruct (reading a) as [data|].
    + destruct (iteration (vars p) data (now a)) as [[[ci co] v]|];
        [destruct (strftime (localtime sys (tv_sec (now a)))) as [t|]|];
        cbn; auto.
    + cbn. auto.
  - unfold check. rewrite Hq. cbn. auto.
  - unfold enter_sleep. destruct (usleep_arg (interval p)); cbn; auto.
  - cbn. auto.
  - destruct H.
  - rewrite Hpc. auto.
  - rewrite Hpc. auto.
Qed.

Lemma ticks_keep_looping (sys : os) (l : list answer) :
  forall p, keeps_looping p -> keeps_looping (run sys p (ticks l)).
Proof.
  induction l as [|a l IH]; intros p K; [exact K|].
  cbn [ticks map]. rewrite run_cons. apply IH.
  apply tick_keeps_looping. exact K.
Qed.

(** X13. Without a signal the program does not end by itself: as long as
    no SIGINT or SIGTERM is delivered, [quit] stays clear, line 225 is
    never taken, the file is never flushed and closed by lines 231-232
    and [main] never returns 0.  The only way the file gets closed then is
    the exit with status 1 after a failed query. *)
Theorem without_signal_the_loop_is_not_left :
  forall (sys : os) (argv : list string) (prior : option string)
         (stack : timeval) (l : list answer) (w : world) (p : process),
    main sys argv prior stack (ticks l) = (w, Ret p) ->
    quit p = false /\ pc p <> AtDrain /\ pc p <> Stopped 0
    /\ (csv_open p = false -> pc p = Stopped 1).
Proof.
  intros sys argv prior stack l w p H.
  pose proof (main_ends_rightly _ _ _ _ _ _ _ H) as E.
  unfold main in H.
  destruct (startup sys argv prior stack nothing_yet) as [w0 [p0| |]] eqn:Hs;
    try discriminate.
  inversion H; subst. clear H.
  destruct (startup_ret _ _ _ _ _ _ Hs) as [Hpc [Hq _]].
  assert (K : keeps_looping (run sys p0 (ticks l))).
  { apply ticks_keep_looping. unfold keeps_looping. rewrite Hq, Hpc. auto. }
  unfold keeps_looping in K. destruct K as [Kq K].
  split; [exact Kq|].
  split; [intros E'; rewrite E' in K; exact K|].
  split; [intros E'; rewrite E' in K; exact K|].
  intros Hc. unfold ends_rightly in E.
  destruct (pc (run sys p0 (ticks l))) eqn:Hp;
    try (destruct E as [E _]; congruence).
  destruct E as [_ [[-> _]|[-> _]]]; [destruct K|reflexivity].
Qed.

Lemma without_signal_the_loop_is_not_left_witness :
  exists (w : world) (p : process),
    main demo_os demo_argv None (at_time 0 0)
         (ticks [first_answer; first_answer; first_answer; first_answer;
                 second_answer; second_answer; second_answer]) = (w, Ret p)
    /\ quit p = false /\ pc p <> AtDrain /\ pc p <> Stopped 0
    /\ (csv_open p = false -> pc p = Stopped 1).
Proof.
  destruct (main demo_os demo_argv None (at_time 0 0)
              (ticks [first_answer; first_answer; first_answer; first_answer;
                      second_answer; second_answer; second_answer]))
    as [w [p|s|]] eqn:Hm.
  - exists w, p. split; [reflexivity|].
    exact (without_signal_the_loop_is_not_left _ _ _ _ _ _ _ Hm).
  - vm_compute in Hm. discriminate Hm.
  - vm_compute in Hm. discriminate Hm.
Defined.

Lemma grown_from_same (p q : process) :
  csv q = csv p -> rounds q = rounds p -> naps q = naps p -> grown_from p q.
Proof.
  intros Hc Hr Hn. exists [], []. rewrite !List.app_nil_r. cbn.
  rewrite Nat.add_0_r. auto.
Qed.

Lemma grown_from_trans (p q r : process) :
  grown_from p q -> grown_from q r -> grown_from p r.
Proof.
  intros [l1 [m1 [C1 [R1 N1]]]] [l2 [m2 [C2 [R2 N2]]]].
  exists (l1 ++ l2)%list, (m1 ++ m2)%list.
  rewrite C2, C1, R2, R1, N2, N1, !List.app_assoc, List.length_app.
  repeat split. lia.
Qed.

Lemma step_grown_from (sys : os) (p : process) (e : event) :
  grown_from p (step sys p e).
Proof.
  destruct e as [a|]; cbn [step].
  - destruct (pc p) eqn:Hpc.
    + unfold sample. destruct (reading a) as [data|].
      * destruct (iteration (vars p) data (now a)) as [[[ci co] v]|];
          [destruct (strftime (localtime sys (tv_sec (now a)))) as [t|]|];
          try (apply grown_from_same; reflexivity).
        exists [data_line t ci co], []. cbn.
        rewrite List.app_nil_r. repeat split. lia.
      * apply grown_from_same; reflexivity.
    + unfold check. destruct (quit p); apply grown_from_same; reflexivity.
    + unfold enter_sleep. destruct (usleep_arg (interval p)) as [us|];
        [|apply grown_from_same; reflexivity].
      exists [], [us]. cbn. rewrite List.app_nil_r. repeat split. lia.
    + apply grown_from_same; reflexivity.
    + apply grown_from_same; reflexivity.
    + apply grown_from_same; reflexivity.
    + apply grown_from_same; reflexivity.
  - unfold deliver. destruct (pc p); apply grown_from_same; reflexivity.
Qed.

Lemma run_grown_from (sys : os) (es : list event) :
  forall p, grown_from p (run sys p es).
Proof.
  induction es as [|e es IH]; intros p.
  - apply grown_from_same; reflexivity.
  - rewrite run_cons.
    apply (grown_from_trans p (step sys p e)); [apply step_grown_from|apply IH].
Qed.

Lemma step_winding_down (sys : os) (r n : nat) (p : process) (e : event) :
  winding_down r n p -> winding_down r n (step sys p e).
Proof.
  unfold winding_down. intros [Hq [Hr Hn]].
  destruct e as [a|]; cbn [step].
  - destruct (pc p) eqn:Hpc; cbn [records_left naps_left] in *.
    + unfold sample. destruct (reading a) as [data|].
      * destruct (iteration (vars p) data (now a)) as [[[ci co] v]|];
          [destruct (strftime (localtime sys (tv_sec (now a)))) as [t|]|];
          cbn; repeat split; auto; lia.
      * cbn. repeat split; auto; lia.
    + unfold check. rewrite Hq. cbn. repeat split; auto; lia.
    + unfold enter_sleep. destruct (usleep_arg (interval p)); cbn;
        repeat split; auto; try lia.
      rewrite List.length_app. cbn. lia.
    + cbn. repeat split; auto; lia.
    + cbn. repeat split; auto; lia.
    + rewrite Hpc. cbn. repeat split; auto.
    + rewrite Hpc. cbn. repeat split; auto.
  - unfold deliver. destruct (pc p) eqn:Hpc; cbn; try rewrite Hpc; cbn;
      repeat split; auto.
Qed.

Lemma run_winding_down (sys : os) (r n : nat) (es : list event) :
  forall p, winding_down r n p -> winding_down r n (run sys p es).
Proof.
  induction es as [|e es IH]; intros p H; [exact H|].
  rewrite run_cons. apply IH. apply step_winding_down. exact H.
Qed.

(** X14. After a signal has been delivered to a process inside the loop,
    whatever happens next and for however long: [quit] stays set (nothing
    in the program clears it), at most one more record is written and
    [usleep] is called at most one more time.  When the signal arrives
    between the write of a record and the test of line 224, nothing at
    all is added to the file and no sleep follows. *)
Theorem after_signal_at_most_one_more_record :
  forall (sys : os) (p : process) (es : list event),
    in_loop p = true ->
    let q := run sys (deliver p) es in
    quit q = true
    /\ (rounds q <= S (rounds p))%nat
    /\ (List.length (naps q) <= S (List.length (naps p)))%nat
    /\ (pc p = AtCheck -> csv q = csv p /\ naps q = naps p).
Proof.
  intros sys p es Hloop q.
  assert (W : winding_down (rounds p + records_left (pc (deliver p)))
                           (List.length (naps p) + naps_left (pc (deliver p)))
                           q).
  { apply run_winding_down. unfold winding_down, deliver, in_loop in *.
    destruct (pc p) eqn:Hpc; try discriminate Hloop; cbn; try rewrite Hpc;
      cbn; repeat split; lia. }
  destruct W as [Wq [Wr Wn]].
  split; [exact Wq|].
  assert (R : (records_left (pc (deliver p)) <= 1)%nat)
    by (destruct (pc (deliver p)); cbn; lia).
  assert (N : (naps_left (pc (deliver p)) <= 1)%nat)
    by (destruct (pc (deliver p)); cbn; lia).
  split; [lia|]. split; [lia|].
  intros Hpc.
  assert (D : deliver p = signalhandler p).
  { unfold deliver. rewrite Hpc. reflexivity. }
  rewrite D in Wr, Wn. cbn [pc signalhandler] in Wr, Wn.
  rewrite Hpc in Wr, Wn. cbn [records_left naps_left] in Wr, Wn.
  destruct (run_grown_from sys es (deliver p)) as [lines [more [C [Rq Nq]]]].
  fold q in C, Rq, Nq. rewrite D in C, Rq, Nq.
  cbn [csv rounds naps signalhandler] in C, Rq, Nq.
  rewrite Nq, List.length_app in Wn.
  destruct lines as [|x lines]; [|cbn in Rq; lia].
  destruct more as [|y more]; [|cbn in Wn; lia].
  rewrite C, Nq, !List.app_nil_r. split; reflexivity.
Qed.

Lemma after_signal_at_most_one_more_record_witness :
  let p := run demo_os (fresh_process (initial_vars (at_time 0 0)))
               (ticks [first_answer; first_answer]) in
  let q := run demo_os (deliver p)
               [Tick second_answer; Signal; Tick second_answer;
                Tick second_answer; Signal; Tick second_answer;
                Tick second_answer; Tick second_answer] in
  quit q = true
  /\ (rounds q <= S (rounds p))%nat
  /\ (List.length (naps q) <= S (List.length (naps p)))%nat
  /\ (pc p = AtCheck -> csv q = csv p /\ naps q = naps p).
Proof.
  intros p.
  apply (after_signal_at_most_one_more_record demo_os p).
  vm_compute. reflexivity.
Defined.


(** X16. When the query of the counters fails during a pass of the loop,
    the program ends there with status 1: the message of [perror] for
    [getifdata], line 91, is added to the error stream, no record is
    written for that pass, the file is closed with the records of the
    earlier passes in it, and nothing that happens afterwards changes
    anything. *)
Theorem failed_query_in_the_loop_exits_1 :
  forall (sys : os) (p : process) (a : answer) (es : list event),
    pc p = AtSample -> reading a = None ->
    let q := run sys p (Tick a :: es) in
    pc q = Stopped 1 /\ csv_open q = false
    /\ csv q = csv p /\ rounds q = rounds p /\ naps q = naps p
    /\ errors q = (errors p ++ [("getifdata, line 91: " ++ strerror sys ++ "
")%string])%list.
Proof.
  intros sys p a es Hpc Hr q. subst q.
  rewrite run_cons, step_sample by exact Hpc.
  unfold sample. rewrite Hr.
  rewrite (run_stopped sys es _ 1) by reflexivity.
  repeat split.
Qed.

Lemma failed_query_in_the_loop_exits_1_witness :
  let p := run demo_os (fresh_process (initial_vars (at_time 0 0)))
               (ticks [first_answer; first_answer; first_answer; first_answer]) in
  let q := run demo_os p
               [Tick failed_answer; Tick second_answer; Signal;
                Tick second_answer] in
  pc q = Stopped 1 /\ csv_open q = false
  /\ csv q = csv p /\ rounds q = rounds p /\ naps q = naps p
  /\ errors q = (errors p ++ ["getifdata, line 91: No such file or directory
"])%list.
Proof.
  intros p.
  apply (failed_query_in_the_loop_exits_1 demo_os p).
  - vm_compute. reflexivity.
  - reflexivity.
Defined.

(** What a pass that goes through leaves behind. *)
Lemma sample_ok_backup (sys : os) (p : process) (a : answer)
    (data : ifmibdata) :
  reading a = Some data -> sample_ok sys (vars p) a = true ->
  exists line : string,
    sample sys p a
    = {| pc := AtCheck; quit := quit p; interval := interval p;
         row := row p; vars := backup data (now a);
         csv := (csv p ++ [line])%list; csv_open := csv_open p;
         naps := naps p; rounds := S (rounds p); errors := errors p |}.
Proof.
  intros Hr Hok. unfold sample_ok in Hok. unfold sample. rewrite Hr in *.
  destruct (iteration (vars p) data (now a)) as [[[ci co] v]|] eqn:Hi;
    [|discriminate].
  destruct (strftime (localtime sys (tv_sec (now a)))) as [t|];
    [|discriminate].
  exists (data_line t ci co).
  unfold iteration in Hi.
  destruct (normalize _ _); [|discriminate].
  destruct (normalize _ _); [|discriminate].
  inversion Hi. reflexivity.
Qed.

(** X17. One turn of the loop.  From the top of the loop, with [quit]
    clear, a pass that goes through and a sleep whose argument is defined,
    four steps (the pass, the test, the call of [usleep], its return) lead
    back to the top of the loop with one record and one sleep added and
    with the snapshot of this pass, its counters cut to 32 bits and its
    time, as the base of the next one: the record of the next pass is
    computed from these two snapshots alone, whatever came before. *)
Theorem one_turn_of_the_loop :
  forall (sys : os) (p : process) (a1 x y z : answer) (d1 : ifmibdata)
         (us : Z),
    pc p = AtSample -> quit p = false -> usleep_arg (interval p) = Some us ->
    reading a1 = Some d1 -> sample_ok sys (vars p) a1 = true ->
    let q := run sys p [Tick a1; Tick x; Tick y; Tick z] in
    pc q = AtSample /\ quit q = false
    /\ vars q = backup d1 (now a1)
    /\ rounds q = S (rounds p)
    /\ naps q = (naps p ++ [us])%list
    /\ (exists line : string, csv q = (csv p ++ [line])%list)
    /\ (forall (a2 : answer) (d2 : ifmibdata) (ci co : Z) (v : loopvars)
               (t : string),
          reading a2 = Some d2 ->
          iteration (backup d1 (now a1)) d2 (now a2) = Some (ci, co, v) ->
          strftime (localtime sys (tv_sec (now a2))) = Some t ->
          csv (step sys q (Tick a2)) = (csv q ++ [data_line t ci co])%list).
Proof.
  intros sys p a1 x y z d1 us Hpc Hq Hus Hr Hok q.
  destruct (sample_ok_backup sys p a1 d1 Hr Hok) as [line Hs].
  assert (Hrun : q = {| pc := AtSample; quit := false; interval := interval p;
                        row := row p; vars := backup d1 (now a1);
                        csv := (csv p ++ [line])%list; csv_open := csv_open p;
                        naps := (naps p ++ [us])%list; rounds := S (rounds p);
                        errors := errors p |}).
  { subst q.
    rewrite run_cons, step_sample by exact Hpc. rewrite Hs.
    rewrite run_cons, step_check by reflexivity.
    unfold check. cbn [quit]. rewrite Hq.
    cbn [at_point pc quit interval row vars csv csv_open naps rounds errors].
    rewrite run_cons, step_sleep by reflexivity.
    erewrite enter_sleep_some by (cbn [interval]; exact Hus).
    cbn [pc quit interval row vars csv csv_open naps rounds errors].
    rewrite run_cons, step_wake by reflexivity.
    reflexivity. }
  rewrite Hrun. cbn [pc quit vars rounds csv naps].
  split; [reflexivity|]. split; [reflexivity|]. split; [reflexivity|].
  split; [reflexivity|]. split; [reflexivity|].
  split; [exists line; reflexivity|].
  intros a2 d2 ci co v t Hr2 Hi St.
  rewrite step_sample by reflexivity.
  unfold sample. rewrite Hr2. cbn [vars]. rewrite Hi, St. reflexivity.
Qed.

Lemma one_turn_of_the_loop_witness :
  let p := fresh_process (initial_vars (at_time 0 0)) in
  let q := run demo_os p
               [Tick first_answer; Tick first_answer; Tick first_answer;
                Tick first_answer] in
  pc q = AtSample /\ quit q = false
  /\ vars q = backup (counters 1000000 2000000) (now first_answer)
  /\ rounds q = S (rounds p)
  /\ naps q = (naps p ++ [1000000])%list.
Proof.
  intros p q.
  pose proof (one_turn_of_the_loop demo_os p first_answer first_answer
                first_answer first_answer (counters 1000000 2000000) 1000000
                eq_refl eq_refl eq_refl eq_refl) as H.
  assert (Hok : sample_ok demo_os (vars p) first_answer = true)
    by (vm_compute; reflexivity).
  specialize (H Hok). cbv zeta in H.
  destruct H as [H1 [H2 [H3 [H4 [H5 _]]]]].
  repeat split; assumption.
Defined.

(** ** Rates without rounding *)

(** A mantissa of 53 bits with nothing to round is kept as it is. *)
Lemma shr_fexp_exact (m : positive) (e : Z) :
  2 ^ 52 <= Z.pos m < 2 ^ 53 -> -1074 <= e ->
  shr_fexp 53 1024 (Z.pos m) e loc_Exact
  = ({| shr_m := Z.pos m; shr_r := false; shr_s := false |}, e).
Proof.
  intros Hm He. unfold shr_fexp. rewrite Zdigits2_pos.
  rewrite (digits_of_bounds m 53) by (change (53 - 1) with 52; lia).
  unfold fexp, emin.
  replace (Z.max (53 + e - 53) (3 - 1024 - 53) - e) with 0 by lia.
  reflexivity.
Qed.

Lemma binary_round_aux_exact (sx : bool) (m : positive) (e : Z) :
  2 ^ 52 <= Z.pos m < 2 ^ 53 -> -1074 <= e <= 971 ->
  binary_round_aux 53 1024 sx (Z.pos m) e loc_Exact = S754_finite sx m e.
Proof.
  intros Hm He. unfold binary_round_aux.
  rewrite shr_fexp_exact by lia.
  cbn [shr_m loc_of_shr_record round_nearest_even].
  rewrite shr_fexp_exact by lia. cbn [shr_m].
  destruct (Z.leb_spec e (1024 - 53)) as [_|H]; [reflexivity|lia].
Qed.

(** A mantissa of 54 bits whose last bit is 0 loses that bit and nothing
    else. *)
Lemma binary_round_aux_exact_even (sx : bool) (m : positive) (e : Z) :
  2 ^ 52 <= Z.pos m < 2 ^ 53 -> -1074 <= e <= 971 ->
  binary_round_aux 53 1024 sx (Z.pos m~0) (e - 1) loc_Exact
  = S754_finite sx m e.
Proof.
  intros Hm He. unfold binary_round_aux.
  assert (S1 : shr_fexp 53 1024 (Z.pos m~0) (e - 1) loc_Exact
               = ({| shr_m := Z.pos m; shr_r := false; shr_s := false |}, e)).
  { unfold shr_fexp. rewrite Zdigits2_pos.
    rewrite (digits_of_bounds m~0 54)
      by (change (54 - 1) with 53; try rewrite (Pos2Z.inj_xO m); lia).
    unfold fexp, emin.
    replace (Z.max (54 + (e - 1) - 53) (3 - 1024 - 53) - (e - 1)) with 1 by lia.
    cbn. apply f_equal. lia. }
  rewrite S1. cbn [shr_m loc_of_shr_record round_nearest_even].
  rewrite shr_fexp_exact by lia. cbn [shr_m].
  destruct (Z.leb_spec e (1024 - 53)) as [_|H]; [reflexivity|lia].
Qed.

(** An integer below 2^53 converts to [double] without rounding. *)
Lemma of_Z_exact (n : Z) :
  1 <= n < 2 ^ 53 ->
  exists (m : positive) (e : Z),
    Double.of_Z n = S754_finite false m e
    /\ 2 ^ 52 <= Z.pos m < 2 ^ 53 /\ -52 <= e <= 0
    /\ Z.pos m = n * 2 ^ (- e).
Proof.
  intros Hn. unfold Double.of_Z, Double.prec, Double.emax.
  destruct n as [|p|p]; try lia. cbn [binary_normalize]. unfold binary_round.
  destruct (digits2_pos_bounds p) as [Dlo Dhi].
  set (d := Z.pos (digits2_pos p)) in *.
  assert (Hd : 1 <= d <= 53).
  { split; [subst d; lia|]. apply digits2_pos_le; lia. }
  rewrite fexp_normal by lia. rewrite Z.add_0_r.
  destruct (shl_align_fst p 0 (d - 53) ltac:(lia)) as [F S].
  destruct (shl_align p 0 (d - 53)) as [mz ez]. cbn [fst snd] in F, S. subst ez.
  replace (0 - (d - 53)) with (53 - d) in F by lia.
  assert (Hmz : 2 ^ 52 <= Z.pos mz < 2 ^ 53).
  { rewrite F. split.
    - replace 52 with ((d - 1) + (53 - d)) by lia.
      rewrite Z.pow_add_r by lia.
      apply Z.mul_le_mono_nonneg_r; [apply Z.pow_nonneg; lia|exact Dlo].
    - replace 53 with (d + (53 - d)) at 2 by lia.
      rewrite Z.pow_add_r by lia.
      apply Z.mul_lt_mono_pos_r; [apply Z.pow_pos_nonneg; lia|exact Dhi]. }
  rewrite binary_round_aux_exact by lia.
  exists mz, (d - 53). split; [reflexivity|]. split; [exact Hmz|].
  split; [lia|]. rewrite F. apply f_equal. apply f_equal. lia.
Qed.

(** Division by the double 1.0 changes nothing. *)
Lemma div_by_one (m : positive) (e : Z) :
  2 ^ 52 <= Z.pos m < 2 ^ 53 -> -1000 <= e <= 971 ->
  Double.div (S754_finite false m e) (S754_finite false 4503599627370496 (-52))
  = S754_finite false m e.
Proof.
  intros Hm He. unfold Double.div, Double.prec, Double.emax, SFdiv.
  unfold SFdiv_core_binary. rewrite !Zdigits2_pos.
  rewrite (digits_of_bounds m 53) by (change (53 - 1) with 52; lia).
  change (Z.pos (digits2_pos 4503599627370496)) with 53.
  cbv zeta. unfold fexp, emin.
  replace (Z.min (Z.max (53 + e - (53 + -52) - 53) (3 - 1024 - 53)) (e - -52))
    with (e - 1) by lia.
  replace (e - -52 - (e - 1)) with 53 by lia.
  assert (D : Z.div_eucl (Z.shiftl (Z.pos m) 53) 4503599627370496
              = (Z.pos m~0, 0)).
  { rewrite Z.shiftl_mul_pow2 by lia.
    pose proof (Z_div_mod (Z.pos m * 2 ^ 53) 4503599627370496 ltac:(lia)) as H.
    destruct (Z.div_eucl (Z.pos m * 2 ^ 53) 4503599627370496) as [q r].
    destruct H as [H1 H2]. rewrite (Pos2Z.inj_xO m).
    change (2 ^ 53) with (2 * 4503599627370496) in H1.
    assert (q = 2 * Z.pos m) by nia. assert (r = 0) by nia. subst. reflexivity. }
  rewrite D. cbn [xorb new_location].
  change (new_location 4503599627370496 0) with loc_Exact.
  apply binary_round_aux_exact_even; lia.
Qed.

Lemma integral_part_of_Z (n : Z) :
  1 <= n < 2 ^ 53 -> Double.integral_part (Double.of_Z n) = Some n.
Proof.
  intros Hn. destruct (of_Z_exact n Hn) as [m [e [E [Hm [He Hv]]]]].
  rewrite E. unfold Double.integral_part. cbn [cond_Zopp].
  destruct (Z.leb_spec 0 e) as [H0|H0].
  - assert (e = 0) by lia. subst e. cbn in Hv. rewrite Hv.
    apply f_equal. cbn. lia.
  - rewrite Hv. rewrite Z.div_mul; [reflexivity|].
    apply Z.pow_nonzero; lia.
Qed.

Lemma seconds_one :
  seconds (at_time 1 0) = S754_finite false 4503599627370496 (-52).
Proof. vm_compute. reflexivity. Qed.

(** Over exactly one second the rate is the difference. *)
Lemma normalize_one_second (d : Z) :
  0 <= d < 2 ^ 32 -> normalize d (at_time 1 0) = Some d.
Proof.
  intros Hd. unfold normalize. rewrite seconds_one.
  destruct (Z.eq_dec d 0) as [->|Hnz]; [vm_compute; reflexivity|].
  assert (Hd' : 1 <= d < 2 ^ 53) by lia.
  destruct (of_Z_exact d Hd') as [m [e [E [Hm [He Hv]]]]].
  rewrite E. rewrite div_by_one by lia. rewrite <- E.
  unfold Double.to_uint32. rewrite integral_part_of_Z by exact Hd'.
  destruct (Z.leb_spec 0 d) as [_|H]; [|lia].
  destruct (Z.ltb_spec d (2 ^ 32)) as [_|H]; [|lia].
  reflexivity.
Qed.

Lemma timersub_one_second (t0 : timeval) :
  timersub {| tv_sec := tv_sec t0 + 1; tv_usec := tv_usec t0 |} t0
  = at_time 1 0.
Proof.
  unfold timersub, at_time. cbn [tv_sec tv_usec].
  rewrite Z.sub_diag. cbn. apply f_equal2; [lia|reflexivity].
Qed.

(** X19. When two consecutive snapshots are exactly one second apart,
    the double arithmetic of lines 206-207 is exact: each rate is the
    difference of the counters modulo 2^32, for all values of the
    counters and of the clock. *)
Theorem one_second_apart_rates_are_the_differences :
  forall (prev cur : ifmibdata) (t0 : timeval),
    let t1 := {| tv_sec := tv_sec t0 + 1; tv_usec := tv_usec t0 |} in
    iteration (backup prev t0) cur t1
    = Some ((ifi_ibytes cur - ifi_ibytes prev) mod 2 ^ 32,
            (ifi_obytes cur - ifi_obytes prev) mod 2 ^ 32,
            backup cur t1).
Proof.
  intros prev cur t0 t1. unfold iteration.
  cbn [backup old_inb old_outb old_tv]. subst t1.
  rewrite timersub_one_second, !throughput_mod.
  rewrite !normalize_one_second by (apply Z.mod_pos_bound; lia).
  reflexivity.
Qed.

Lemma normalize_zero (tv : timeval) :
  0 <= tv_sec tv < 2 ^ 63 -> 0 <= tv_usec tv < 1000000 -> 0 < micros tv ->
  normalize 0 tv = Some 0.
Proof.
  intros Hs Hu Hm. unfold normalize.
  destruct (seconds_approx tv Hs Hu Hm) as [m [e [E _]]].
  rewrite E. reflexivity.
Qed.

(** X20. A counter that did not move gives the rate 0 exactly: for two
    snapshots with a positive elapsed time whose counters are equal (or
    differ by a multiple of 2^32, which the 32-bit difference cannot tell
    apart), both rates are 0; no rounding of the elapsed time can make
    them anything else. *)
Theorem unchanged_counters_give_rate_0 :
  forall (prev cur : ifmibdata) (t0 t1 : timeval),
    0 <= tv_usec t0 < 1000000 -> 0 <= tv_usec t1 < 1000000 ->
    0 <= tv_sec t0 -> tv_sec t1 < 2 ^ 63 ->
    0 < micros t1 - micros t0 ->
    (ifi_ibytes cur - ifi_ibytes prev) mod 2 ^ 32 = 0 ->
    (ifi_obytes cur - ifi_obytes prev) mod 2 ^ 32 = 0 ->
    iteration (backup prev t0) cur t1 = Some (0, 0, backup cur t1).
Proof.
  intros prev cur t0 t1 Hu0 Hu1 Hs0 Hs1 HE Hi Ho.
  pose proof (timersub_micros t1 t0) as HM.
  pose proof (timersub_usec t1 t0 Hu0 Hu1) as HU.
  pose proof (timersub_sec t1 t0 Hu0 Hu1 Hs0 Hs1 HE) as HS.
  unfold iteration. cbn [backup old_inb old_outb old_tv].
  rewrite !throughput_mod, Hi, Ho.
  rewrite normalize_zero by (try assumption; rewrite HM; exact HE).
  reflexivity.
Qed.

Lemma unchanged_counters_give_rate_0_witness :
  iteration (backup (counters 123456 7890) (at_time 1700000000 999999))
            (counters 123456 (7890 + 2 ^ 32)) (at_time 1700000060 17)
  = Some (0, 0, backup (counters 123456 (7890 + 2 ^ 32))
                       (at_time 1700000060 17)).
Proof.
  apply (unchanged_counters_give_rate_0
           (counters 123456 7890) (counters 123456 (7890 + 2 ^ 32))
           (at_time 1700000000 999999) (at_time 1700000060 17));
    cbn; first [lia | reflexivity].
Defined.

Lemma first_pass_divides_by_stack_interval_witness :
  exists ri ro : Z,
    iteration (initial_vars (at_time 1699999990 0))
              (counters 4000000000 3500000000) (at_time 1700000000 0)
    = Some (ri, ro, backup (counters 4000000000 3500000000)
                           (at_time 1700000000 0))
    /\ Z.abs (ri - 4000000000 * 1000000
                   / (micros (at_time 1700000000 0)
                      - micros (at_time 1699999990 0))) <= 1
    /\ Z.abs (ro - 3500000000 * 1000000
                   / (micros (at_time 1700000000 0)
                      - micros (at_time 1699999990 0))) <= 1.
Proof.
  apply (first_pass_divides_by_stack_interval (at_time 1699999990 0)
           (counters 4000000000 3500000000) (at_time 1700000000 0));
    cbn; lia.
Defined.

(** ** Records: sign and length *)

Lemma int32_large (z : Z) : 2 ^ 31 <= z < 2 ^ 32 -> int32 z = z - 2 ^ 32.
Proof.
  intros H. unfold int32. rewrite uint32_small by lia.
  destruct (Z.ltb_spec z (2 ^ 31)) as [Hlt|_]; [lia|reflexivity].
Qed.

Lemma iteration_some (v : loopvars) (data : ifmibdata) (new_tv : timeval)
    (ci co : Z) (v' : loopvars) :
  iteration v data new_tv = Some (ci, co, v') ->
  0 <= ci < 2 ^ 32 /\ 0 <= co < 2 ^ 32 /\ v' = backup data new_tv.
Proof.
  unfold iteration.
  destruct (normalize (throughput (ifi_ibytes data) (old_inb v))
              (timersub new_tv (old_tv v))) as [i|] eqn:Ei; [|discriminate].
  destruct (normalize (throughput (ifi_obytes data) (old_outb v))
              (timersub new_tv (old_tv v))) as [o|] eqn:Eo; [|discriminate].
  intros H. inversion H; subst.
  split; [exact (normalize_range _ _ _ Ei)|].
  split; [exact (normalize_range _ _ _ Eo)|reflexivity].
Qed.

(** X21. A rate of 2^31 bytes per second or more is written as a
    negative number: the rate is a [uint32_t] printed through [%i], so
    the record of such a pass shows the rate minus 2^32, and that is what
    a reader of the file gets back. *)
Theorem rate_of_2_31_or_more_is_written_negative :
  forall (sys : os) (p : process) (a : answer) (data : ifmibdata)
         (ci co : Z) (v : loopvars) (t : string),
    pc p = AtSample -> reading a = Some data ->
    iteration (vars p) data (now a) = Some (ci, co, v) ->
    strftime (localtime sys (tv_sec (now a))) = Some t ->
    2 ^ 31 <= ci ->
    ci - 2 ^ 32 < 0
    /\ csv (step sys p (Tick a))
       = (csv p ++ [(t ++ "," ++ show_int (ci - 2 ^ 32) ++ ","
                       ++ show_int (int32 co) ++ "
")%string])%list
    /\ parse_line (t ++ "," ++ show_int (ci - 2 ^ 32) ++ ","
                     ++ show_int (int32 co) ++ "
")
       = Some (t, ci - 2 ^ 32, int32 co).
Proof.
  intros sys p a data ci co v t Hpc Hr Hi St Hbig.
  destruct (iteration_some _ _ _ _ _ _ Hi) as [Hci [Hco _]].
  split; [lia|].
  destruct (strftime_some _ _ St) as [Et Hlen].
  split.
  - rewrite step_sample by exact Hpc. unfold sample.
    rewrite Hr, Hi, St. cbn [csv].
    rewrite data_line_text by exact Hlen.
    rewrite int32_large by lia. reflexivity.
  - apply (parse_record_text t (ci - 2 ^ 32) (int32 co)).
    rewrite Et. apply strftime_text_chars.
Qed.

Lemma rate_of_2_31_or_more_is_written_negative_witness :
  let p := fresh_process (backup (counters 1000 5) (at_time 1700000000 0)) in
  let a := {| reading := Some (counters 3000001000 5);
              now := at_time 1700000001 0 |} in
  3000000000 - 2 ^ 32 < 0
  /\ csv (step demo_os p (Tick a))
     = (csv p ++ [("2023.11.14 22:13:21" ++ "," ++ show_int (3000000000 - 2 ^ 32)
                     ++ "," ++ show_int (int32 0) ++ "
")%string])%list
  /\ parse_line ("2023.11.14 22:13:21" ++ "," ++ show_int (3000000000 - 2 ^ 32)
                   ++ "," ++ show_int (int32 0) ++ "
")
     = Some ("2023.11.14 22:13:21", 3000000000 - 2 ^ 32, int32 0).
Proof.
  intros p a.
  apply (rate_of_2_31_or_more_is_written_negative demo_os p a
           (counters 3000001000 5) 3000000000 0
           (backup (counters 3000001000 5) (at_time 1700000001 0))).
  - reflexivity.
  - reflexivity.
  - vm_compute. reflexivity.
  - vm_compute. reflexivity.
  - vm_compute. discriminate.
Defined.

Lemma is_timestamp_length (s : string) :
  is_timestamp s = true -> String.length s = 19%nat.
Proof.
  intros H. unfold is_timestamp in H.
  do 19 (destruct s as [|? s]; [discriminate H|]).
  destruct s; [reflexivity|discriminate H].
Qed.

Lemma show_int_not_empty (z : Z) : (1 <= String.length (show_int z))%nat.
Proof.
  unfold show_int. destruct z as [|p|p].
  - cbn. lia.
  - cbn [Z.to_int NilZero.string_of_int]. unfold NilZero.string_of_uint.
    destruct (Pos.to_uint p); cbn; lia.
  - cbn [Z.to_int NilZero.string_of_int]. cbn. lia.
Qed.

(** X22. For a calendar time with its fields in range (years 0 to 9999)
    the time stamp is 19 characters long and always fits the 64 bytes of
    its buffer, and the record fits the 128 bytes of its own: no record is
    ever cut short, and with its line feed it is between 24 and 44
    characters long, whatever the two rates are. *)
Theorem record_is_24_to_44_characters :
  forall (t : tm) (ci co : Z),
    tm_in_range t = true ->
    exists s : string,
      strftime t = Some s
      /\ String.length s = 19%nat
      /\ data_line s ci co
         = s ++ "," ++ show_int (int32 ci) ++ "," ++ show_int (int32 co) ++ "
"
      /\ (24 <= String.length (data_line s ci co) <= 44)%nat.
Proof.
  intros t ci co Ht.
  pose proof (is_timestamp_length _ (strftime_text_shape t Ht)) as Hlen.
  exists (strftime_text t).
  assert (Hs : strftime t = Some (strftime_text t)).
  { unfold strftime. rewrite Hlen. reflexivity. }
  split; [exact Hs|]. split; [exact Hlen|].
  rewrite data_line_text by (rewrite Hlen; lia).
  split; [reflexivity|].
  unfold record_text. rewrite !length_append. cbn [String.length].
  pose proof (show_int_length (int32 ci)) as Hi.
  pose proof (show_int_length (int32 co)) as Ho.
  pose proof (int32_range ci). pose proof (int32_range co).
  specialize (Hi ltac:(lia)). specialize (Ho ltac:(lia)).
  pose proof (show_int_not_empty (int32 ci)).
  pose proof (show_int_not_empty (int32 co)).
  lia.
Qed.

Lemma record_is_24_to_44_characters_witness :
  exists s : string,
    strftime (utc 1700000000) = Some s
    /\ String.length s = 19%nat
    /\ data_line s 4294967295 0
       = s ++ "," ++ show_int (int32 4294967295) ++ "," ++ show_int (int32 0) ++ "
"
    /\ (24 <= String.length (data_line s 4294967295 0) <= 44)%nat.
Proof.
  apply (record_is_24_to_44_characters (utc 1700000000) 4294967295 0).
  vm_compute. reflexivity.
Defined.

(** ** What the file holds *)






(** ** The row that is sampled *)

Lemma respond_row (sys : os) (p : process) (o : occurrence) :
  row (respond sys p o) = row p.
Proof. destruct o; apply step_row. Qed.

Lemma live_row (sys : os) (l : list occurrence) :
  forall p, row (live sys p l) = row p.
Proof.
  induction l as [|o l IH]; intros p; [reflexivity|].
  cbn [live fold_left]. fold (live sys (respond sys p o) l).
  rewrite IH. apply respond_row.
Qed.

Lemma respond_same_for_row (sys : os) (p : process) (o o' : occurrence) :
  same_for_row (row p) o o' -> respond sys p o = respond sys p o'.
Proof.
  destruct o as [m|], o' as [m'|]; cbn [same_for_row]; try contradiction.
  - intros [Hc Ht]. cbn [respond]. unfold ask. rewrite Hc, Ht. reflexivity.
  - reflexivity.
Qed.

Lemma live_same_for_row (sys : os) (k : Z) (l l' : list occurrence) :
  Forall2 (same_for_row k) l l' ->
  forall p, row p = k -> live sys p l = live sys p l'.
Proof.
  induction 1 as [|o o' l l' Ho Hl IH]; intros p Hp; [reflexivity|].
  cbn [live fold_left].
  fold (live sys (respond sys p o) l). fold (live sys (respond sys p o') l').
  rewrite (respond_same_for_row sys p o o') by (rewrite Hp; exact Ho).
  apply IH. rewrite respond_row. exact Hp.
Qed.

Lemma live_as_run (sys : os) (k : Z) (l : list occurrence) :
  forall p, row p = k -> live sys p l = run sys p (map (event_for_row k) l).
Proof.
  induction l as [|o l IH]; intros p Hp; [reflexivity|].
  cbn [live fold_left map]. fold (live sys (respond sys p o) l).
  rewrite run_cons.
  assert (E : respond sys p o = step sys p (event_for_row k o)).
  { destruct o as [m|]; cbn [respond event_for_row]; [|reflexivity].
    unfold ask. rewrite Hp. reflexivity. }
  rewrite E. apply IH. rewrite step_row. exact Hp.
Qed.

(** X6. The loop samples the interface named on the command line and no
    other.  Whenever [main] gets as far as the loop, the row it passes to
    [getifdata] in line 197, at every pass and however long the loop has
    run, is the first row of the interface table whose name is the
    interface argument.  So each pass asks for the counters of that row,
    and what the program does and writes depends on the table only through
    them: two histories of the system that agree on the counters of that
    row and on the clock lead to the same state, whatever the other rows
    hold, and the run is the run of [main] on the events made of the
    counters of that row. *)
Theorem every_pass_reads_the_named_row :
  forall (sys : os) (argv : list string) (prior : option string)
         (stack : timeval) (l : list occurrence) (w : world) (p : process),
    main_live sys argv prior stack l = (w, Ret p) ->
    exists n k : Z,
      ifcount sys = Some n
      /\ 1 <= k <= uint32 n
      /\ ifmd_name sys k = Some (nth 3 argv "")
      /\ (forall j, 1 <= j < k -> other_name sys (nth 3 argv "") j)
      /\ row p = k
      /\ (forall m : moment,
            ask p m = {| reading := counters_at m k; now := time_at m |})
      /\ (forall l' : list occurrence,
            Forall2 (same_for_row k) l l' ->
            main_live sys argv prior stack l' = (w, Ret p))
      /\ main sys argv prior stack (map (event_for_row k) l) = (w, Ret p).
Proof.
  intros sys argv prior stack l w p H. unfold main_live in *.
  destruct (startup sys argv prior stack nothing_yet) as [w0 [p0| |]] eqn:Hs;
    try discriminate.
  inversion H; subst. clear H.
  destruct (startup_row _ _ _ _ _ _ Hs) as [_ [_ [Hr [_ [w1 Hrow]]]]].
  destruct (getifrow_ret _ _ _ _ _ Hrow) as [n [Hn [[Hm _]|[Hk [Hname [Hb _]]]]]];
    [lia|].
  exists n, (row p0). rewrite live_row.
  split; [exact Hn|]. split; [exact Hk|]. split; [exact Hname|].
  split; [exact Hb|]. split; [reflexivity|].
  split; [intros m; unfold ask; rewrite live_row; reflexivity|].
  split.
  - intros l' Hl.
    rewrite (live_same_for_row sys (row p0) l l' Hl p0 eq_refl). reflexivity.
  - unfold main. rewrite Hs.
    rewrite (live_as_run sys (row p0) l p0 eq_refl). reflexivity.
Qed.

Lemma every_pass_reads_the_named_row_witness :
  exists (w : world) (p : process),
    main_live demo_os demo_argv None (at_time 0 0)
      [Goes_on (all_rows (Some (counters 1000000 2000000))
                         (at_time 1700000000 0));
       Goes_on (all_rows None (at_time 1700000000 0));
       Interrupted]
    = (w, Ret p)
    /\ row p = 2
    /\ main_live demo_os demo_argv None (at_time 0 0)
         [Goes_on (only_row 2 (counters 1000000 2000000)
                            (at_time 1700000000 0));
          Goes_on (all_rows None (at_time 1700000000 0));
          Interrupted]
       = (w, Ret p).
Proof.
  destruct (main_live demo_os demo_argv None (at_time 0 0)
              [Goes_on (all_rows (Some (counters 1000000 2000000))
                                 (at_time 1700000000 0));
               Goes_on (all_rows None (at_time 1700000000 0));
               Interrupted]) as [w [p|s|]] eqn:Hm.
  - exists w, p. split; [reflexivity|].
    destruct (every_pass_reads_the_named_row _ _ _ _ _ _ _ Hm)
      as [n [k [Hn [Hk [Hname [Hb [Hrow [_ [Hsame _]]]]]]]]].
    assert (Hk2 : k = 2).
    { pose proof Hm as Hc. vm_compute in Hc. injection Hc as Hw Hp.
      rewrite <- Hrow, <- Hp. reflexivity. }
    split; [rewrite Hrow; exact Hk2|].
    apply Hsame. subst k. rewrite Hk2.
    constructor; [cbn; split; reflexivity|].
    constructor; [cbn; split; reflexivity|].
    constructor; [exact I|constructor].
  - vm_compute in Hm. discriminate Hm.
  - vm_compute in Hm. discriminate Hm.
Defined.
